(** * company_performance.py: stock return pipeline

    A shallow embedding of the script: the Loader [read_csv_safe], the Return
    Calculator [compute_return], the Ranker [process_all], the Sector
    Aggregator [aggregrate_by_sector], the Reporter [print_report], the
    Exporter [export_csv] and the main program, followed by the properties
    of the specification.

    Python floats are IEEE 754 binary64 numbers, which is what Rocq's
    primitive [float] is.  Record dictionaries are objects that the script
    mutates in place and passes around by reference, so they live in a heap
    and the pipeline moves their addresses.  Console output, the file system,
    the clock and the line typed at the prompt are fields of an explicit
    [world]; every function of the script is a computation over it that either
    returns or raises. *)

From Stdlib Require Import ZArith Floats Ascii String Lia.
From Stdlib Require Import Sorting.Sorted.
From stdpp Require Import gmap strings list sorting.

(** ** Values, exceptions, outcomes *)

(** The values held by the dictionaries of this program: [None] (a cell the
    CSV reader could not fill), text, and floats.  Text is a string of code
    points below 256. *)
Inductive value :=
| VNone
| VStr (s : string)
| VFloat (x : float).

Abbreviation dict := (gmap string value).

(** Address of a record dictionary. *)
Definition loc := nat.

Inductive exn :=
| KeyError (key : string)
| ValueError
| TypeError
| AttributeError
| ZeroDivisionError
| FileNotFoundError (filename : string)
| PermissionError (filename : string)   (* an [OSError] other than not-found *)
| SystemExit (status : option Z)        (* raised by [exit()] *)
| InvalidReference.                     (* an address outside the heap; never
                                           produced by the program itself *)

Inductive outcome (A : Type) :=
| Done (a : A)
| Raise (e : exn).
Arguments Done {A} a.
Arguments Raise {A} e.

#[export] Instance outcome_ret : MRet outcome := λ A a, Done a.
#[export] Instance outcome_bind : MBind outcome := λ A B f m,
  match m with Done a => f a | Raise e => Raise e end.

(** ** The world *)

(** A file is seen through the [csv] module: its content is the list of rows
    the reader yields, each a list of cells.  [Denied] is a path that exists
    but whose [open] raises an [OSError] (no permission, a directory). *)
Definition table := list (list string).

Inductive file :=
| Regular (rows : table)
| Denied.

(** One constructor per [print] call of the script. *)
Inductive event :=
| Prompt (text : string)
| SkipMissing (row : dict)
| SkipInvalid (row : dict)
| FileNotFound (filename : string)
| NoValidData
| Heading (title : string)
| Rule
| Columns
| ReportRow (cells : list value)
| TopRow (stock ret : value)
| SectorRow (sector : string) (avg : float) (count : Z)
| BestSector (sector : string) (avg : float)
| Saved (filename : string)
| ErrorSaving (filename : string).

Record world := World {
  heap : list dict;            (* record dictionaries, by address *)
  files : gmap string file;    (* the file system *)
  console : list event;        (* what has been printed, oldest first *)
  now : string;                (* datetime.now().strftime("%Y%m%d_%H%M%S") *)
  typed : string;              (* the line the user types at the prompt *)
}.

Definition with_heap (h : list dict) (w : world) : world :=
  World h (files w) (console w) (now w) (typed w).
Definition with_files (f : gmap string file) (w : world) : world :=
  World (heap w) f (console w) (now w) (typed w).
Definition with_console (c : list event) (w : world) : world :=
  World (heap w) (files w) c (now w) (typed w).

(** ** Computations: state and exceptions *)

Definition M (A : Type) : Type := world → outcome A * world.

#[export] Instance M_ret : MRet M := λ A a w, (Done a, w).
#[export] Instance M_bind : MBind M := λ A B f m w,
  match m w with
  | (Done a, w') => f a w'
  | (Raise e, w') => (Raise e, w')
  end.

Definition raise {A} (e : exn) : M A := λ w, (Raise e, w).

Definition lift {A} (o : outcome A) : M A := λ w, (o, w).

(** [try: body except ...: handler]; [handler e = None] when no clause
    matches [e]. *)
Definition try_except {A} (body : M A) (handler : exn → option (M A)) : M A :=
  λ w,
    match body w with
    | (Done a, w') => (Done a, w')
    | (Raise e, w') =>
        match handler e with
        | Some h => h w'
        | None => (Raise e, w')
        end
    end.

(** [for x in xs: body], threading the local variables [s] of the loop. *)
Fixpoint for_each {A S} (body : A → S → M S) (xs : list A) (s : S) : M S :=
  match xs with
  | [] => mret s
  | x :: xs' => s' ← body x s; for_each body xs' s'
  end.

Definition print (e : event) : M unit :=
  λ w, (Done tt, with_console (console w ++ [e]) w).

(** A dictionary display [{...}] creates a new object. *)
Definition alloc (d : dict) : M loc :=
  λ w, (Done (length (heap w)), with_heap (heap w ++ [d]) w).

(** [d[key]] on a dictionary value. *)
Definition getitem (d : dict) (key : string) : outcome value :=
  match d !! key with
  | Some v => Done v
  | None => Raise (KeyError key)
  end.

(** [obj[key]] and [obj[key] = v] on a dictionary object. *)
Definition load (obj : loc) (key : string) : M value :=
  λ w,
    match heap w !! obj with
    | Some d => (getitem d key, w)
    | None => (Raise InvalidReference, w)
    end.

Definition store (obj : loc) (key : string) (v : value) : M unit :=
  λ w,
    match heap w !! obj with
    | Some d => (Done tt, with_heap (<[obj := <[key := v]> d]> (heap w)) w)
    | None => (Raise InvalidReference, w)
    end.

(** ** Built-ins *)

(** Conversions between text and floats, and decimal rounding, belong to the
    interpreter; the development is parametric in them. *)
Class Builtins := {
  float_of_str : string → option float;  (* float(s); None is ValueError *)
  str_of_float : float → string;         (* str(x), as csv writes a float *)
  round_ndigits : float → Z → float;     (* round(x, ndigits) *)
}.

(** Characters that [str.strip] removes, among the code points below 256. *)
Definition is_space (c : ascii) : bool :=
  let n := nat_of_ascii c in
  ((9 <=? n) && (n <=? 13)) || ((28 <=? n) && (n <=? 32))
  || (n =? 133) || (n =? 160).

Fixpoint lstrip_chars (l : list ascii) : list ascii :=
  match l with
  | c :: l' => if is_space c then lstrip_chars l' else l
  | [] => []
  end.

Definition strip_chars (l : list ascii) : list ascii :=
  rev (lstrip_chars (rev (lstrip_chars l))).

Definition strip (s : string) : string :=
  string_of_list_ascii (strip_chars (list_ascii_of_string s)).

(** [v.strip()] *)
Definition str_strip (v : value) : outcome value :=
  match v with
  | VStr s => Done (VStr (strip s))
  | _ => Raise AttributeError
  end.

(** Truth value of [v], as [not v] tests it. *)
Definition truthy (v : value) : bool :=
  match v with
  | VNone => false
  | VStr s => negb (String.eqb s "")
  | VFloat x => negb (x =? 0)%float
  end.

(** ** The aggregation result *)

(** The inner dictionary [{'total', 'count', 'avg_return'}] of a sector;
    [avg_return] is absent until the second loop sets it.  [total] starts
    as the integer 0 and becomes a float with the first [+=], with the value
    [0.0 + r]; it is kept as a float from the start. *)
Record entry := Entry {
  total : float;
  count : Z;
  avg_return : option float;
}.

(** The outer dictionary, in insertion order; its keys are the sectors,
    which are text in every record the Loader builds (a record with a sector
    that is not text is outside this model and is answered by [TypeError]). *)
Abbreviation summary := (list (string * entry)).

Fixpoint od_get (k : string) (m : summary) : option entry :=
  match m with
  | [] => None
  | (k', e) :: m' => if String.eqb k k' then Some e else od_get k m'
  end.

Fixpoint od_set (k : string) (e : entry) (m : summary) : summary :=
  match m with
  | [] => [(k, e)]
  | (k', e') :: m' =>
      if String.eqb k k' then (k, e) :: m' else (k', e') :: od_set k e m'
  end.

Section Program.
Context `{Builtins}.

(** [float(v)] *)
Definition float_ (v : value) : outcome float :=
  match v with
  | VStr s =>
      match float_of_str s with
      | Some x => Done x
      | None => Raise ValueError
      end
  | VFloat x => Done x
  | VNone => Raise TypeError
  end.

(** [a - b] and [a / b]; the other operand types of this program's values
    have no such operator. *)
Definition sub (a b : value) : outcome float :=
  match a, b with
  | VFloat x, VFloat y => Done (x - y)%float
  | _, _ => Raise TypeError
  end.

Definition truediv (x : float) (b : value) : outcome float :=
  match b with
  | VFloat y => if (y =? 0)%float then Raise ZeroDivisionError else Done (x / y)%float
  | _ => Raise TypeError
  end.

(** ** Return Calculator *)

Definition compute_return (stock : loc) : M loc :=
  start ← load stock "PriceStart";
  end_ ← load stock "PriceEnd";
  diff ← lift (sub end_ start);
  ratio ← lift (truediv diff start);
  let change := (ratio * 100)%float in
  store stock "Return" (VFloat (round_ndigits change 2));;
  mret stock.

(** ** Record Loader *)

Definition open_read (filename : string) : M table :=
  λ w,
    match files w !! filename with
    | None => (Raise (FileNotFoundError filename), w)
    | Some Denied => (Raise (PermissionError filename), w)
    | Some (Regular rows) => (Done rows, w)
    end.

(** [csv.DictReader]: the first row names the columns; a blank row is
    skipped; a short row is completed with [None]; when a column name occurs
    twice the later cell wins.  The surplus cells of a long row go under the
    key [None], which nothing in this program looks up. *)
Fixpoint zip_row (fieldnames row : list string) (d : dict) : dict :=
  match fieldnames, row with
  | k :: ks, c :: cs => zip_row ks cs (<[k := VStr c]> d)
  | k :: ks, [] => zip_row ks [] (<[k := VNone]> d)
  | [], _ => d
  end.

Definition DictReader (rows : table) : list dict :=
  match rows with
  | [] => []
  | fieldnames :: rows' =>
      map (λ row, zip_row fieldnames row ∅) (filter (λ row, row ≠ []) rows')
  end.

(** The record built for an accepted row. *)
Definition new_stock (name sector : value) (start_price end_price : float) : dict :=
  <["Stock" := name]> (<["Sector" := sector]>
    (<["PriceStart" := VFloat start_price]> (<["PriceEnd" := VFloat end_price]> ∅))).

(** The body of [for row in reader]; [stocks] is the list being built. *)
Definition read_row (row : dict) (stocks : list loc) : M (list loc) :=
  try_except
    (name ← lift (getitem row "Stock" ≫= str_strip);
     sector ← lift (getitem row "Sector" ≫= str_strip);
     start_price ← lift (getitem row "PriceStart");
     end_price ← lift (getitem row "PriceEnd");
     if negb (truthy start_price) || negb (truthy end_price) then
       print (SkipMissing row);;
       mret stocks
     else
       start_price ← lift (float_ start_price);
       end_price ← lift (float_ end_price);
       if (0 <? start_price)%float && (0 <? end_price)%float then
         stock ← alloc (new_stock name sector start_price end_price);
         mret (stocks ++ [stock])
       else mret stocks)
    (λ e,
       match e with
       | ValueError | KeyError _ => Some (print (SkipInvalid row);; mret stocks)
       | _ => None
       end).

Definition read_csv_safe (filename : string) : M (list loc) :=
  try_except
    (rows ← open_read filename;
     for_each read_row (DictReader rows) [])
    (λ e,
       match e with
       | FileNotFoundError _ => Some (print (FileNotFound filename);; mret [])
       | _ => None
       end).

(** ** Ranker *)

(** [a < b] on values. *)
Definition lt (a b : value) : outcome bool :=
  match a, b with
  | VFloat x, VFloat y => Done (x <? y)%float
  | VStr s, VStr t => Done (String.ltb s t)
  | _, _ => Raise TypeError
  end.

(** [sorted(data, key=..., reverse=...)], as CPython up to version 3.11 sorts
    a list of fewer than 64 elements: the run the list starts with is found
    ([count_run]) and reversed when it descends strictly, and the elements
    after it are inserted into it one by one, each at the place a binary
    search gives ([binarysort]); only [<] is used between keys.  With
    [reverse] the list is reversed, sorted and reversed again.  A longer list
    is cut by CPython into runs that are sorted in this way and then merged,
    which gives the same list whenever [<] orders the keys consistently, as
    it does unless a key is NaN. *)

(** How many elements of [l] continue a run whose last key is [prev]:
    those not below their predecessor, or those below it. *)
Fixpoint ascending_run {A} (prev : value) (l : list (value * A)) : outcome nat :=
  match l with
  | [] => Done 0
  | x :: l' =>
      b ← lt x.1 prev;
      if b : bool then Done 0 else n ← ascending_run x.1 l'; mret (S n)
  end.

Fixpoint descending_run {A} (prev : value) (l : list (value * A)) : outcome nat :=
  match l with
  | [] => Done 0
  | x :: l' =>
      b ← lt x.1 prev;
      if b : bool then n ← descending_run x.1 l'; mret (S n) else Done 0
  end.

(** The length of the run [l] starts with, and whether it descends. *)
Definition count_run {A} (l : list (value * A)) : outcome (nat * bool) :=
  match l with
  | x :: y :: l' =>
      b ← lt y.1 x.1;
      if b : bool then n ← descending_run y.1 l'; mret (S (S n), true)
      else n ← ascending_run y.1 l'; mret (S (S n), false)
  | _ => Done (length l, false)
  end.

(** The binary search of [binarysort] and the insertion that follows it:
    [pivot] is compared with the middle element of the interval, which is
    then halved to the left of that element or to its right, until it is
    empty.  [fuel] bounds the halvings; one more than the length of [run] is
    enough. *)
Fixpoint binary_insert {A} (fuel : nat) (pivot : value * A)
    (run : list (value * A)) : outcome (list (value * A)) :=
  match fuel with
  | 0 => Done (pivot :: run)
  | S fuel' =>
      let p := Nat.div2 (length run) in
      match run !! p with
      | None => Done (pivot :: run)
      | Some x =>
          b ← lt pivot.1 x.1;
          if b : bool then
            s ← binary_insert fuel' pivot (take p run); mret (s ++ drop p run)
          else
            s ← binary_insert fuel' pivot (drop (S p) run);
            mret (take (S p) run ++ s)
      end
  end.

(** The elements of [rest] are inserted into [run], from the first on. *)
Fixpoint binarysort {A} (run rest : list (value * A))
  : outcome (list (value * A)) :=
  match rest with
  | [] => Done run
  | x :: rest' =>
      run' ← binary_insert (S (length run)) x run; binarysort run' rest'
  end.

(** [list.sort()] on the keyed elements. *)
Definition list_sort {A} (l : list (value * A)) : outcome (list (value * A)) :=
  '(n, descending) ← count_run l;
  let run := take n l in
  binarysort (if descending : bool then rev run else run) (drop n l).

Definition sorted {A} (keyed : list (value * A)) (reverse : bool)
  : outcome (list A) :=
  s ← (if reverse then l ← list_sort (rev keyed); mret (rev l)
       else list_sort keyed);
  mret (map snd s).

(** [[f(x) for x in xs]] *)
Fixpoint map_each {A B} (f : A → M B) (xs : list A) : M (list B) :=
  match xs with
  | [] => mret []
  | x :: xs' => y ← f x; ys ← map_each f xs'; mret (y :: ys)
  end.

Definition process_all (data : list loc) : M (list loc) :=
  keys ← map_each (λ x, load x "Return") data;
  lift (sorted (zip keys data) true).

(** ** Sector Aggregator *)

Definition as_sector (v : value) : outcome string :=
  match v with
  | VStr s => Done s
  | _ => Raise TypeError
  end.

(** [t + v] for a number [t] *)
Definition add (t : float) (v : value) : outcome float :=
  match v with
  | VFloat r => Done (t + r)%float
  | _ => Raise TypeError
  end.

(** [float(n)] for an integer [n], correctly rounded. *)
Definition float_of_int (n : Z) : float :=
  SF2Prim (binary_normalize prec emax n 0 false).

(** [x / n] for a float [x] and an integer [n] *)
Definition truediv_int (x : float) (n : Z) : outcome float :=
  if (n =? 0)%Z then Raise ZeroDivisionError
  else Done (x / float_of_int n)%float.

(** The body of the first loop. *)
Definition fold_stock (s : loc) (m : summary) : M summary :=
  sector ← load s "Sector";
  sector ← lift (as_sector sector);
  let m := match od_get sector m with
           | None => od_set sector (Entry 0 0 None) m
           | Some _ => m
           end in
  ret ← load s "Return";
  lift (e ← match od_get sector m with
            | Some e => Done e
            | None => Raise (KeyError sector)
            end;
        t ← add (total e) ret;
        mret (od_set sector (Entry t (count e + 1) (avg_return e)) m)).

(** The body of the second loop, on the entry of one sector. *)
Definition finalize (e : entry) : outcome entry :=
  avg ← truediv_int (total e) (count e);
  mret (Entry (total e) (count e) (Some (round_ndigits avg 2))).

Fixpoint finalize_all (m : summary) : outcome summary :=
  match m with
  | [] => Done []
  | (sec, e) :: m' =>
      e' ← finalize e; m'' ← finalize_all m'; mret ((sec, e') :: m'')
  end.

Definition aggregrate_by_sector (data : list loc) : M summary :=
  m ← for_each fold_stock data [];
  lift (finalize_all m).

(** ** Reporter *)

(** [f"{v:<15}"]: a width specification is accepted by text and floats, not
    by [None]. *)
Definition aligned (v : value) : outcome value :=
  match v with
  | VNone => Raise TypeError
  | _ => Done v
  end.

(** [for x in xs: body] for a body without local variables. *)
Fixpoint for_each_ {A} (body : A → M unit) (xs : list A) : M unit :=
  match xs with
  | [] => mret tt
  | x :: xs' => body x;; for_each_ body xs'
  end.

(** [val['avg_return']] *)
Definition avg_of (e : entry) : outcome float :=
  match avg_return e with
  | Some a => Done a
  | None => Raise (KeyError "avg_return")
  end.

(** [max(items, key=...)]: the first item whose key no later key exceeds. *)
Fixpoint max_from (best : string * entry) (best_key : float)
    (items : summary) : outcome (string * entry) :=
  match items with
  | [] => Done best
  | it :: items' =>
      k ← avg_of it.2;
      if (best_key <? k)%float then max_from it k items'
      else max_from best best_key items'
  end.

Definition max_by_avg (items : summary) : outcome (string * entry) :=
  match items with
  | [] => Raise ValueError
  | it :: items' => k ← avg_of it.2; max_from it k items'
  end.

Definition print_report (data : list loc) (m : summary) : M unit :=
  print (Heading "All Stock Details");;
  print Rule;;
  print Columns;;
  for_each_ (λ s,
      c1 ← load s "Stock"; c1 ← lift (aligned c1);
      c2 ← load s "Sector"; c2 ← lift (aligned c2);
      c3 ← load s "PriceStart"; c3 ← lift (aligned c3);
      c4 ← load s "PriceEnd"; c4 ← lift (aligned c4);
      c5 ← load s "Return"; c5 ← lift (aligned c5);
      print (ReportRow [c1; c2; c3; c4; c5])) data;;
  print (Heading "Top 5 Stocks by Return");;
  print Rule;;
  for_each_ (λ s,
      c1 ← load s "Stock"; c1 ← lift (aligned c1);
      c2 ← load s "Return";
      print (TopRow c1 c2)) (take 5 data);;
  print (Heading "Sector Summary");;
  print Rule;;
  best ← lift (max_by_avg m);
  for_each_ (λ it : string * entry,
      a ← lift (avg_of it.2);
      print (SectorRow it.1 a (count it.2))) m;;
  a ← lift (avg_of best.2);
  print (BestSector best.1 a).

(** ** Exporter *)

Definition fields : list string :=
  ["Stock"; "Sector"; "PriceStart"; "PriceEnd"; "Return"].

(** How the csv writer renders a cell. *)
Definition cell_text (v : value) : string :=
  match v with
  | VNone => ""
  | VStr s => s
  | VFloat x => str_of_float x
  end.

(** [DictWriter._dict_to_list]: a key outside [fieldnames] is an error, a
    missing one is written as the empty cell. *)
Definition dict_to_list (rowdict : dict) : outcome (list string) :=
  if bool_decide (dom rowdict ⊆ list_to_set fields) then
    Done (map (λ k, cell_text (default (VStr "") (rowdict !! k))) fields)
  else Raise ValueError.

(** [open(filename, 'w')] creates or truncates the file. *)
Definition open_write (filename : string) : M unit :=
  λ w,
    match files w !! filename with
    | Some Denied => (Raise (PermissionError filename), w)
    | _ => (Done tt, with_files (<[filename := Regular []]> (files w)) w)
    end.

Definition write_row (filename : string) (row : list string) : M unit :=
  λ w,
    match files w !! filename with
    | Some (Regular rows) =>
        (Done tt, with_files (<[filename := Regular (rows ++ [row])]> (files w)) w)
    | _ => (Raise (PermissionError filename), w)
    end.

Definition deref (obj : loc) : M dict :=
  λ w,
    match heap w !! obj with
    | Some d => (Done d, w)
    | None => (Raise InvalidReference, w)
    end.

Definition export_csv (data : list loc) : M unit :=
  timestamp ← (λ w, (Done (now w), w));
  let filename := "stock_report_" +:+ timestamp +:+ ".csv" in
  try_except
    (open_write filename;;
     write_row filename fields;;
     for_each_ (λ s,
         d ← deref s;
         row ← lift (dict_to_list d);
         write_row filename row) data;;
     print (Saved filename))
    (λ e,
       match e with
       | FileNotFoundError _ | PermissionError _ =>
           Some (print (ErrorSaving filename))
       | _ => None
       end).

(** ** Main program *)

Definition input (prompt : string) : M string :=
  λ w, (Done (typed w), with_console (console w ++ [Prompt prompt]) w).

Definition main : M unit :=
  filename ← input "Enter CSV filename: ";
  let filename := strip filename in
  data ← read_csv_safe filename;
  match data with
  | [] =>
      print NoValidData;;
      raise (SystemExit None)
  | _ =>
      data ← map_each compute_return data;
      data ← process_all data;
      m ← aggregrate_by_sector data;
      print_report data m;;
      export_csv data
  end.

(** Exit status of the process: 0 on normal completion and on [exit()],
    1 when an exception reaches the top level. *)
Definition exit_status {A} (o : outcome A) : Z :=
  match o with
  | Done _ => 0
  | Raise (SystemExit None) => 0
  | Raise (SystemExit (Some n)) => n
  | Raise _ => 1
  end.

End Program.

(** * Vocabulary of the specification *)

(** ** Records in the heap *)

(** [h[l][k]], when the address and the key exist. *)
Definition field (h : list dict) (l : loc) (k : string) : option value :=
  d ← h !! l; d !! k.

(** returnPct and category of a record. *)
Definition return_of (h : list dict) (l : loc) : option float :=
  match field h l "Return" with
  | Some (VFloat r) => Some r
  | _ => None
  end.

Definition sector_of (h : list dict) (l : loc) : option string :=
  match field h l "Sector" with
  | Some (VStr s) => Some s
  | _ => None
  end.

Definition tuple_of (h : list dict) (l : loc)
  : option value * option value * option value * option value :=
  (field h l "Stock", field h l "Sector", field h l "PriceStart", field h l "PriceEnd").

Definition price (d : dict) (k : string) : float :=
  match d !! k with
  | Some (VFloat x) => x
  | _ => nan
  end.

(** A record as the Loader builds it: text labels that [strip] leaves
    unchanged, and two positive prices. *)
Definition loaded (d : dict) : Prop :=
  ∃ name sector ps pe,
    d = new_stock (VStr name) (VStr sector) ps pe ∧
    strip name = name ∧ strip sector = sector ∧
    (0 <? ps)%float = true ∧ (0 <? pe)%float = true.

(** ** Frame conditions *)

(** Between [w] and [w'] nothing changed but, possibly, the key ["Return"]
    of the record at [stock]. *)
Definition only_return_changed (stock : loc) (w w' : world) : Prop :=
  files w' = files w ∧ console w' = console w ∧
  length (heap w') = length (heap w) ∧
  (∀ l, l ≠ stock → heap w' !! l = heap w !! l) ∧
  (∀ d d' k, heap w !! stock = Some d → heap w' !! stock = Some d' →
             k ≠ "Return" → d' !! k = d !! k).

(** [m] leaves every record as it found it, whether it returns or raises. *)
Definition heap_stable {A} (m : M A) : Prop := ∀ w, heap (m w).2 = heap w.

(** [m] run in a world satisfying [P] returns a value satisfying [Q] and
    leaves a world satisfying [P]. *)
Definition returns {A} (P : world → Prop) (m : M A) (Q : A → Prop) : Prop :=
  ∀ w, P w → ∃ a w', m w = (Done a, w') ∧ P w' ∧ Q a.

(** ** Ranking *)

(** The key the Ranker sorts by; NaN stands for a missing one. *)
Definition key_of (h : list dict) (l : loc) : float :=
  default nan (return_of h l).

(** [a] is ranked no lower than [b]: returnPct of [a] >= returnPct of [b]. *)
Definition ge_return (h : list dict) (a b : loc) : Prop :=
  ∃ x y, return_of h a = Some x ∧ return_of h b = Some y ∧ (y <=? x)%float = true.

(** The record at [l] has a returnPct equal ([==]) to [v]. *)
Definition has_return (h : list dict) (v : float) (l : loc) : bool :=
  match return_of h l with
  | Some r => (r =? v)%float
  | None => false
  end.

(** Order of two keyed elements: the second is not below the first; the
    first is at most the second; the second is strictly below the first. *)
Definition not_below {A} (a b : float * A) : Prop := (b.1 <? a.1)%float = false.

Definition at_most {A} (a b : float * A) : Prop := (a.1 <=? b.1)%float = true.

Definition above {A} (a b : float * A) : Prop := (b.1 <? a.1)%float = true.

(** The same sort on float keys, where no comparison raises. *)
Fixpoint ascending_len {A} (prev : float) (l : list (float * A)) : nat :=
  match l with
  | [] => 0
  | x :: l' => if (x.1 <? prev)%float then 0 else S (ascending_len x.1 l')
  end.

Fixpoint descending_len {A} (prev : float) (l : list (float * A)) : nat :=
  match l with
  | [] => 0
  | x :: l' => if (x.1 <? prev)%float then S (descending_len x.1 l') else 0
  end.

Definition first_run {A} (l : list (float * A)) : nat * bool :=
  match l with
  | x :: y :: l' =>
      if (y.1 <? x.1)%float then (S (S (descending_len y.1 l')), true)
      else (S (S (ascending_len y.1 l')), false)
  | _ => (length l, false)
  end.

Fixpoint insert_at_bisection {A} (fuel : nat) (pivot : float * A)
    (run : list (float * A)) : list (float * A) :=
  match fuel with
  | 0 => pivot :: run
  | S fuel' =>
      let p := Nat.div2 (length run) in
      match run !! p with
      | None => pivot :: run
      | Some x =>
          if (pivot.1 <? x.1)%float
          then insert_at_bisection fuel' pivot (take p run) ++ drop p run
          else take (S p) run ++ insert_at_bisection fuel' pivot (drop (S p) run)
      end
  end.

Definition insert_all {A} (run rest : list (float * A)) : list (float * A) :=
  foldl (λ run x, insert_at_bisection (S (length run)) x run) run rest.

Definition sort_floats {A} (l : list (float * A)) : list (float * A) :=
  let r := first_run l in
  let run := take r.1 l in
  insert_all (if r.2 then rev run else run) (drop r.1 l).

(** A float key as a value. *)
Definition as_value {A} (p : float * A) : value * A := (VFloat p.1, p.2).

(** A record with the key it is ranked by. *)
Definition keyed (h : list dict) (l : loc) : float * loc := (key_of h l, l).

(** The list [process_all] returns on records that all carry a float. *)
Definition ranked (h : list dict) (data : list loc) : list loc :=
  map snd (rev (sort_floats (rev (map (keyed h) data)))).

(** The run the list starts with, in ascending order. *)
Definition opening_run {A} (l : list (float * A)) : list (float * A) :=
  let run := take (first_run l).1 l in
  if (first_run l).2 then rev run else run.

Definition sf_nan (f : spec_float) : bool :=
  match f with S754_nan => true | _ => false end.

(** ** Aggregation *)

(** The returns of the records of [data] whose category is [c], in order. *)
Definition returns_in (h : list dict) (c : string) (data : list loc) : list float :=
  omap (λ l, if decide (sector_of h l = Some c) then return_of h l else None) data.

(** [0 + r1 + r2 + ...], added from the left as the loop does. *)
Definition sum_returns (rs : list float) : float := foldl PrimFloat.add 0%float rs.

(** A record the Aggregator can fold: a text category and a float return. *)
Definition aggregable (h : list dict) (l : loc) : Prop :=
  ∃ c r, sector_of h l = Some c ∧ return_of h l = Some r.

(** One step of the first loop, on the category and the return of a record. *)
Definition fold_pair (m : summary) (p : string * float) : summary :=
  let m' := match od_get p.1 m with
            | None => od_set p.1 (Entry 0 0 None) m
            | Some _ => m
            end in
  match od_get p.1 m' with
  | Some e => od_set p.1 (Entry (total e + p.2) (count e + 1) (avg_return e)) m'
  | None => m'
  end.

Definition pair_of (h : list dict) (l : loc) : option (string * float) :=
  c ← sector_of h l; r ← return_of h l; Some (c, r).

Definition returns_of (c : string) (ps : list (string * float)) : list float :=
  omap (λ p : string * float, if decide (p.1 = c) then Some p.2 else None) ps.

(** The state of the first loop after the pairs [ps]. *)
Definition folded (ps : list (string * float)) (m : summary) : Prop :=
  NoDup m.*1 ∧
  ∀ c, od_get c m =
       match returns_of c ps with
       | [] => None
       | rs => Some (Entry (sum_returns rs) (Z.of_nat (length rs)) None)
       end.

(** ** Rows of the source *)

(** The text of a cell; nothing when the column is missing or the row stops
    before it. *)
Definition cell (row : dict) (k : string) : option string :=
  match row !! k with
  | Some (VStr s) => Some s
  | _ => None
  end.

Definition diagnoses (row : dict) (e : event) : Prop :=
  e = SkipMissing row ∨ e = SkipInvalid row.

(** Rows as the reader builds them hold text or [None]. *)
Definition text_row (row : dict) : Prop :=
  ∀ k v, row !! k = Some v → v = VNone ∨ ∃ s, v = VStr s.

(** The row does not stop before its Stock or Sector cell. *)
Definition labelled (row : dict) : Prop :=
  row !! "Stock" ≠ Some VNone ∧ row !! "Sector" ≠ Some VNone.

Inductive verdict :=
| Accepted (d : dict)
| Malformed
| NonPositive.

Definition report_name (w : world) : string :=
  "stock_report_" +:+ now w +:+ ".csv".

Section Vocabulary.
Context `{Builtins}.

(** The return the specification asks for. *)
Definition expected_return (ps pe : float) : float :=
  round_ndigits ((pe - ps) / ps * 100)%float 2.

Definition with_return (d : dict) : dict :=
  <["Return" := VFloat (expected_return (price d "PriceStart") (price d "PriceEnd"))]> d.

(** A record as the Calculator leaves it. *)
Definition computed (d : dict) : Prop := ∃ d0, loaded d0 ∧ d = with_return d0.

Definition all_computed (h : list dict) (data : list loc) : Prop :=
  Forall (λ l, ∃ d, h !! l = Some d ∧ computed d) data.

(** The world after the first [i] steps of the Calculator's loop over
    [data], started in [w]. *)
Definition calculated (i : nat) (data : list loc) (w : world) : world :=
  (map_each compute_return (take i data) w).2.

(** The second loop of the Aggregator, on an entry whose count is not 0. *)
Definition finalized (e : entry) : entry :=
  Entry (total e) (count e)
        (Some (round_ndigits (total e / float_of_int (count e))%float 2)).

(** What the specification says of a row: it is accepted when its labels are
    text and its two prices are non-empty text that reads as numbers above
    zero; it is malformed when a label or a price is missing, empty or not a
    number; otherwise a price is not positive. *)
Definition classify (row : dict) : verdict :=
  match cell row "Stock", cell row "Sector" with
  | Some name, Some sector =>
      match cell row "PriceStart", cell row "PriceEnd" with
      | Some ps, Some pe =>
          if String.eqb ps "" || String.eqb pe "" then Malformed
          else
            match float_of_str ps, float_of_str pe with
            | Some x, Some y =>
                if (0 <? x)%float && (0 <? y)%float
                then Accepted (new_stock (VStr (strip name)) (VStr (strip sector)) x y)
                else NonPositive
            | _, _ => Malformed
            end
      | _, _ => Malformed
      end
  | _, _ => Malformed
  end.

Definition accepted (row : dict) : option dict :=
  match classify row with
  | Accepted d => Some d
  | _ => None
  end.

Definition is_malformed (row : dict) : bool :=
  match classify row with
  | Malformed => true
  | _ => false
  end.

(** The row the Exporter writes for a record. *)
Definition export_row (d : dict) : list string :=
  map (λ k, cell_text (default (VStr "") (d !! k))) fields.

(** The text written for a price reads back as that price. *)
Definition reparsable (p : float) : Prop :=
  float_of_str (str_of_float p) = Some p ∧ str_of_float p ≠ "".

Definition prices_reparsable (d : dict) : Prop :=
  reparsable (price d "PriceStart") ∧ reparsable (price d "PriceEnd").

End Vocabulary.

(** ** What a computation may change *)

(** [m] takes every world to one related to it by [R], whether it returns or
    raises. *)
Definition preserves {A} (R : relation world) (m : M A) : Prop :=
  ∀ w, R w (m w).2.

(** Nothing changed at all. *)
Definition untouched (w w' : world) : Prop := w' = w.

(** Only records changed: files, console, clock and typed line are the
    same. *)
Definition only_records (w w' : world) : Prop :=
  files w' = files w ∧ console w' = console w ∧
  now w' = now w ∧ typed w' = typed w.

(** Only the console changed, and lines were only added to it. *)
Definition only_printed (w w' : world) : Prop :=
  ∃ evs, w' = with_console (console w ++ evs) w.

(** No file changed; records and console lines were only added. *)
Definition only_read (w w' : world) : Prop :=
  files w' = files w ∧ now w' = now w ∧ typed w' = typed w ∧
  heap w `prefix_of` heap w' ∧ console w `prefix_of` console w'.

(** No file other than [fn] changed, no record changed, and console lines
    were only added. *)
Definition only_written (fn : string) (w w' : world) : Prop :=
  heap w' = heap w ∧ now w' = now w ∧ typed w' = typed w ∧
  console w `prefix_of` console w' ∧
  ∀ f, f ≠ fn → files w' !! f = files w !! f.

(** No file other than the report file of this run changed, and console
    lines were only added. *)
Definition only_report_written (w w' : world) : Prop :=
  now w' = now w ∧ typed w' = typed w ∧
  console w `prefix_of` console w' ∧
  ∀ f, f ≠ report_name w → files w' !! f = files w !! f.

(** ** Lines of the report *)

(** The value printed for the key [k] of the record at [l]. *)
Definition shown (h : list dict) (l : loc) (k : string) : value :=
  default VNone (field h l k).

Definition report_line (h : list dict) (l : loc) : event :=
  ReportRow [shown h l "Stock"; shown h l "Sector"; shown h l "PriceStart";
             shown h l "PriceEnd"; shown h l "Return"].

Definition top_line (h : list dict) (l : loc) : event :=
  TopRow (shown h l "Stock") (shown h l "Return").

(** The average of a finished entry; NaN stands for a missing one. *)
Definition avg (p : string * entry) : float := default nan (avg_return p.2).

Definition sector_line (p : string * entry) : event :=
  SectorRow p.1 (avg p) (count p.2).

(** The lines of the first two sections and the heading of the third. *)
Definition record_sections (h : list dict) (data : list loc) : list event :=
  [Heading "All Stock Details"; Rule; Columns] ++ map (report_line h) data ++
  [Heading "Top 5 Stocks by Return"; Rule] ++ map (top_line h) (take 5 data) ++
  [Heading "Sector Summary"; Rule].

(** A record every column of which can be printed with a width. *)
Definition printable (h : list dict) (l : loc) : Prop :=
  ∀ k, k ∈ ["Stock"; "Sector"; "PriceStart"; "PriceEnd"; "Return"] →
       ∃ v, field h l k = Some v ∧ v ≠ VNone.

(** ** Sectors in order, records counted *)

(** The distinct elements of a list, each at its first occurrence. *)
Fixpoint first_occurrences (l : list string) : list string :=
  match l with
  | [] => []
  | c :: l' => c :: filter (λ x, x ≠ c) (first_occurrences l')
  end.

(** The counts of all sectors, added up. *)
Definition counted (m : summary) : Z := foldr (λ p n, (count p.2 + n)%Z) 0%Z m.

(** ** Rows of the report file *)

(** A record the csv writer accepts: no key outside the field names. *)
Definition exportable (d : dict) : Prop :=
  dom d ⊆ list_to_set ["Stock"; "Sector"; "PriceStart"; "PriceEnd"; "Return"].

(** A row on which the Loader raises: it stops before its Stock cell, or
    it has one and stops before its Sector cell. *)
Definition cut_short (row : dict) : Prop :=
  row !! "Stock" = Some VNone ∨
  (is_Some (row !! "Stock") ∧ row !! "Sector" = Some VNone).

(** The source has a column named [k]. *)
Definition has_column (row : dict) (k : string) : bool :=
  bool_decide (is_Some (row !! k)).

Section Diagnostics.
Context `{Builtins}.

(** The line the Loader prints for a row that has its labels: the missing
    prices one when the four columns exist and a price cell is empty or
    absent from the row, the invalid row one when a column does not exist or
    a price that is there does not read as a number, none otherwise. *)
Definition diagnostic (row : dict) : option event :=
  if forallb (has_column row) ["Stock"; "Sector"; "PriceStart"; "PriceEnd"] then
    match cell row "PriceStart", cell row "PriceEnd" with
    | Some ps, Some pe =>
        if String.eqb ps "" || String.eqb pe "" then Some (SkipMissing row)
        else
          match float_of_str ps, float_of_str pe with
          | Some _, Some _ => None
          | _, _ => Some (SkipInvalid row)
          end
    | _, _ => Some (SkipMissing row)
    end
  else Some (SkipInvalid row).

End Diagnostics.

(** * Scenarios *)

Module Scenario.

(** The numbers of the scenarios with the text CPython's [str] writes for
    them, and the texts of the scenarios with the number its [float] reads
    from them.  NaN, the one float that equals none, is written "nan". *)
Definition written : list (string * float) :=
  [("100.0", 100); ("110.0", 110); ("50.0", 50); ("45.0", 45); ("80.0", 80);
   ("0.0", 0); ("101.0", 101); ("102.0", 102); ("10.0", 10); ("-10.0", -10);
   ("1.0", 1); ("2.0", 2); ("inf", infinity)]%float.

Definition numerals : list (string * float) :=
  [("100", 100); ("110", 110); ("50", 50); ("45", 45); ("80", 80); ("0", 0);
   ("101", 101); ("102", 102)]%float ++ written.

Fixpoint read_numeral (l : list (string * float)) (s : string) : option float :=
  match l with
  | [] => None
  | (k, x) :: l' => if String.eqb s k then Some x else read_numeral l' s
  end.

Fixpoint write_numeral (l : list (string * float)) (x : float) : string :=
  match l with
  | [] => "nan"
  | (k, y) :: l' => if (x =? y)%float then k else write_numeral l' x
  end.

(** [round(x, 2)] leaves the returns of the scenarios (10.0, -10.0, 1.0, 2.0
    and NaN) as they are. *)
Definition builtins : Builtins := {|
  float_of_str := read_numeral numerals;
  str_of_float := write_numeral written;
  round_ndigits := λ x _, x;
|}.

#[local] Existing Instance builtins.

Definition header : list string := ["Stock"; "Sector"; "PriceStart"; "PriceEnd"].

(** The world at the start of a run on the file ["in.csv"]. *)
Definition start (f : option file) : world :=
  World [] (from_option (λ x, {["in.csv" := x]}) ∅ f) [] "20240101_120000" "in.csv".

(** Scenario A of the specification. *)
Definition scenario_A : table :=
  [header; ["AAA"; "Tech"; "100"; "110"]; ["BBB"; "Health"; "50"; "45"];
   ["CCC"; "Tech"; ""; "80"]].

(** A row that stops after its first cell. *)
Definition short_row : table := [header; ["AAA"]].

(** A source without a Stock column. *)
Definition no_stock_column : table :=
  [["Sector"; "PriceStart"; "PriceEnd"]; ["Tech"; "100"; "110"]].

(** A row whose Stock cell is empty. *)
Definition unnamed : table := [header; [""; "Tech"; "100"; "110"]].

(** Scenario C: a start price of zero. *)
Definition zero_price : table := [header; ["XXX"; "Tech"; "0"; "50"]].

(** A row whose prices are both infinite, between two ordinary rows. *)
Definition infinite_price : table :=
  [header; ["A"; "Tech"; "100"; "101"]; ["B"; "Tech"; "inf"; "inf"];
   ["C"; "Tech"; "100"; "102"]].

(** Five rows with the same return, a row whose prices are both infinite
    after the fourth of them, and a last row with a greater return. *)
Definition equal_returns : table :=
  [header; ["A"; "Tech"; "100"; "101"]; ["B"; "Tech"; "100"; "101"];
   ["C"; "Tech"; "100"; "101"]; ["D"; "Tech"; "100"; "101"];
   ["E"; "Tech"; "inf"; "inf"]; ["F"; "Tech"; "100"; "101"];
   ["G"; "Tech"; "100"; "102"]].

Definition load : M (list loc) := read_csv_safe "in.csv".

(** Loader, then Calculator. *)
Definition load_and_compute : M (list loc) :=
  data ← read_csv_safe "in.csv";
  map_each compute_return data.

(** Loader, Calculator, then Ranker. *)
Definition load_and_rank : M (list loc) :=
  data ← load_and_compute;
  process_all data.

(** The world after Loader and Calculator have run on a table. *)
Definition computed_world (t : table) : world :=
  (load_and_compute (start (Some (Regular t)))).2.

(** Scenario A after the Loader, and its first record. *)
Definition loaded_A : world := (load (start (Some (Regular scenario_A)))).2.

Definition record_AAA : dict := new_stock (VStr "AAA") (VStr "Tech") 100 110.

Definition record_BBB : dict := new_stock (VStr "BBB") (VStr "Health") 50 45.

Definition run : M unit := main.

End Scenario.

(** * Further inputs *)

Module Sample.

(** A world holding the records [h] and the files [f]. *)
Definition world_of (h : list dict) (f : gmap string file) : world :=
  World h f [] "20240101_120000" "in.csv".

(** A record whose start price is zero. *)
Definition zero_start : dict := new_stock (VStr "XXX") (VStr "Tech") 0 50.

(** A record without an end price. *)
Definition no_end_price : dict :=
  <["Stock" := VStr "XXX"]> (<["PriceStart" := VFloat 100]> ∅).

(** The first record of scenario A with its return and one key more. *)
Definition annotated : dict :=
  <["Note" := VStr "new"]> (<["Return" := VFloat 10]> Scenario.record_AAA).

(** Scenario A in a run of the program, after the prompt and the Loader. *)
Definition prompted_A : world :=
  (read_csv_safe (H := Scenario.builtins) "in.csv"
     (with_console [Prompt "Enter CSV filename: "]
        (Scenario.start (Some (Regular Scenario.scenario_A))))).2.

(** The world of scenario A after Loader and Calculator, and its records. *)
Definition computed_A : world := Scenario.computed_world Scenario.scenario_A.

Definition computed_AAA : dict := <["Return" := VFloat 10]> Scenario.record_AAA.

Definition computed_BBB : dict := <["Return" := VFloat (-10)]> Scenario.record_BBB.

(** The summary of scenario A. *)
Definition summary_A : summary :=
  [("Tech", Entry 10 1 (Some 10%float)); ("Health", Entry (-10) 1 (Some (-10)%float))].

Definition report_file : string := "stock_report_20240101_120000.csv".

(** Scenario A at the start of a run, the report path being unwritable. *)
Definition start_unwritable : world :=
  world_of [] (<[report_file := Denied]> {["in.csv" := Regular Scenario.scenario_A]}).

(** A source that has a header and a blank line. *)
Definition header_only : table := [Scenario.header; []].

(** A source whose rows are, in turn: accepted, with an empty price, with a
    price that is no number, with a price of zero. *)
Definition mixed_rows : table :=
  [Scenario.header; ["AAA"; "Tech"; "100"; "110"]; ["CCC"; "Tech"; ""; "80"];
   ["DDD"; "Tech"; "abc"; "80"]; ["XXX"; "Tech"; "0"; "50"]].

End Sample.

(** * Properties *)

#[local] Set Warnings "-clear-no-such-hyp".

(** ** Order on binary64 *)

Ltac sf_cases :=
  repeat match goal with
  | f : spec_float |- _ => destruct f as [[]|[]| |[] ? ?]
  end; simpl in *;
  change (Pos.compare_cont Eq ?a ?b) with (Pos.compare a b) in *.

Ltac cmp_cases :=
  repeat match goal with
  | |- context [(?a ?= ?b)%Z] => destruct (Z.compare_spec a b)
  | H : context [(?a ?= ?b)%Z] |- _ => destruct (Z.compare_spec a b)
  | |- context [(?a ?= ?b)%positive] => destruct (Pos.compare_spec a b)
  | H : context [(?a ?= ?b)%positive] |- _ => destruct (Pos.compare_spec a b)
  end; simpl in *; subst; try done; try lia.

Lemma SFcompare_refl f : sf_nan f = false → SFcompare f f = Some Eq.
Proof. intros; sf_cases; try done; by rewrite Z.compare_refl, Pos.compare_refl. Qed.

Lemma SFcompare_None f g :
  SFcompare f g = None → sf_nan f = true ∨ sf_nan g = true.
Proof. intros; sf_cases; try done; auto. Qed.

Lemma SFcompare_Some f g :
  sf_nan f = false → sf_nan g = false → ∃ c, SFcompare f g = Some c.
Proof. intros; sf_cases; try done; eauto. Qed.

Lemma SFcompare_antisym f g c :
  SFcompare f g = Some c → SFcompare g f = Some (CompOpp c).
Proof.
  intros Hc; sf_cases; try done; injection Hc as <-; try done; f_equal; cmp_cases.
Qed.

Lemma SFcompare_trans_le f g h c1 c2 :
  SFcompare f g = Some c1 → c1 ≠ Gt → SFcompare g h = Some c2 → c2 ≠ Gt →
  ∃ c3, SFcompare f h = Some c3 ∧ c3 ≠ Gt.
Proof.
  intros H1 N1 H2 N2; sf_cases; try done;
    injection H1 as <-; injection H2 as <-; try done;
    (eexists; split; [done|]); try done; cmp_cases.
Qed.

Lemma SFcompare_eq_lt f g h :
  SFcompare f h = Some Eq → SFcompare g h = Some Eq → SFcompare f g ≠ Some Lt.
Proof.
  intros H1 H2; sf_cases; try done; cmp_cases.
Qed.

Lemma is_nan_spec x : is_nan x = sf_nan (Prim2SF x).
Proof.
  unfold is_nan. rewrite FloatAxioms.eqb_spec. unfold SFeqb.
  destruct (sf_nan (Prim2SF x)) eqn:E.
  - by destruct (Prim2SF x).
  - by rewrite SFcompare_refl.
Qed.

Lemma Prim2SF_zero : Prim2SF 0 = S754_zero false.
Proof. reflexivity. Qed.

Lemma positive_nonzero x : (0 <? x)%float = true → (x =? 0)%float = false.
Proof.
  rewrite FloatAxioms.ltb_spec, FloatAxioms.eqb_spec, Prim2SF_zero. unfold SFltb, SFeqb.
  by destruct (Prim2SF x) as [[]|[]| |[] ? ?].
Qed.

Lemma positive_not_nan x : (0 <? x)%float = true → is_nan x = false.
Proof.
  rewrite FloatAxioms.ltb_spec, is_nan_spec, Prim2SF_zero. unfold SFltb.
  by destruct (Prim2SF x) as [[]|[]| |[] ? ?].
Qed.

Lemma ltb_leb x y : (x <? y)%float = true → (x <=? y)%float = true.
Proof.
  rewrite FloatAxioms.ltb_spec, FloatAxioms.leb_spec. unfold SFltb, SFleb.
  by destruct (SFcompare _ _) as [[]|].
Qed.

Lemma not_ltb_leb x y :
  is_nan x = false → is_nan y = false →
  (y <? x)%float = false → (x <=? y)%float = true.
Proof.
  rewrite !is_nan_spec, FloatAxioms.ltb_spec, FloatAxioms.leb_spec. unfold SFltb, SFleb. intros Hx Hy.
  destruct (SFcompare_Some _ _ Hy Hx) as [c Hc]. rewrite Hc.
  rewrite (SFcompare_antisym _ _ _ Hc). by destruct c.
Qed.

Lemma leb_trans x y z :
  (x <=? y)%float = true → (y <=? z)%float = true → (x <=? z)%float = true.
Proof.
  rewrite !FloatAxioms.leb_spec. unfold SFleb. intros H1 H2.
  destruct (SFcompare (Prim2SF x) (Prim2SF y)) as [c1|] eqn:E1; [|done].
  destruct (SFcompare (Prim2SF y) (Prim2SF z)) as [c2|] eqn:E2; [|done].
  destruct (SFcompare_trans_le _ _ _ c1 c2 E1 ltac:(by destruct c1) E2 ltac:(by destruct c2))
    as (c3 & -> & ?).
  by destruct c3.
Qed.

Lemma eqb_class_not_ltb x y v :
  (x =? v)%float = true → (y =? v)%float = true → (x <? y)%float = false.
Proof.
  rewrite !FloatAxioms.eqb_spec, FloatAxioms.ltb_spec. unfold SFeqb, SFltb. intros H1 H2.
  destruct (SFcompare (Prim2SF x) (Prim2SF v)) as [[]|] eqn:E1; try done.
  destruct (SFcompare (Prim2SF y) (Prim2SF v)) as [[]|] eqn:E2; try done.
  pose proof (SFcompare_eq_lt _ _ _ E1 E2).
  by destruct (SFcompare (Prim2SF x) (Prim2SF y)) as [[]|].
Qed.

Lemma ltb_asym x y : (x <? y)%float = true → (y <? x)%float = false.
Proof.
  rewrite !FloatAxioms.ltb_spec. unfold SFltb.
  destruct (SFcompare (Prim2SF x) (Prim2SF y)) as [c|] eqn:E; [|done].
  rewrite (SFcompare_antisym _ _ _ E). by destruct c.
Qed.

Lemma SFcompare_trans_lt_le f g h c2 :
  SFcompare f g = Some Lt → SFcompare g h = Some c2 → c2 ≠ Gt →
  SFcompare f h = Some Lt.
Proof.
  intros H1 H2 N2; sf_cases; try done;
    injection H2 as <-; try done; apply (inj Some) in H1; cmp_cases.
Qed.

Lemma ltb_leb_trans x y z :
  (x <? y)%float = true → (y <=? z)%float = true → (x <? z)%float = true.
Proof.
  rewrite FloatAxioms.leb_spec, !FloatAxioms.ltb_spec. unfold SFleb, SFltb.
  intros H1 H2.
  destruct (SFcompare (Prim2SF x) (Prim2SF y)) as [[]|] eqn:E1; try done.
  destruct (SFcompare (Prim2SF y) (Prim2SF z)) as [c2|] eqn:E2; [|done].
  by rewrite (SFcompare_trans_lt_le _ _ _ c2 E1 E2 ltac:(by destruct c2)).
Qed.

Lemma ltb_trans x y z :
  (x <? y)%float = true → (y <? z)%float = true → (x <? z)%float = true.
Proof. intros H1 H2. eapply ltb_leb_trans; [done|by apply ltb_leb]. Qed.

(** ** [str.strip] *)

Lemma lstrip_chars_head l :
  match lstrip_chars l with
  | c :: _ => is_space c = false
  | [] => True
  end.
Proof.
  induction l as [|c l IH]; simpl; [done|]. by destruct (is_space c) eqn:E.
Qed.

Lemma lstrip_chars_fixed l :
  match l with c :: _ => is_space c = false | [] => True end →
  lstrip_chars l = l.
Proof. destruct l as [|c l]; simpl; [done|]. by intros ->. Qed.

Lemma lstrip_chars_idemp l : lstrip_chars (lstrip_chars l) = lstrip_chars l.
Proof. apply lstrip_chars_fixed, lstrip_chars_head. Qed.

Lemma lstrip_chars_suffix l : ∃ sp, l = sp ++ lstrip_chars l.
Proof.
  induction l as [|c l [sp IH]]; simpl; [by exists []|].
  destruct (is_space c); [|by exists []].
  exists (c :: sp). simpl. by f_equal.
Qed.

Lemma strip_chars_idemp l : strip_chars (strip_chars l) = strip_chars l.
Proof.
  unfold strip_chars.
  set (a := lstrip_chars l). set (c := lstrip_chars (rev a)).
  assert (Hb : lstrip_chars (rev c) = rev c).
  { apply lstrip_chars_fixed.
    destruct (lstrip_chars_suffix (rev a)) as [sp Hsp]. fold c in Hsp.
    assert (Ha : a = rev c ++ rev sp).
    { rewrite <- rev_app_distr, <- Hsp. by rewrite rev_involutive. }
    pose proof (lstrip_chars_head l) as Hh. fold a in Hh. rewrite Ha in Hh.
    by destruct (rev c). }
  rewrite Hb, rev_involutive. subst c. by rewrite lstrip_chars_idemp.
Qed.

Lemma strip_idemp s : strip (strip s) = strip s.
Proof.
  unfold strip. by rewrite list_ascii_of_string_of_list_ascii, strip_chars_idemp.
Qed.

Section Properties.
Context `{Builtins}.

(** ** Return Calculator *)

Lemma bind_Done {A B} (m : M A) (f : A → M B) w a w' :
  m w = (Done a, w') → (m ≫= f) w = f a w'.
Proof. unfold mbind, M_bind. by intros ->. Qed.

Lemma load_Some obj key w d v :
  heap w !! obj = Some d → d !! key = Some v → load obj key w = (Done v, w).
Proof. unfold load, getitem. by intros -> ->. Qed.

(** [compute_return] on a record with two float prices: the division is
    the only step that can raise. *)
Lemma compute_return_floats (w : world) (stock : loc) (d : dict) (ps pe : float) :
  heap w !! stock = Some d →
  d !! "PriceStart" = Some (VFloat ps) →
  d !! "PriceEnd" = Some (VFloat pe) →
  compute_return stock w =
    if (ps =? 0)%float then (Raise ZeroDivisionError, w)
    else (Done stock,
          with_heap (<[stock := <["Return" := VFloat (expected_return ps pe)]> d]>
                       (heap w)) w).
Proof.
  intros Hd Hs He. unfold compute_return.
  rewrite (bind_Done _ _ _ _ _ (load_Some _ _ _ _ _ Hd Hs)).
  rewrite (bind_Done _ _ _ _ _ (load_Some _ _ _ _ _ Hd He)).
  unfold mbind, M_bind, lift, sub, truediv, store; simpl.
  destruct (ps =? 0)%float; [done|]. by rewrite Hd.
Qed.

(** C1.  On a record whose two prices are floats and whose start price is
    above zero (what the Loader guarantees), [compute_return] returns, and the
    record then carries under ["Return"] exactly
    [round(((end - start) / start) * 100, 2)]; no exception is raised. *)
Theorem compute_return_correct (w : world) (stock : loc) (d : dict) (ps pe : float) :
  heap w !! stock = Some d →
  d !! "PriceStart" = Some (VFloat ps) →
  d !! "PriceEnd" = Some (VFloat pe) →
  (0 <? ps)%float = true →
  compute_return stock w =
    (Done stock,
     with_heap (<[stock := <["Return" := VFloat (expected_return ps pe)]> d]> (heap w)) w).
Proof.
  intros Hd Hs He Hpos.
  rewrite (compute_return_floats w stock d ps pe Hd Hs He).
  by rewrite (positive_nonzero _ Hpos).
Qed.

(** [heap_stable] is closed under the constructions of the program. *)
Lemma heap_stable_ret {A} (a : A) : heap_stable (mret a).
Proof. done. Qed.
Lemma heap_stable_bind {A B} (m : M A) (f : A → M B) :
  heap_stable m → (∀ a, heap_stable (f a)) → heap_stable (m ≫= f).
Proof.
  intros Hm Hf w. unfold mbind, M_bind. specialize (Hm w).
  destruct (m w) as [[a|e] w']; simpl in *; [|done]. by rewrite Hf.
Qed.
Lemma heap_stable_lift {A} (o : outcome A) : heap_stable (lift o).
Proof. done. Qed.
Lemma heap_stable_raise {A} e : heap_stable (raise (A:=A) e).
Proof. done. Qed.
Lemma heap_stable_print e : heap_stable (print e).
Proof. done. Qed.
Lemma heap_stable_load obj key : heap_stable (load obj key).
Proof. intros w. unfold load. by destruct (heap w !! obj). Qed.
Lemma heap_stable_deref obj : heap_stable (deref obj).
Proof. intros w. unfold deref. by destruct (heap w !! obj). Qed.
Lemma heap_stable_open_write f : heap_stable (open_write f).
Proof. intros w. unfold open_write. by destruct (files w !! f) as [[]|]. Qed.
Lemma heap_stable_write_row f r : heap_stable (write_row f r).
Proof. intros w. unfold write_row. by destruct (files w !! f) as [[]|]. Qed.
Lemma heap_stable_try {A} (m : M A) h :
  heap_stable m → (∀ e k, h e = Some k → heap_stable k) → heap_stable (try_except m h).
Proof.
  intros Hm Hh w. unfold try_except. specialize (Hm w).
  destruct (m w) as [[a|e] w']; simpl in *; [done|].
  destruct (h e) as [k|] eqn:E; [|done]. by rewrite (Hh _ _ E).
Qed.
Lemma heap_stable_for_each {A S} (body : A → S → M S) xs s :
  (∀ x s, heap_stable (body x s)) → heap_stable (for_each body xs s).
Proof.
  intros Hb. revert s. induction xs as [|x xs IH]; intros s; simpl; [done|].
  apply heap_stable_bind; auto.
Qed.
Lemma heap_stable_for_each_ {A} (body : A → M unit) xs :
  (∀ x, heap_stable (body x)) → heap_stable (for_each_ body xs).
Proof.
  intros Hb. induction xs as [|x xs IH]; simpl; [done|].
  apply heap_stable_bind; auto.
Qed.
Lemma heap_stable_map_each {A B} (f : A → M B) xs :
  (∀ x, heap_stable (f x)) → heap_stable (map_each f xs).
Proof.
  intros Hb. induction xs as [|x xs IH]; simpl; [done|].
  apply heap_stable_bind; [auto|]. intros y.
  apply heap_stable_bind; [auto|]. intros ys. done.
Qed.

Ltac solve_heap_stable :=
  repeat first
    [ apply heap_stable_ret | apply heap_stable_lift | apply heap_stable_raise
    | apply heap_stable_print | apply heap_stable_load | apply heap_stable_deref
    | apply heap_stable_open_write | apply heap_stable_write_row
    | apply heap_stable_for_each | apply heap_stable_for_each_
    | apply heap_stable_map_each
    | apply heap_stable_bind
    | apply heap_stable_try
    | progress intros
    | match goal with |- heap_stable (match ?x with _ => _ end) => destruct x end
    | match goal with |- heap_stable (if ?x then _ else _) => destruct x end ].

Lemma process_all_heap data : heap_stable (process_all data).
Proof. unfold process_all. solve_heap_stable. Qed.

Lemma aggregrate_by_sector_heap data : heap_stable (aggregrate_by_sector data).
Proof. unfold aggregrate_by_sector, fold_stock. solve_heap_stable. Qed.

Lemma print_report_heap data m : heap_stable (print_report data m).
Proof. unfold print_report. solve_heap_stable. Qed.

Lemma export_csv_heap data : heap_stable (export_csv data).
Proof.
  unfold export_csv. apply heap_stable_bind; [by intros w|]. intros timestamp.
  apply heap_stable_try; [solve_heap_stable|].
  intros e k Hk. destruct e; try done; injection Hk as <-; apply heap_stable_print.
Qed.

Lemma only_return_changed_refl stock w : only_return_changed stock w w.
Proof. repeat split; try done. intros d d' k -> [= ->]. done. Qed.

Lemma compute_return_frame (stock : loc) (w : world) :
  only_return_changed stock w (compute_return stock w).2.
Proof.
  unfold compute_return, mbind, M_bind, load, lift, store, mret, M_ret; simpl.
  destruct (heap w !! stock) as [d|] eqn:Hd; simpl;
    [|apply only_return_changed_refl].
  destruct (getitem d "PriceStart") as [a|]; simpl;
    [|apply only_return_changed_refl].
  rewrite Hd; simpl.
  destruct (getitem d "PriceEnd") as [b|]; simpl;
    [|apply only_return_changed_refl].
  destruct (sub b a) as [x|]; simpl; [|apply only_return_changed_refl].
  destruct (truediv x a) as [y|]; simpl; [|apply only_return_changed_refl].
  rewrite Hd; simpl.
  repeat split; simpl; try done.
  - by rewrite length_insert.
  - intros l Hl. by rewrite list_lookup_insert_ne.
  - intros d1 d' k. rewrite Hd. intros [= <-].
    rewrite list_lookup_insert_eq by (by eapply lookup_lt_Some).
    intros [= <-] Hk. by rewrite lookup_insert_ne.
Qed.

(** ** Ranker *)

(** *** The sort on float keys *)

Lemma ascending_run_floats {A} prev (l : list (float * A)) :
  ascending_run (VFloat prev) (map as_value l) = Done (ascending_len prev l).
Proof.
  revert prev. induction l as [|x l IH]; intros prev; [done|].
  cbn [map ascending_run ascending_len as_value fst lt mbind outcome_bind].
  destruct (x.1 <? prev)%float; [done|]. by rewrite IH.
Qed.

Lemma descending_run_floats {A} prev (l : list (float * A)) :
  descending_run (VFloat prev) (map as_value l) = Done (descending_len prev l).
Proof.
  revert prev. induction l as [|x l IH]; intros prev; [done|].
  cbn [map descending_run descending_len as_value fst lt mbind outcome_bind].
  destruct (x.1 <? prev)%float; [|done]. by rewrite IH.
Qed.

Lemma count_run_floats {A} (l : list (float * A)) :
  count_run (map as_value l) = Done (first_run l).
Proof.
  destruct l as [|x [|y l]]; [done..|].
  cbn [map count_run first_run as_value fst lt mbind outcome_bind].
  destruct (y.1 <? x.1)%float.
  - by rewrite descending_run_floats.
  - by rewrite ascending_run_floats.
Qed.

Lemma binary_insert_floats {A} fuel (x : float * A) run :
  binary_insert fuel (as_value x) (map as_value run)
  = Done (map as_value (insert_at_bisection fuel x run)).
Proof.
  revert run. induction fuel as [|fuel IH]; intros run; [done|].
  cbn [binary_insert insert_at_bisection]. rewrite length_map, list_lookup_fmap.
  destruct (run !! Nat.div2 (length run)) as [y|]; [|done].
  cbn [fmap option_fmap option_map as_value fst lt mbind outcome_bind].
  destruct (x.1 <? y.1)%float.
  - rewrite <- fmap_take, IH. cbn. by rewrite fmap_app, fmap_drop.
  - rewrite <- fmap_drop, IH. cbn. by rewrite fmap_app, fmap_take.
Qed.

Lemma binarysort_floats {A} (run rest : list (float * A)) :
  binarysort (map as_value run) (map as_value rest)
  = Done (map as_value (insert_all run rest)).
Proof.
  revert run. induction rest as [|x rest IH]; intros run; [done|].
  cbn [map binarysort insert_all foldl].
  rewrite length_map, binary_insert_floats. cbn [mbind outcome_bind]. apply IH.
Qed.

Lemma list_sort_floats {A} (l : list (float * A)) :
  list_sort (map as_value l) = Done (map as_value (sort_floats l)).
Proof.
  unfold list_sort, sort_floats. rewrite count_run_floats.
  destruct (first_run l) as [n []]; cbn [mbind outcome_bind fst snd].
  - rewrite <- fmap_take, <- fmap_drop, <- map_rev. apply binarysort_floats.
  - rewrite <- fmap_take, <- fmap_drop. apply binarysort_floats.
Qed.

Lemma sorted_floats {A} (l : list (float * A)) :
  sorted (map as_value l) true = Done (map snd (rev (sort_floats (rev l)))).
Proof.
  unfold sorted. rewrite <- map_rev, list_sort_floats.
  cbn [mbind outcome_bind mret outcome_ret]. rewrite <- map_rev.
  f_equal. rewrite map_map. done.
Qed.


Lemma map_each_load w data :
  Forall (λ l, is_Some (return_of (heap w) l)) data →
  map_each (λ x, load x "Return") data w
  = (Done (map (λ l, VFloat (key_of (heap w) l)) data), w).
Proof.
  induction 1 as [|l data [r Hr] _ IH]; simpl; [done|].
  unfold mbind, M_bind at 1. unfold load at 1.
  unfold key_of at 1. rewrite Hr; simpl.
  unfold return_of, field in Hr.
  destruct (heap w !! l) as [d|]; simpl in *; [|done].
  unfold getitem. destruct (d !! "Return") as [[]|]; simpl in *; try done.
  injection Hr as ->.
  unfold mbind, M_bind. rewrite IH. done.
Qed.

Lemma zip_decorate {A B} (f : A → B) (l : list A) :
  zip (map f l) l = map (λ x, (f x, x)) l.
Proof. induction l; simpl; congruence. Qed.

Lemma StronglySorted_rev {A} (R : A → A → Prop) l :
  StronglySorted R l → StronglySorted (flip R) (rev l).
Proof.
  induction 1 as [|x l Hs IH Hx]; simpl; [constructor|].
  apply StronglySorted_app_2; [|done|repeat constructor].
  intros x1 x2 H1 ->%list_elem_of_singleton.
  rewrite Forall_forall in Hx. apply Hx.
  by apply list_elem_of_In, in_rev, list_elem_of_In.
Qed.

Lemma StronglySorted_related {A} (R : A → A → Prop) l a b :
  StronglySorted R l → a ∈ l → b ∈ l → a = b ∨ R a b ∨ R b a.
Proof.
  induction 1 as [|x l Hs IH Hx]; [by intros ?%elem_of_nil|].
  rewrite Forall_forall in Hx.
  intros [->|Ha]%elem_of_cons [->|Hb]%elem_of_cons; auto.
Qed.

Lemma filter_rev' {A} (P : A → bool) l :
  List.filter P (rev l) = rev (List.filter P l).
Proof.
  induction l as [|x l IH]; [done|].
  cbn [rev List.filter]. rewrite List.filter_app, IH. cbn [List.filter].
  destruct (P x); simpl; [done|]. by rewrite app_nil_r.
Qed.

(** *** The sort is a permutation *)

Lemma insert_at_bisection_perm {A} fuel (x : float * A) run :
  insert_at_bisection fuel x run ≡ₚ x :: run.
Proof.
  revert run. induction fuel as [|fuel IH]; intros run; [done|].
  cbn [insert_at_bisection].
  destruct (run !! Nat.div2 (length run)) as [y|]; [|done].
  destruct (x.1 <? y.1)%float.
  - rewrite IH. cbn. by rewrite take_drop.
  - rewrite IH, <- Permutation_middle. by rewrite take_drop.
Qed.

Lemma insert_all_cons {A} (run : list (float * A)) x rest :
  insert_all run (x :: rest) =
  insert_all (insert_at_bisection (S (length run)) x run) rest.
Proof. done. Qed.

Lemma insert_all_perm {A} (run rest : list (float * A)) :
  insert_all run rest ≡ₚ run ++ rest.
Proof.
  revert run. induction rest as [|x rest IH]; intros run.
  - by rewrite app_nil_r.
  - rewrite insert_all_cons, IH, insert_at_bisection_perm. by rewrite <- Permutation_middle.
Qed.

Lemma sort_floats_perm {A} (l : list (float * A)) : sort_floats l ≡ₚ l.
Proof.
  unfold sort_floats. cbv zeta. rewrite insert_all_perm.
  destruct (first_run l).2.
  - by rewrite <- Permutation_rev, take_drop.
  - by rewrite take_drop.
Qed.

(** *** No element of the sorted list is followed by a smaller one *)

Lemma Sorted_insert_middle {A} (R : relation A) pre x post :
  Sorted R (pre ++ post) →
  (∀ a, last pre = Some a → R a x) → (∀ b, head post = Some b → R x b) →
  Sorted R (pre ++ x :: post).
Proof.
  intros Hs Hpre Hpost. induction pre as [|a pre IH]; cbn [app] in *.
  - constructor; [done|]. destruct post; constructor. by apply Hpost.
  - apply Sorted_inv in Hs as [Hs Hhd]. constructor.
    + apply IH; [done|]. intros a' Ha'. apply Hpre.
      destruct pre; [done|]. done.
    + destruct pre as [|a' pre]; cbn [app] in *.
      * constructor. by apply Hpre.
      * constructor. by inversion Hhd.
Qed.

Lemma div2_lookup {A} (run : list A) :
  run !! Nat.div2 (length run) = None → run = [].
Proof.
  intros Hn%lookup_ge_None. destruct run as [|x run]; [done|].
  pose proof (Nat.lt_div2 (length (x :: run))) as Hlt. cbn [length] in *. lia.
Qed.

Lemma insert_at_bisection_steps {A} fuel (x : float * A) pre run post :
  length run < fuel →
  Sorted not_below (pre ++ run ++ post) →
  (∀ a, last pre = Some a → not_below a x) →
  (∀ b, head post = Some b → not_below x b) →
  Sorted not_below (pre ++ insert_at_bisection fuel x run ++ post).
Proof.
  revert pre run post.
  induction fuel as [|fuel IH]; intros pre run post Hlen Hs Hpre Hpost; [lia|].
  cbn [insert_at_bisection]. set (p := Nat.div2 (length run)).
  destruct (run !! p) as [y|] eqn:Hy.
  - assert (Hp : p < length run) by (by eapply lookup_lt_Some).
    destruct (x.1 <? y.1)%float eqn:E.
    + rewrite <- app_assoc. apply IH.
      * rewrite length_take. lia.
      * by rewrite (app_assoc (take _ _)), take_drop.
      * done.
      * rewrite (drop_S _ _ _ Hy). cbn. intros b [= <-].
        unfold not_below. by apply ltb_asym.
    + rewrite <- app_assoc, (app_assoc pre). apply IH.
      * rewrite length_drop. lia.
      * by rewrite <- (app_assoc pre), (app_assoc (take _ _)), take_drop.
      * rewrite (take_S_r _ _ _ Hy), app_assoc, last_snoc. by intros a [= <-].
      * done.
  - apply div2_lookup in Hy as ->. by apply Sorted_insert_middle.
Qed.

Lemma insert_at_bisection_run {A} (x : float * A) run :
  Sorted not_below run →
  Sorted not_below (insert_at_bisection (S (length run)) x run).
Proof.
  intros Hs.
  pose proof (insert_at_bisection_steps (S (length run)) x [] run []) as Hi.
  rewrite !app_nil_r in Hi. apply Hi; [lia|done..].
Qed.

Lemma insert_all_steps {A} (run rest : list (float * A)) :
  Sorted not_below run → Sorted not_below (insert_all run rest).
Proof.
  revert run. induction rest as [|x rest IH]; intros run Hs; [done|].
  rewrite insert_all_cons. by apply IH, insert_at_bisection_run.
Qed.

Lemma ascending_len_steps {A} (prev : float * A) l :
  Sorted not_below (prev :: take (ascending_len prev.1 l) l).
Proof.
  revert prev. induction l as [|x l IH]; intros prev; cbn [ascending_len].
  - repeat constructor.
  - destruct (x.1 <? prev.1)%float eqn:E; cbn [take].
    + repeat constructor.
    + constructor; [apply IH|]. by constructor.
Qed.

Lemma descending_len_steps {A} (prev : float * A) l :
  Sorted above (prev :: take (descending_len prev.1 l) l).
Proof.
  revert prev. induction l as [|x l IH]; intros prev; cbn [descending_len].
  - repeat constructor.
  - destruct (x.1 <? prev.1)%float eqn:E; cbn [take].
    + constructor; [apply IH|]. by constructor.
    + repeat constructor.
Qed.

Lemma Sorted_rev_above {A} (l : list (float * A)) :
  Sorted above l → Sorted not_below (rev l).
Proof.
  induction 1 as [|a l Hs IH Ha]; [constructor|]. cbn [rev].
  rewrite <- (app_nil_r [a]). rewrite <- (app_nil_r (rev l)) in IH.
  rewrite app_nil_r at 1.
  replace (rev l ++ [a] ++ []) with (rev l ++ a :: []) by done.
  apply Sorted_insert_middle; [done| |done].
  intros b Hb. destruct l as [|c l]; [done|]. cbn [rev] in Hb.
  rewrite last_snoc in Hb. injection Hb as <-. inversion Ha; subst.
  unfold not_below. by apply ltb_asym.
Qed.

Lemma first_run_descending {A} (l : list (float * A)) :
  (first_run l).2 = true → Sorted above (take (first_run l).1 l).
Proof.
  unfold first_run. destruct l as [|x [|y l]]; [done..|].
  destruct (y.1 <? x.1)%float eqn:E; [|done]. intros _. cbn [fst snd take].
  constructor; [apply descending_len_steps|by constructor].
Qed.

Lemma opening_run_steps {A} (l : list (float * A)) : Sorted not_below (opening_run l).
Proof.
  unfold opening_run. destruct (first_run l).2 eqn:Ed.
  - by apply Sorted_rev_above, first_run_descending.
  - unfold first_run in *. destruct l as [|x [|y l]]; [repeat constructor..|].
    destruct (y.1 <? x.1)%float eqn:E; [done|]. cbn [fst snd take].
    constructor; [apply ascending_len_steps|by constructor].
Qed.

Lemma sort_floats_steps {A} (l : list (float * A)) : Sorted not_below (sort_floats l).
Proof. apply insert_all_steps, opening_run_steps. Qed.

Lemma ascending_len_all {A} (prev : float * A) l :
  Sorted not_below (prev :: l) → ascending_len prev.1 l = length l.
Proof.
  revert prev. induction l as [|x l IH]; intros prev Hs; [done|].
  apply Sorted_inv in Hs as [Hs Hhd]. inversion Hhd as [|? ? Hx]; subst.
  cbn [ascending_len length]. unfold not_below in Hx. rewrite Hx. by rewrite IH.
Qed.

(** A list no element of which is followed by a smaller one is one run, and
    the sort returns it as it is. *)
Lemma sort_floats_fixed {A} (l : list (float * A)) :
  Sorted not_below l → sort_floats l = l.
Proof.
  intros Hs. unfold sort_floats, first_run.
  destruct l as [|x [|y l]]; [done..|].
  pose proof Hs as [Hs' Hhd]%Sorted_inv. inversion Hhd as [|? ? Hy]; subst.
  unfold not_below in Hy. rewrite Hy. cbn [fst snd].
  rewrite (ascending_len_all y l Hs').
  change (S (S (length l))) with (length (x :: y :: l)).
  by rewrite firstn_all, drop_all.
Qed.

Lemma sort_floats_idemp {A} (l : list (float * A)) :
  sort_floats (sort_floats l) = sort_floats l.
Proof. apply sort_floats_fixed, sort_floats_steps. Qed.

(** *** Without NaN the sorted list is in order *)

#[local] Instance at_most_trans {A} : Transitive (at_most (A := A)).
Proof. intros a b c. apply leb_trans. Qed.

Lemma steps_in_order {A} (l : list (float * A)) :
  Forall (λ p, is_nan p.1 = false) l → Sorted not_below l →
  StronglySorted at_most l.
Proof.
  intros Hn Hs. apply Sorted_StronglySorted; [tc_solve|].
  induction Hs as [|a l Hs IH Ha]; [constructor|].
  apply Forall_cons in Hn as [Hna Hn]. constructor; [by apply IH|].
  destruct Ha as [|b l Hab]; constructor.
  apply Forall_cons in Hn as [Hnb _]. by apply not_ltb_leb.
Qed.

Lemma sort_floats_in_order {A} (l : list (float * A)) :
  Forall (λ p, is_nan p.1 = false) l → StronglySorted at_most (sort_floats l).
Proof.
  intros Hn. apply steps_in_order; [|apply sort_floats_steps].
  by rewrite sort_floats_perm.
Qed.

(** *** Without NaN the sort is stable *)

Lemma filter_none {A} (P : A → bool) l :
  (∀ z, z ∈ l → P z = false) → List.filter P l = [].
Proof.
  induction l as [|a l IH]; [done|]. intros Hl. cbn [List.filter].
  rewrite (Hl a) by left. apply IH. intros z Hz. apply Hl. by right.
Qed.

Section Stability.
Context {A : Type} (P : float * A → bool).
Hypothesis P_class : ∀ a b, P a = true → P b = true → (a.1 <? b.1)%float = false.

Lemma filter_insert_at_bisection fuel x run :
  length run < fuel → StronglySorted at_most run →
  List.filter P (insert_at_bisection fuel x run)
  = List.filter P run ++ List.filter P [x].
Proof.
  revert run. induction fuel as [|fuel IH]; intros run Hlen Hs; [lia|].
  cbn [insert_at_bisection]. set (p := Nat.div2 (length run)).
  destruct (run !! p) as [y|] eqn:Hy.
  - assert (Hp : p < length run) by (by eapply lookup_lt_Some).
    pose proof Hs as Hs'. rewrite <- (take_drop p run) in Hs'.
    destruct (x.1 <? y.1)%float eqn:E.
    + rewrite List.filter_app, IH.
      * rewrite <- (take_drop p run) at 3. rewrite List.filter_app, <- !app_assoc.
        f_equal. cbn [List.filter]. destruct (P x) eqn:Px; [|by rewrite !app_nil_r].
        rewrite filter_none; [done|].
        intros z Hz. destruct (P z) eqn:Pz; [|done].
        assert (Hxz : (x.1 <? z.1)%float = true).
        { apply StronglySorted_app_1_r in Hs'.
          rewrite (drop_S _ _ _ Hy) in Hs', Hz.
          apply elem_of_cons in Hz as [->|Hz]; [done|].
          apply StronglySorted_inv in Hs' as [_ Hall].
          rewrite Forall_forall in Hall. eapply ltb_leb_trans; [exact E|].
          by apply Hall. }
        by rewrite (P_class x z Px Pz) in Hxz.
      * rewrite length_take. lia.
      * by apply StronglySorted_app_1_l in Hs'.
    + rewrite List.filter_app, IH.
      * rewrite <- (take_drop (S p) run) at 3.
        by rewrite List.filter_app, <- !app_assoc.
      * rewrite length_drop. lia.
      * rewrite <- (take_drop (S p) run) in Hs.
        by apply StronglySorted_app_1_r in Hs.
  - apply div2_lookup in Hy as ->. done.
Qed.

Lemma filter_insert_all run rest :
  Forall (λ p, is_nan p.1 = false) (run ++ rest) → Sorted not_below run →
  List.filter P (insert_all run rest) = List.filter P run ++ List.filter P rest.
Proof.
  revert run. induction rest as [|x rest IH]; intros run Hn Hs.
  - cbn. by rewrite app_nil_r.
  - rewrite insert_all_cons, IH.
    + rewrite filter_insert_at_bisection; [|lia|].
      * rewrite <- app_assoc. f_equal. cbn [List.filter]. by destruct (P x).
      * apply steps_in_order; [|done]. by apply Forall_app in Hn as [? _].
    + rewrite insert_at_bisection_perm, <- app_comm_cons.
      by rewrite Permutation_middle.
    + by apply insert_at_bisection_run.
Qed.

#[local] Instance above_trans : Transitive (above (A := A)).
Proof. intros a b c Hab Hbc. unfold above in *. by eapply ltb_trans. Qed.

Lemma filter_descending l :
  StronglySorted above l →
  List.filter P l = [] ∨ ∃ a, List.filter P l = [a].
Proof.
  induction 1 as [|a l Hs IH Ha]; [by left|]. cbn [List.filter].
  destruct (P a) eqn:Pa; [|done]. right. exists a. f_equal.
  apply filter_none. intros z Hz. destruct (P z) eqn:Pz; [|done].
  rewrite Forall_forall in Ha. specialize (Ha z Hz). unfold above in Ha.
  by rewrite (P_class z a Pz Pa) in Ha.
Qed.

Lemma filter_opening_run l :
  List.filter P (opening_run l) = List.filter P (take (first_run l).1 l).
Proof.
  unfold opening_run. destruct (first_run l).2 eqn:Ed; [|done].
  rewrite filter_rev'.
  apply first_run_descending, Sorted_StronglySorted in Ed; [|tc_solve].
  by destruct (filter_descending _ Ed) as [->|[a ->]].
Qed.

Lemma filter_sort_floats l :
  Forall (λ p, is_nan p.1 = false) l →
  List.filter P (sort_floats l) = List.filter P l.
Proof.
  intros Hn. change (sort_floats l) with (insert_all (opening_run l) (drop (first_run l).1 l)).
  rewrite filter_insert_all.
  - by rewrite filter_opening_run, <- List.filter_app, take_drop.
  - assert (opening_run l ≡ₚ take (first_run l).1 l) as ->.
    { unfold opening_run. destruct (first_run l).2; [|done].
      symmetry. apply Permutation_rev. }
    by rewrite take_drop.
  - apply opening_run_steps.
Qed.

End Stability.

(** *** The ranked list *)

Lemma process_all_floats w data :
  Forall (λ l, is_Some (return_of (heap w) l)) data →
  process_all data w = (Done (ranked (heap w) data), w).
Proof.
  intros Hd. unfold process_all.
  rewrite (bind_Done _ _ _ _ _ (map_each_load _ _ Hd)).
  unfold lift. rewrite zip_decorate.
  change (map _ data) with (map (λ l, as_value (keyed (heap w) l)) data).
  by rewrite <- (map_map (keyed (heap w)) as_value), sorted_floats.
Qed.

Lemma ranking_perm h data :
  rev (sort_floats (rev (map (keyed h) data))) ≡ₚ map (keyed h) data.
Proof. by rewrite <- Permutation_rev, sort_floats_perm, <- Permutation_rev. Qed.

Lemma map_snd_keyed h data : map snd (map (keyed h) data) = data.
Proof. rewrite map_map. apply map_id. Qed.

Lemma ranked_perm h data : ranked h data ≡ₚ data.
Proof. unfold ranked. by rewrite ranking_perm, map_snd_keyed. Qed.

Lemma keyed_elements h data l :
  l ≡ₚ map (keyed h) data → Forall (λ p, p.2 ∈ data ∧ p = keyed h p.2) l.
Proof.
  intros ->. apply Forall_map, Forall_forall. by intros x Hx.
Qed.

Lemma map_keyed_snd h (l : list (float * loc)) :
  Forall (λ p, p = keyed h p.2) l → map (keyed h) (map snd l) = l.
Proof. induction 1 as [|p l Hp _ IH]; [done|]. cbn [map]. by rewrite IH, <- Hp. Qed.

Lemma ranked_ranked h data : ranked h (ranked h data) = ranked h data.
Proof.
  unfold ranked. rewrite map_keyed_snd.
  - by rewrite rev_involutive, sort_floats_idemp.
  - eapply Forall_impl; [apply (keyed_elements h data), ranking_perm|].
    by intros p [_ ?].
Qed.

Lemma ranked_ext h h' data :
  Forall (λ l, return_of h' l = return_of h l) data → ranked h' data = ranked h data.
Proof.
  intros Hd. unfold ranked. do 4 f_equal. apply map_ext_Forall.
  eapply Forall_impl; [exact Hd|]. intros l Hl. unfold keyed, key_of. by rewrite Hl.
Qed.

Lemma numbers_keyed h data :
  Forall (λ l, ∃ r, return_of h l = Some r ∧ is_nan r = false) data →
  Forall (λ p : float * loc, is_nan p.1 = false) (map (keyed h) data).
Proof.
  intros Hd. apply Forall_map. eapply Forall_impl; [exact Hd|].
  intros l (r & Hr & Hn). cbn. unfold key_of. by rewrite Hr.
Qed.

Lemma StronglySorted_map {A B} (R : relation A) (S : relation B) (f : A → B) l :
  StronglySorted R l → (∀ a b, a ∈ l → b ∈ l → R a b → S (f a) (f b)) →
  StronglySorted S (map f l).
Proof.
  induction 1 as [|a l Hs IH Ha]; intros Hf; [constructor|]. cbn [map]. constructor.
  - apply IH. intros x y Hx Hy. apply Hf; by right.
  - apply Forall_map. rewrite Forall_forall in Ha |- *. intros y Hy.
    apply Hf; [by left|by right|by apply Ha].
Qed.

Lemma ranked_sorted h data :
  Forall (λ l, ∃ r, return_of h l = Some r ∧ is_nan r = false) data →
  StronglySorted (ge_return h) (ranked h data).
Proof.
  intros Hd. unfold ranked.
  pose proof (keyed_elements h data _ (ranking_perm h data)) as Hk.
  pose proof Hd as Hd'. rewrite Forall_forall in Hk. rewrite Forall_forall in Hd'.
  eapply StronglySorted_map.
  - apply StronglySorted_rev, sort_floats_in_order.
    rewrite <- Permutation_rev. by apply numbers_keyed.
  - intros a b Ha Hb Hab. unfold flip, at_most in Hab.
    destruct (Hk a Ha) as [Hina Heqa], (Hk b Hb) as [Hinb Heqb].
    destruct (Hd' _ Hina) as (ra & Hra & _), (Hd' _ Hinb) as (rb & Hrb & _).
    exists ra, rb. split_and!; try done.
    rewrite Heqa, Heqb in Hab. cbn in Hab. unfold key_of in Hab.
    by rewrite Hra, Hrb in Hab.
Qed.

Lemma has_return_key h v l : has_return h v l = (key_of h l =? v)%float.
Proof.
  unfold has_return, key_of. destruct (return_of h l) as [r|]; [done|].
  cbn. rewrite FloatAxioms.eqb_spec. done.
Qed.

Lemma filter_map {A B} (f : A → B) (P : B → bool) l :
  List.filter P (map f l) = map f (List.filter (λ a, P (f a)) l).
Proof.
  induction l as [|a l IH]; [done|]. cbn [map List.filter].
  destruct (P (f a)); cbn [map]; by rewrite IH.
Qed.

Lemma filter_keyed h v (l : list (float * loc)) :
  Forall (λ p, p = keyed h p.2) l →
  List.filter (has_return h v) (map snd l)
  = map snd (List.filter (λ p, (p.1 =? v)%float) l).
Proof.
  intros Hl. rewrite filter_map. f_equal. apply List.filter_ext_in.
  intros p Hp%list_elem_of_In. rewrite Forall_forall in Hl.
  rewrite has_return_key. by rewrite (Hl p Hp) at 2.
Qed.

Lemma ranked_stable h data v :
  Forall (λ l, ∃ r, return_of h l = Some r ∧ is_nan r = false) data →
  List.filter (has_return h v) (ranked h data) = List.filter (has_return h v) data.
Proof.
  intros Hd. unfold ranked. rewrite filter_keyed.
  - rewrite filter_rev', filter_sort_floats, filter_rev', rev_involutive.
    + rewrite <- (filter_keyed h v), map_snd_keyed; [done|].
      apply Forall_map, Forall_forall. done.
    + intros a b Ha Hb. eapply eqb_class_not_ltb; eauto.
    + rewrite <- Permutation_rev. by apply numbers_keyed.
  - eapply Forall_impl; [apply (keyed_elements h data), ranking_perm|].
    by intros p [_ ?].
Qed.

(** C2, as amended.  On records that carry a float return, [process_all]
    returns a permutation of its input, of the same length, empty when the
    input is empty; when no return is NaN the output is sorted non-increasing
    by return. *)
Theorem process_all_sorted (w : world) (data : list loc) :
  Forall (λ l, is_Some (return_of (heap w) l)) data →
  ∃ out, process_all data w = (Done out, w) ∧
         out ≡ₚ data ∧ length out = length data ∧ (data = [] → out = []) ∧
         (Forall (λ l, ∃ r, return_of (heap w) l = Some r ∧ is_nan r = false) data →
          StronglySorted (ge_return (heap w)) out).
Proof.
  intros Hd. exists (ranked (heap w) data).
  pose proof (ranked_perm (heap w) data) as Hp. split_and!.
  - by apply process_all_floats.
  - done.
  - by rewrite Hp.
  - by intros ->.
  - apply ranked_sorted.
Qed.

(** C10, as amended.  When no return is NaN, [process_all] is stable: for
    every value, the records whose return equals that value come out in the
    order they went in.  With or without NaN, its output is a function of
    the input list and of the returns alone. *)
Theorem process_all_stable (w : world) (data : list loc) :
  Forall (λ l, is_Some (return_of (heap w) l)) data →
  ∃ out, process_all data w = (Done out, w) ∧
         (Forall (λ l, ∃ r, return_of (heap w) l = Some r ∧ is_nan r = false) data →
          ∀ v, List.filter (has_return (heap w) v) out
               = List.filter (has_return (heap w) v) data) ∧
         (∀ w', Forall (λ l, return_of (heap w') l = return_of (heap w) l) data →
                (process_all data w').1 = Done out).
Proof.
  intros Hd. exists (ranked (heap w) data). split_and!.
  - by apply process_all_floats.
  - intros Hn v. by apply ranked_stable.
  - intros w' Hw'. rewrite process_all_floats.
    + cbn [fst]. f_equal. by apply ranked_ext.
    + rewrite Forall_forall in Hd, Hw' |- *. intros l Hl.
      rewrite Hw' by done. by apply Hd.
Qed.

(** ** Sector Aggregator *)

Lemma od_get_set_eq k e m : od_get k (od_set k e m) = Some e.
Proof.
  induction m as [|[k' e'] m IH]; simpl.
  - by rewrite String.eqb_refl.
  - destruct (String.eqb k k') eqn:E; simpl; rewrite ?String.eqb_refl, ?E; done.
Qed.

Lemma od_get_set_ne k k' e m : k ≠ k' → od_get k' (od_set k e m) = od_get k' m.
Proof.
  intros Hne. induction m as [|[k1 e1] m IH]; simpl.
  - by destruct (String.eqb_spec k' k).
  - destruct (String.eqb_spec k k1) as [<-|]; simpl.
    + by destruct (String.eqb_spec k' k).
    + by rewrite IH.
Qed.

Lemma od_get_None k m : od_get k m = None ↔ k ∉ m.*1.
Proof.
  induction m as [|[k' e'] m IH]; simpl.
  - split; [intros _; apply not_elem_of_nil|done].
  - rewrite not_elem_of_cons. destruct (String.eqb_spec k k'); naive_solver.
Qed.

Lemma od_get_Some k e m : NoDup m.*1 → od_get k m = Some e ↔ (k, e) ∈ m.
Proof.
  induction m as [|[k' e'] m IH]; simpl; intros Hnd.
  - split; [done|]. by intros ?%elem_of_nil.
  - apply NoDup_cons in Hnd as [Hk' Hnd]. rewrite elem_of_cons.
    destruct (String.eqb_spec k k') as [->|].
    + split; [naive_solver|].
      intros [[= ->]|Hin]; [done|].
      destruct Hk'. apply list_elem_of_fmap. by exists (k', e).
    + rewrite IH by done. naive_solver.
Qed.

Lemma od_set_keys k e m :
  (od_set k e m).*1 = if decide (k ∈ m.*1) then m.*1 else m.*1 ++ [k].
Proof.
  induction m as [|[k' e'] m IH]; cbn [od_set].
  - rewrite decide_False; [reflexivity|]. apply not_elem_of_nil.
  - destruct (String.eqb_spec k k') as [->|Hne].
    + rewrite decide_True; [reflexivity|]. rewrite fmap_cons. by left.
    + rewrite !fmap_cons, IH. cbn [fst]. destruct (decide (k ∈ m.*1)) as [Hin|Hn].
      * rewrite decide_True; [reflexivity|]. by right.
      * rewrite decide_False; [reflexivity|].
        intros [?|?]%elem_of_cons; done.
Qed.

Lemma od_set_NoDup k e m : NoDup m.*1 → NoDup (od_set k e m).*1.
Proof.
  intros Hnd. rewrite od_set_keys. destruct (decide _); [done|].
  apply NoDup_app. split_and!; [done| |apply NoDup_singleton].
  intros x Hx ->%list_elem_of_singleton. done.
Qed.

Lemma od_set_elem k e m x : x ∈ (od_set k e m).*1 ↔ x = k ∨ x ∈ m.*1.
Proof.
  rewrite od_set_keys. destruct (decide _).
  - naive_solver.
  - rewrite elem_of_app, list_elem_of_singleton. naive_solver.
Qed.

Lemma returns_of_snoc c ps p :
  returns_of c (ps ++ [p]) = returns_of c ps ++ (if decide (p.1 = c) then [p.2] else []).
Proof.
  unfold returns_of. rewrite omap_app. simpl. by destruct (decide _).
Qed.

Lemma sum_returns_snoc rs r : sum_returns (rs ++ [r]) = (sum_returns rs + r)%float.
Proof. unfold sum_returns. by rewrite foldl_app. Qed.

Lemma folded_step ps m p : folded ps m → folded (ps ++ [p]) (fold_pair m p).
Proof.
  destruct p as [c' r']. intros [Hnd Hget]. unfold fold_pair; cbn [fst snd].
  pose proof (Hget c') as Hc'.
  set (m' := match od_get c' m with
             | None => od_set c' (Entry 0 0 None) m
             | Some _ => m
             end).
  assert (Hnd' : NoDup m'.*1).
  { subst m'. destruct (od_get c' m); [done|]. by apply od_set_NoDup. }
  assert (Hm' : ∀ c, c ≠ c' → od_get c m' = od_get c m).
  { intros c Hc. subst m'. destruct (od_get c' m); [done|].
    by rewrite od_get_set_ne. }
  assert (He : od_get c' m' =
    Some (match returns_of c' ps with
          | [] => Entry 0 0 None
          | rs => Entry (sum_returns rs) (Z.of_nat (length rs)) None
          end)).
  { subst m'. destruct (od_get c' m) as [e|] eqn:E.
    - rewrite E, Hc'. by destruct (returns_of c' ps).
    - rewrite od_get_set_eq. by destruct (returns_of c' ps). }
  rewrite He. split; [by apply od_set_NoDup|].
  intros c. rewrite returns_of_snoc; cbn [fst snd].
  destruct (decide (c' = c)) as [<-|Hne].
  - rewrite od_get_set_eq.
    destruct (returns_of c' ps) as [|r rs]; [reflexivity|].
    cbn [total count avg_return].
    change ((r :: rs) ++ [r']) with (r :: (rs ++ [r'])).
    cbv iota. change (r :: (rs ++ [r'])) with ((r :: rs) ++ [r']).
    rewrite sum_returns_snoc, length_app. do 2 f_equal. simpl. lia.
  - rewrite od_get_set_ne, Hm' by done. rewrite app_nil_r.
    apply Hget.
Qed.

Lemma folded_foldl ps : folded ps (foldl fold_pair [] ps).
Proof.
  induction ps as [|p ps IH] using rev_ind.
  - split; [constructor|done].
  - rewrite foldl_app. by apply folded_step.
Qed.

Lemma sector_of_Some h l c :
  sector_of h l = Some c → ∃ d, h !! l = Some d ∧ d !! "Sector" = Some (VStr c).
Proof.
  unfold sector_of, field. destruct (h !! l) as [d|]; [|done]. simpl.
  destruct (d !! "Sector") as [[| s |]|] eqn:E; try done. intros [= ->]. eauto.
Qed.

Lemma return_of_Some h l r :
  return_of h l = Some r → ∃ d, h !! l = Some d ∧ d !! "Return" = Some (VFloat r).
Proof.
  unfold return_of, field. destruct (h !! l) as [d|]; [|done]. simpl.
  destruct (d !! "Return") as [[| |x]|] eqn:E; try done. intros [= ->]. eauto.
Qed.

Lemma fold_stock_pair w l m c r :
  sector_of (heap w) l = Some c → return_of (heap w) l = Some r →
  fold_stock l m w = (Done (fold_pair m (c, r)), w).
Proof.
  intros (d & Hd & Hc)%sector_of_Some (d' & Hd' & Hr)%return_of_Some.
  assert (d' = d) as -> by congruence.
  unfold fold_stock, fold_pair.
  rewrite (bind_Done _ _ _ _ _ (load_Some _ _ _ _ _ Hd Hc)).
  unfold mbind at 1, M_bind at 1, lift at 1, as_sector.
  rewrite (bind_Done _ _ _ _ _ (load_Some _ _ _ _ _ Hd Hr)).
  cbn [fst snd]. unfold lift.
  set (m' := match od_get c m with
             | None => od_set c (Entry 0 0 None) m
             | Some _ => m
             end).
  assert (He : is_Some (od_get c m')).
  { subst m'. destruct (od_get c m) eqn:E; [by rewrite E|].
    by rewrite od_get_set_eq. }
  destruct He as [e ->]. done.
Qed.

Lemma omap_cons_Some {A B} (f : A → option B) x l y :
  f x = Some y → omap f (x :: l) = y :: omap f l.
Proof. intros Hf. simpl. by rewrite Hf. Qed.

Lemma omap_cons_None {A B} (f : A → option B) x l :
  f x = None → omap f (x :: l) = omap f l.
Proof. intros Hf. simpl. by rewrite Hf. Qed.

Lemma for_each_fold_stock w data m :
  Forall (aggregable (heap w)) data →
  for_each fold_stock data m w
  = (Done (foldl fold_pair m (omap (pair_of (heap w)) data)), w).
Proof.
  intros Hd. revert m. induction Hd as [|l data (c & r & Hc & Hr) _ IH]; intros m.
  - done.
  - assert (Hp : pair_of (heap w) l = Some (c, r))
      by (unfold pair_of; rewrite Hc, Hr; done).
    cbn [for_each]. rewrite (omap_cons_Some _ _ _ _ Hp). cbn [foldl].
    rewrite (bind_Done _ _ _ _ _ (fold_stock_pair _ _ m _ _ Hc Hr)). apply IH.
Qed.

Lemma returns_of_pairs h c data :
  Forall (aggregable h) data →
  returns_of c (omap (pair_of h) data) = returns_in h c data.
Proof.
  induction 1 as [|l data (c' & r & Hc & Hr) _ IH]; [done|].
  assert (Hp : pair_of h l = Some (c', r))
    by (unfold pair_of; rewrite Hc, Hr; done).
  unfold returns_of, returns_in in *. rewrite (omap_cons_Some _ _ _ _ Hp).
  destruct (decide (c' = c)) as [->|Hne].
  - rewrite (omap_cons_Some _ _ _ r) by (by rewrite decide_True).
    rewrite (omap_cons_Some _ _ _ r) by (by rewrite decide_True).
    by rewrite IH.
  - rewrite omap_cons_None by (by rewrite decide_False).
    rewrite omap_cons_None by (rewrite decide_False; [done|congruence]).
    apply IH.
Qed.

Lemma returns_in_nonempty h c data :
  Forall (aggregable h) data →
  returns_in h c data ≠ [] ↔ ∃ l, l ∈ data ∧ sector_of h l = Some c.
Proof.
  induction 1 as [|l data (c' & r & Hc & Hr) _ IH].
  - split; [done|]. intros (l & Hl & _). by apply elem_of_nil in Hl.
  - unfold returns_in in *.
    destruct (decide (sector_of h l = Some c)) as [Hs|Hs].
    + rewrite (omap_cons_Some _ _ _ r) by (by rewrite decide_True).
      split; [|done]. intros _. exists l. split; [by left|done].
    + rewrite omap_cons_None by (by rewrite decide_False).
      rewrite IH. split.
      * intros (l' & Hl' & Hs'). exists l'. split; [by right|done].
      * intros (l' & [->|Hl']%elem_of_cons & Hs'); [done|]. eauto.
Qed.

Lemma finalize_all_nonzero (m : summary) :
  Forall (λ p : string * entry, count p.2 ≠ 0%Z) m →
  finalize_all m = Done (prod_map id finalized <$> m).
Proof.
  induction 1 as [|[c e] m Hc _ IH]; [done|].
  cbn [finalize_all]. unfold finalize, truediv_int. cbn [snd] in Hc.
  apply Z.eqb_neq in Hc as ->. cbn [mbind outcome_bind mret outcome_ret].
  by rewrite IH.
Qed.

(** What the first loop leaves for a category. *)
Lemma folded_entry h data c e :
  Forall (aggregable h) data →
  (c, e) ∈ foldl fold_pair [] (omap (pair_of h) data) →
  returns_in h c data ≠ [] ∧
  e = Entry (sum_returns (returns_in h c data))
            (Z.of_nat (length (returns_in h c data))) None.
Proof.
  intros Hd Hin. destruct (folded_foldl (omap (pair_of h) data)) as [Hnd Hget].
  apply od_get_Some in Hin; [|done].
  rewrite Hget, (returns_of_pairs _ _ _ Hd) in Hin.
  destruct (returns_in h c data) eqn:E; [done|]. by injection Hin as <-.
Qed.

(** The Aggregator returns the finalized result of the first loop. *)
Lemma aggregrate_by_sector_run w data :
  Forall (aggregable (heap w)) data →
  aggregrate_by_sector data w
  = (Done (prod_map id finalized
             <$> foldl fold_pair [] (omap (pair_of (heap w)) data)), w).
Proof.
  intros Hd. unfold aggregrate_by_sector.
  rewrite (bind_Done _ _ _ _ _ (for_each_fold_stock _ _ [] Hd)).
  unfold lift. rewrite finalize_all_nonzero; [done|].
  apply Forall_forall. intros [c e] Hin.
  destruct (folded_entry _ _ _ _ Hd Hin) as [Hne ->]. cbn.
  destruct (returns_in (heap w) c data); [done|]. simpl. lia.
Qed.

(** C3.  On records with a text category and a float return, the Aggregator
    returns (so no division by zero occurs); its keys are distinct and are
    exactly the categories of the input; for each of them [count] is the
    number of input records of that category (never 0), [total] the sum of
    their returns, and [avg_return] is [round(total / count, 2)]. *)
Theorem aggregrate_by_sector_correct (w : world) (data : list loc) :
  Forall (aggregable (heap w)) data →
  ∃ m, aggregrate_by_sector data w = (Done m, w) ∧
       NoDup m.*1 ∧
       (∀ c, c ∈ m.*1 ↔ ∃ l, l ∈ data ∧ sector_of (heap w) l = Some c) ∧
       (∀ c e, (c, e) ∈ m →
          let rs := returns_in (heap w) c data in
          count e = Z.of_nat (length rs) ∧ count e ≠ 0%Z ∧
          total e = sum_returns rs ∧
          avg_return e
          = Some (round_ndigits (total e / float_of_int (count e))%float 2)).
Proof.
  intros Hd. set (h := heap w) in *.
  set (ps := omap (pair_of h) data).
  destruct (folded_foldl ps) as [Hnd Hget].
  set (m0 := foldl fold_pair [] ps) in *.
  exists (prod_map id finalized <$> m0). split_and!.
  - by apply aggregrate_by_sector_run.
  - rewrite <- list_fmap_compose.
    by replace (fst ∘ prod_map id finalized) with (@fst string entry).
  - intros c. rewrite <- list_fmap_compose.
    replace (fst ∘ prod_map id finalized) with (@fst string entry) by done.
    rewrite <- (returns_in_nonempty _ _ _ Hd), <- (returns_of_pairs _ _ _ Hd).
    fold ps. specialize (Hget c). pose proof (od_get_None c m0) as Hnone.
    destruct (returns_of c ps); split; try done.
    + intros Hin. apply Hnone in Hin; done.
    + intros _. destruct (decide (c ∈ m0.*1)) as [|Hn]; [done|].
      apply Hnone in Hn. congruence.
  - intros c e' ([c0 e] & [= -> ->] & Hin)%list_elem_of_fmap.
    destruct (folded_entry _ _ _ _ Hd Hin) as [Hne ->]. cbn.
    split_and!; try done.
    destruct (returns_in h c0 data); [done|]. simpl. lia.
Qed.

(** ** Record Loader *)

Lemma zip_row_text fieldnames row d :
  text_row d → text_row (zip_row fieldnames row d).
Proof.
  revert row d. induction fieldnames as [|k ks IH]; intros row d Hd; [by destruct row|].
  destruct row as [|c cs]; simpl; apply IH; intros k' v;
    (destruct (decide (k = k')) as [->|];
     [rewrite lookup_insert_eq; intros [= <-]; eauto
     |rewrite lookup_insert_ne by done; apply Hd]).
Qed.

Lemma DictReader_text rows : Forall text_row (DictReader rows).
Proof.
  destruct rows as [|fieldnames rows]; [constructor|].
  unfold DictReader. apply Forall_forall. intros row (r & -> & _)%list_elem_of_fmap.
  apply zip_row_text. intros k v. by rewrite lookup_empty.
Qed.

Lemma read_row_classify row stocks w :
  text_row row → labelled row →
  match classify row with
  | Accepted d =>
      read_row row stocks w
      = (Done (stocks ++ [length (heap w)]), with_heap (heap w ++ [d]) w)
  | Malformed =>
      ∃ e, diagnoses row e ∧
           read_row row stocks w = (Done stocks, with_console (console w ++ [e]) w)
  | NonPositive => read_row row stocks w = (Done stocks, w)
  end.
Proof.
  intros Ht [Hn1 Hn2].
  assert (Hdiag : ∀ e : event, e = SkipMissing row ∨ e = SkipInvalid row →
    ∀ r, r = (Done stocks, with_console (console w ++ [e]) w) →
    ∃ e', diagnoses row e' ∧ r = (Done stocks, with_console (console w ++ [e']) w))
    by (intros e He r ->; by exists e).
  unfold classify, cell, read_row, try_except, getitem.
  destruct (row !! "Stock") as [[|name|?]|] eqn:E1;
    [done| |destruct (Ht _ _ E1) as [|[]]; done|]; cycle 1.
  { eapply Hdiag; [by right|done]. }
  destruct (row !! "Sector") as [[|sector|?]|] eqn:E2;
    [done| |destruct (Ht _ _ E2) as [|[]]; done|]; cycle 1.
  { eapply Hdiag; [by right|done]. }
  destruct (row !! "PriceStart") as [[|ps|?]|] eqn:E3;
    [| |destruct (Ht _ _ E3) as [|[]]; done|]; cycle 2.
  { eapply Hdiag; [by right|done]. }
  - destruct (row !! "PriceEnd") as [[|pe|?]|] eqn:E4;
      [| |destruct (Ht _ _ E4) as [|[]]; done|].
    + eapply Hdiag; [by left|done].
    + eapply Hdiag; [by left|done].
    + eapply Hdiag; [by right|done].
  - destruct (row !! "PriceEnd") as [[|pe|?]|] eqn:E4;
      [| |destruct (Ht _ _ E4) as [|[]]; done|]; cycle 2.
    { eapply Hdiag; [by right|done]. }
    + cbn -[new_stock]; unfold mbind, M_bind, lift, print, alloc; cbn -[new_stock].
      destruct (String.eqb ps ""); (eapply Hdiag; [by left|done]).
    + cbn -[new_stock]; unfold mbind, M_bind, lift, print, alloc; cbn -[new_stock].
      destruct (String.eqb ps ""); cbn -[new_stock];
        [eapply Hdiag; [by left|done]|].
      destruct (String.eqb pe ""); cbn -[new_stock];
        [eapply Hdiag; [by left|done]|].
      destruct (float_of_str ps) as [x|]; cbn -[new_stock];
        [|eapply Hdiag; [by right|done]].
      destruct (float_of_str pe) as [y|]; cbn -[new_stock];
        [|eapply Hdiag; [by right|done]].
      destruct ((0 <? x)%float && (0 <? y)%float); cbn -[new_stock]; done.
Qed.

Lemma read_row_post row stocks w stocks' w' :
  read_row row stocks w = (Done stocks', w') →
  files w' = files w ∧ now w' = now w ∧ typed w' = typed w ∧
  ((stocks' = stocks ∧ heap w' = heap w) ∨
   (∃ d, loaded d ∧ stocks' = stocks ++ [length (heap w)] ∧
         heap w' = heap w ++ [d])).
Proof.
  unfold read_row, try_except, getitem, str_strip, float_.
  unfold mbind, M_bind, lift, print, alloc, mret, M_ret, outcome_bind.
  intros Hr.
  repeat (case_match; simplify_eq/=);
    try (split_and!; try done; left; done).
  all: split_and!; try done; right; eexists; (split_and!; [|done|done]).
  all: match goal with H : _ && _ = true |- _ => apply andb_prop in H as [] end.
  all: eexists _, _, _, _; split_and!; try done; apply strip_idemp.
Qed.

Lemma for_each_read_row_post rows stocks w stocks' w' :
  for_each read_row rows stocks w = (Done stocks', w') →
  files w' = files w ∧ now w' = now w ∧ typed w' = typed w ∧
  ∃ ds, Forall loaded ds ∧
        stocks' = stocks ++ seq (length (heap w)) (length ds) ∧
        heap w' = heap w ++ ds.
Proof.
  revert stocks w. induction rows as [|row rows IH]; intros stocks w; cbn [for_each].
  - intros [= <- <-]. split_and!; try done. exists []. by rewrite !app_nil_r.
  - unfold mbind, M_bind.
    destruct (read_row row stocks w) as [[stocks1|e] w1] eqn:E1; [|done].
    intros (Hf & Hn & Ht & ds & Hds & -> & Hh)%IH.
    apply read_row_post in E1 as (Hf1 & Hn1 & Ht1 & [[-> Hh1]|(d & Hd & -> & Hh1)]).
    + split_and!; try congruence. exists ds. rewrite Hh, Hh1. done.
    + split_and!; try congruence. exists (d :: ds). split_and!.
      * by constructor.
      * rewrite Hh1, length_app, <- app_assoc. simpl.
        by rewrite Nat.add_1_r.
      * rewrite Hh, Hh1, <- app_assoc. done.
Qed.

Lemma read_row_raises row stocks w e w' :
  read_row row stocks w = (Raise e, w') → e = AttributeError ∨ e = TypeError.
Proof.
  unfold read_row, try_except, getitem, str_strip, float_.
  unfold mbind, M_bind, lift, print, alloc, mret, M_ret, outcome_bind.
  intros Hr. repeat (case_match; simplify_eq/=); auto.
Qed.

Lemma for_each_read_row_raises rows stocks w e w' :
  for_each read_row rows stocks w = (Raise e, w') →
  e = AttributeError ∨ e = TypeError.
Proof.
  revert stocks w. induction rows as [|row rows IH]; intros stocks w; cbn [for_each].
  - done.
  - unfold mbind, M_bind.
    destruct (read_row row stocks w) as [[stocks1|e1] w1] eqn:E1.
    + apply IH.
    + intros [= <- <-]. by eapply read_row_raises.
Qed.

Lemma read_csv_safe_post filename w data w' :
  read_csv_safe filename w = (Done data, w') →
  files w' = files w ∧ now w' = now w ∧ typed w' = typed w ∧
  ∃ ds, Forall loaded ds ∧ data = seq (length (heap w)) (length ds) ∧
        heap w' = heap w ++ ds.
Proof.
  unfold read_csv_safe, try_except, open_read. unfold mbind at 1, M_bind at 1.
  destruct (files w !! filename) as [[rows|]|] eqn:Ef.
  - destruct (for_each read_row (DictReader rows) [] w) as [[st|e] w1] eqn:E.
    + intros [= <- <-]. by apply for_each_read_row_post in E.
    + apply for_each_read_row_raises in E as [->| ->]; done.
  - done.
  - cbn. intros [= <- <-]. split_and!; try done. exists [].
    by rewrite app_nil_r.
Qed.

Lemma for_each_read_row_classify rows stocks w :
  Forall text_row rows → Forall labelled rows →
  ∃ evs, Forall2 diagnoses (List.filter is_malformed rows) evs ∧
    for_each read_row rows stocks w
    = (Done (stocks ++ seq (length (heap w)) (length (omap accepted rows))),
       World (heap w ++ omap accepted rows) (files w) (console w ++ evs)
             (now w) (typed w)).
Proof.
  intros Ht Hl. revert stocks w.
  induction Ht as [|row rows Hrow Ht IH]; intros stocks w.
  - exists []. split; [constructor|]. cbn. rewrite !app_nil_r. by destruct w.
  - apply Forall_cons in Hl as [Hlrow Hl]. specialize (IH Hl).
    pose proof (read_row_classify row stocks w Hrow Hlrow) as Hc.
    cbn [for_each List.filter]. unfold is_malformed at 1.
    destruct (classify row) as [d| |] eqn:E.
    + rewrite (omap_cons_Some accepted _ _ d) by (unfold accepted; by rewrite E).
      rewrite (bind_Done _ _ _ _ _ Hc).
      destruct (IH (stocks ++ [length (heap w)]) (with_heap (heap w ++ [d]) w))
        as (evs & Hevs & ->).
      exists evs. split; [done|]. cbn. f_equal.
      * rewrite length_app, <- app_assoc. cbn. by rewrite Nat.add_1_r.
      * by rewrite <- app_assoc.
    + rewrite (omap_cons_None accepted) by (unfold accepted; by rewrite E).
      destruct Hc as (e & He & Hc). rewrite (bind_Done _ _ _ _ _ Hc).
      destruct (IH stocks (with_console (console w ++ [e]) w)) as (evs & Hevs & ->).
      exists (e :: evs). split; [by constructor|]. cbn. by rewrite <- app_assoc.
    + rewrite (omap_cons_None accepted) by (unfold accepted; by rewrite E).
      rewrite (bind_Done _ _ _ _ _ Hc).
      destruct (IH stocks w) as (evs & Hevs & ->). by exists evs.
Qed.

(** C4, as amended.  For a readable source none of whose rows stops before
    its Stock or Sector cell, the Loader returns, in source order, exactly
    the records of the rows that [classify] accepts: text labels and two
    non-empty prices that read as numbers above zero.  It prints one
    diagnostic for each malformed row (a missing column, an empty or
    non-numeric price), in order, and nothing for a row rejected for a
    non-positive price. *)
Theorem read_csv_safe_rows (w : world) (filename : string) (rows : table) :
  files w !! filename = Some (Regular rows) →
  Forall labelled (DictReader rows) →
  ∃ evs,
    Forall2 diagnoses (List.filter is_malformed (DictReader rows)) evs ∧
    read_csv_safe filename w
    = (Done (seq (length (heap w)) (length (omap accepted (DictReader rows)))),
       World (heap w ++ omap accepted (DictReader rows)) (files w)
             (console w ++ evs) (now w) (typed w)).
Proof.
  intros Hf Hl.
  destruct (for_each_read_row_classify _ [] w (DictReader_text rows) Hl)
    as (evs & Hevs & Hrun).
  exists evs. split; [done|].
  unfold read_csv_safe, try_except, open_read. unfold mbind at 1, M_bind at 1.
  by rewrite Hf, Hrun.
Qed.

(** ** The pipeline *)

Lemma returns_ret {A} P (a : A) (Q : A → Prop) : Q a → returns P (mret a) Q.
Proof. intros HQ w HP. by exists a, w. Qed.

Lemma returns_bind {A B} P (m : M A) (f : A → M B) Q R :
  returns P m Q → (∀ a, Q a → returns P (f a) R) → returns P (m ≫= f) R.
Proof.
  intros Hm Hf w HP. destruct (Hm w HP) as (a & w1 & Hrun & HP1 & HQ).
  rewrite (bind_Done _ _ _ _ _ Hrun). by apply Hf.
Qed.

Lemma returns_lift {A} P (a : A) (Q : A → Prop) : Q a → returns P (lift (Done a)) Q.
Proof. intros HQ w HP. by exists a, w. Qed.

Lemma returns_lift_eq {A} P (a : A) : returns P (lift (Done a)) (λ x, x = a).
Proof. by apply returns_lift. Qed.

Lemma returns_print P e :
  (∀ w, P w → P (with_console (console w ++ [e]) w)) → returns P (print e) (λ _, True).
Proof. intros HP w Hw. exists tt, (with_console (console w ++ [e]) w). auto. Qed.

Lemma returns_for_each_ {A} P (body : A → M unit) xs :
  Forall (λ x, returns P (body x) (λ _, True)) xs →
  returns P (for_each_ body xs) (λ _, True).
Proof.
  induction 1 as [|x xs Hx _ IH]; cbn [for_each_].
  - by apply returns_ret.
  - eapply returns_bind; [exact Hx|]. intros _ _. exact IH.
Qed.

Lemma returns_load P obj key h d v :
  (∀ w, P w → heap w = h) → h !! obj = Some d → d !! key = Some v →
  returns P (load obj key) (λ a, a = v).
Proof.
  intros HP Hd Hv w Hw. exists v, w. split_and!; try done.
  apply (load_Some _ _ _ d); [by rewrite (HP _ Hw)|done].
Qed.

(** *** Records after the Loader and after the Calculator *)

Lemma loaded_lookup d :
  loaded d → ∃ name sector ps pe,
    d !! "Stock" = Some (VStr name) ∧ d !! "Sector" = Some (VStr sector) ∧
    d !! "PriceStart" = Some (VFloat ps) ∧ d !! "PriceEnd" = Some (VFloat pe) ∧
    d !! "Return" = None ∧
    strip name = name ∧ strip sector = sector ∧
    (0 <? ps)%float = true ∧ (0 <? pe)%float = true ∧
    dom d = list_to_set ["Stock"; "Sector"; "PriceStart"; "PriceEnd"].
Proof.
  intros (name & sector & ps & pe & -> & ? & ? & ? & ?).
  exists name, sector, ps, pe. unfold new_stock. split_and!; try done.
  all: rewrite !dom_insert_L, dom_empty_L; set_solver.
Qed.

Lemma computed_lookup d :
  computed d → ∃ name sector ps pe,
    d !! "Stock" = Some (VStr name) ∧ d !! "Sector" = Some (VStr sector) ∧
    d !! "PriceStart" = Some (VFloat ps) ∧ d !! "PriceEnd" = Some (VFloat pe) ∧
    d !! "Return" = Some (VFloat (expected_return ps pe)) ∧
    strip name = name ∧ strip sector = sector ∧
    (0 <? ps)%float = true ∧ (0 <? pe)%float = true ∧
    dom d = list_to_set fields.
Proof.
  intros (d0 & Hd0 & ->).
  destruct (loaded_lookup _ Hd0)
    as (name & sector & ps & pe & H1 & H2 & H3 & H4 & H5 & ? & ? & ? & ? & Hdom).
  exists name, sector, ps, pe. unfold with_return, price. rewrite H3, H4.
  split_and!; try done; try (by rewrite lookup_insert_ne).
  - by rewrite lookup_insert_eq.
  - rewrite dom_insert_L, Hdom. unfold fields. set_solver.
Qed.

Lemma map_each_compute_return w pre ds :
  heap w = pre ++ ds → Forall loaded ds →
  map_each compute_return (seq (length pre) (length ds)) w
  = (Done (seq (length pre) (length ds)), with_heap (pre ++ (with_return <$> ds)) w).
Proof.
  intros Hh Hds. revert w pre Hh.
  induction Hds as [|d ds Hd _ IH]; intros w pre Hh.
  - cbn. rewrite app_nil_r in *. unfold mret, M_ret. f_equal.
    destruct w; cbn in *; by subst.
  - cbn [length seq map_each fmap list_fmap].
    destruct (loaded_lookup _ Hd)
      as (name & sector & ps & pe & H1 & H2 & H3 & H4 & _ & _ & _ & Hps & _).
    assert (Hl : heap w !! length pre = Some d).
    { rewrite Hh. by apply list_lookup_middle. }
    pose proof (compute_return_floats _ _ _ _ _ Hl H3 H4) as Hrun.
    rewrite (positive_nonzero _ Hps) in Hrun.
    rewrite (bind_Done _ _ _ _ _ Hrun).
    set (w1 := with_heap _ w).
    assert (Hh1 : heap w1 = (pre ++ [with_return d]) ++ ds).
    { subst w1. cbn. rewrite Hh, <- app_assoc. cbn.
      rewrite (insert_app_r_alt pre (d :: ds) (length pre)) by done.
      rewrite Nat.sub_diag. cbn. unfold with_return, price. by rewrite H3, H4. }
    specialize (IH w1 (pre ++ [with_return d]) Hh1).
    rewrite length_app, Nat.add_1_r in IH. cbn [length] in IH.
    rewrite (bind_Done _ _ _ _ _ IH). unfold mret, M_ret. f_equal.
    subst w1. unfold with_heap; cbn. by rewrite <- app_assoc.
Qed.

Lemma max_from_returns (P : string * entry → Prop) best k items :
  P best → Forall P items → Forall (λ p, is_Some (avg_return p.2)) items →
  ∃ b, max_from best k items = Done b ∧ P b.
Proof.
  intros Hb Hi Ha. revert best k Hb.
  induction Hi as [|it items Hit _ IH]; intros best k Hb; cbn [max_from]; [eauto|].
  apply Forall_cons in Ha as [[a Ha] Hall]. unfold avg_of. rewrite Ha.
  cbn [mbind outcome_bind]. destruct (k <? a)%float; eauto.
Qed.

Lemma max_by_avg_returns (m : summary) :
  m ≠ [] → Forall (λ p, is_Some (avg_return p.2)) m →
  ∃ b, max_by_avg m = Done b ∧ is_Some (avg_return b.2).
Proof.
  destruct m as [|it m]; [done|]. intros _ Ha. cbn [max_by_avg].
  pose proof Ha as [[a Hit] Hm]%Forall_cons. unfold avg_of at 1. rewrite Hit.
  cbn [mbind outcome_bind]. by apply max_from_returns.
Qed.

Lemma print_report_returns h data (m : summary) :
  all_computed h data → m ≠ [] → Forall (λ p, is_Some (avg_return p.2)) m →
  returns (λ w, heap w = h) (print_report data m) (λ _, True).
Proof.
  intros Hd Hm Ha. unfold print_report.
  assert (Hpr : ∀ e, returns (λ w, heap w = h) (print e) (λ _, True))
    by (intros e; by apply returns_print).
  assert (Hld : ∀ l d k v, h !! l = Some d → d !! k = Some v →
            returns (λ w, heap w = h) (load l k) (λ a, a = v))
    by (intros; by eapply returns_load).
  repeat (eapply returns_bind; [apply Hpr|intros _ _]).
  eapply returns_bind.
  { apply returns_for_each_. eapply Forall_impl; [exact Hd|].
    intros l (d & Hl & Hc). cbn beta.
    destruct (computed_lookup _ Hc)
      as (name & sector & ps & pe & H1 & H2 & H3 & H4 & H5 & _).
    eapply returns_bind; [eapply Hld; eassumption|intros ? ->].
    eapply returns_bind; [apply (returns_lift_eq _ (VStr name))|intros ? ->].
    eapply returns_bind; [eapply Hld; eassumption|intros ? ->].
    eapply returns_bind; [apply (returns_lift_eq _ (VStr sector))|intros ? ->].
    eapply returns_bind; [eapply Hld; eassumption|intros ? ->].
    eapply returns_bind; [apply (returns_lift_eq _ (VFloat ps))|intros ? ->].
    eapply returns_bind; [eapply Hld; eassumption|intros ? ->].
    eapply returns_bind; [apply (returns_lift_eq _ (VFloat pe))|intros ? ->].
    eapply returns_bind; [eapply Hld; eassumption|intros ? ->].
    eapply returns_bind; [apply (returns_lift_eq _ (VFloat (expected_return ps pe)))|intros ? ->].
    apply Hpr. }
  intros _ _.
  repeat (eapply returns_bind; [apply Hpr|intros _ _]).
  eapply returns_bind.
  { apply returns_for_each_. apply Forall_take. eapply Forall_impl; [exact Hd|].
    intros l (d & Hl & Hc). cbn beta.
    destruct (computed_lookup _ Hc)
      as (name & sector & ps & pe & H1 & H2 & H3 & H4 & H5 & _).
    eapply returns_bind; [eapply Hld; eassumption|intros ? ->].
    eapply returns_bind; [apply (returns_lift_eq _ (VStr name))|intros ? ->].
    eapply returns_bind; [eapply Hld; eassumption|intros ? ->].
    apply Hpr. }
  intros _ _.
  repeat (eapply returns_bind; [apply Hpr|intros _ _]).
  destruct (max_by_avg_returns m Hm Ha) as (best & -> & [a Hbest]).
  eapply returns_bind; [apply (returns_lift_eq _ best)|intros ? ->].
  eapply returns_bind.
  { apply returns_for_each_. eapply Forall_impl; [exact Ha|].
    intros [sec e] [a' Ha']. cbn [fst snd] in *. unfold avg_of. rewrite Ha'.
    eapply returns_bind; [apply (returns_lift_eq _ a')|intros ? ->].
    apply Hpr. }
  intros _ _. unfold avg_of. rewrite Hbest.
  eapply returns_bind; [apply (returns_lift_eq _ a)|intros ? ->].
  apply Hpr.
Qed.

Lemma dict_to_list_computed d : computed d → dict_to_list d = Done (export_row d).
Proof.
  intros (? & ? & ? & ? & _ & _ & _ & _ & _ & _ & _ & _ & _ & Hdom)%computed_lookup.
  unfold dict_to_list. by rewrite bool_decide_eq_true_2 by by rewrite Hdom.
Qed.

Lemma export_rows w fn t data ds :
  files w !! fn = Some (Regular t) →
  Forall2 (λ l d, heap w !! l = Some d ∧ computed d) data ds →
  for_each_ (λ s, d ← deref s; row ← lift (dict_to_list d); write_row fn row) data w
  = (Done tt, with_files (<[fn := Regular (t ++ map export_row ds)]> (files w)) w).
Proof.
  intros Hf Hd. revert w t ds Hf Hd.
  induction data as [|l data IH]; intros w t ds Hf Hd.
  - apply Forall2_nil_inv_l in Hd as ->. cbn. rewrite app_nil_r, insert_id by done.
    unfold mret, M_ret. by destruct w.
  - apply Forall2_cons_inv_l in Hd as (d & ds' & [Hl Hc] & Hd & ->).
    cbn [for_each_ map]. unfold mbind at 1, M_bind at 1.
    unfold mbind at 1, M_bind at 1, deref at 1. rewrite Hl.
    unfold mbind at 1, M_bind at 1, lift at 1. rewrite (dict_to_list_computed _ Hc).
    unfold write_row at 1. rewrite Hf.
    rewrite (IH _ (t ++ [export_row d]) ds').
    + cbn. rewrite insert_insert_eq, <- app_assoc. done.
    + cbn. by rewrite lookup_insert_eq.
    + done.
Qed.

Lemma export_csv_saved w data ds :
  files w !! report_name w ≠ Some Denied →
  Forall2 (λ l d, heap w !! l = Some d ∧ computed d) data ds →
  export_csv data w
  = (Done tt,
     World (heap w)
           (<[report_name w := Regular (fields :: map export_row ds)]> (files w))
           (console w ++ [Saved (report_name w)]) (now w) (typed w)).
Proof.
  intros Hf Hd. unfold export_csv. unfold mbind at 1, M_bind at 1.
  fold (report_name w). set (fn := report_name w) in *.
  unfold try_except.
  unfold mbind at 1, M_bind at 1, open_write at 1.
  set (w1 := with_files (<[fn := Regular []]> (files w)) w).
  assert (Hopen : match files w !! fn with
                  | Some Denied => (Raise (PermissionError fn), w)
                  | _ => (@Done unit tt, w1)
                  end = (Done tt, w1)).
  { destruct (files w !! fn) as [[]|]; done. }
  rewrite Hopen.
  unfold mbind at 1, M_bind at 1, write_row at 1.
  assert (Hf1 : files w1 !! fn = Some (Regular [])) by apply lookup_insert_eq.
  rewrite Hf1.
  set (w2 := with_files _ w1).
  assert (Hf2 : files w2 !! fn = Some (Regular ([] ++ [fields])))
    by apply lookup_insert_eq.
  unfold mbind at 1, M_bind at 1.
  rewrite (export_rows w2 fn _ data ds Hf2 Hd).
  cbn. rewrite !insert_insert_eq. done.
Qed.

Lemma export_csv_denied w data :
  files w !! report_name w = Some Denied →
  export_csv data w
  = (Done tt, with_console (console w ++ [ErrorSaving (report_name w)]) w).
Proof.
  intros Hf. unfold export_csv. unfold mbind at 1, M_bind at 1.
  fold (report_name w). unfold try_except.
  unfold mbind at 1, M_bind at 1, open_write at 1. by rewrite Hf.
Qed.

Lemma computed_heap pre ds :
  Forall loaded ds →
  Forall2 (λ l d, (pre ++ (with_return <$> ds)) !! l = Some d ∧ computed d)
          (seq (length pre) (length ds)) (with_return <$> ds).
Proof.
  intros Hds. revert pre. induction Hds as [|d ds Hd _ IH]; intros pre; [constructor|].
  cbn [length seq fmap list_fmap]. constructor.
  - split; [by apply list_lookup_middle|by exists d].
  - specialize (IH (pre ++ [with_return d])).
    rewrite length_app, Nat.add_1_r, <- app_assoc in IH. exact IH.
Qed.

Lemma all_computed_Forall2 h data ds :
  Forall2 (λ l d, h !! l = Some d ∧ computed d) data ds → all_computed h data.
Proof.
  induction 1 as [|l d data ds [? ?] _ IH]; constructor; eauto.
Qed.

Lemma computed_aggregable h l d :
  h !! l = Some d → computed d → aggregable h l.
Proof.
  intros Hl (name & sector & ps & pe & _ & H2 & _ & _ & H5 & _)%computed_lookup.
  exists sector, (expected_return ps pe).
  unfold sector_of, return_of, field. rewrite Hl. cbn. by rewrite H2, H5.
Qed.

(** Once the Loader has returned: with no record the program prints the
    diagnostic and raises [SystemExit] at once, with exit status 0, leaving
    the world as the Loader left it but for that one line; with at least one
    record it runs to completion. *)
Lemma main_exits_only_on_empty (w : world) (data : list loc) (w1 : world) :
  read_csv_safe (strip (typed w))
    (with_console (console w ++ [Prompt "Enter CSV filename: "]) w)
  = (Done data, w1) →
  match data with
  | [] =>
      main w = (Raise (SystemExit None), with_console (console w1 ++ [NoValidData]) w1)
      ∧ exit_status (main w).1 = 0%Z
  | _ :: _ => (main w).1 = Done tt
  end.
Proof.
  intros Hload. destruct data as [|l0 data0].
  { assert (main w = (Raise (SystemExit None),
                      with_console (console w1 ++ [NoValidData]) w1)) as E.
    { unfold main. unfold mbind at 1, M_bind at 1, input at 1.
      unfold mbind at 1, M_bind at 1. by rewrite Hload. }
    by rewrite E. }
  unfold main. unfold mbind at 1, M_bind at 1, input at 1.
  unfold mbind at 1, M_bind at 1. rewrite Hload.
  set (data := l0 :: data0) in *.
  apply read_csv_safe_post in Hload as (Hf & Hn & Ht & ds & Hds & Hdata & Hh).
  set (pre := heap (with_console _ w)) in *.
  pose proof (map_each_compute_return w1 pre ds Hh Hds) as Hcomp.
  rewrite <- Hdata in Hcomp.
  rewrite (bind_Done _ _ _ _ _ Hcomp).
  set (w2 := with_heap _ w1).
  pose proof (computed_heap pre ds Hds) as Hall2. rewrite <- Hdata in Hall2.
  pose proof (all_computed_Forall2 (heap w2) _ _ Hall2) as Hall.
  assert (Hret : Forall (λ l, is_Some (return_of (heap w2) l)) data).
  { eapply Forall_impl; [exact Hall|]. intros l (d & Hl & Hc).
    destruct (computed_aggregable _ _ _ Hl Hc) as (? & r & _ & Hr). by exists r. }
  rewrite (bind_Done _ _ _ _ _ (process_all_floats w2 data Hret)).
  set (data' := ranked _ _).
  assert (Hperm : data' ≡ₚ data) by apply ranked_perm.
  assert (Hall' : all_computed (heap w2) data').
  { unfold all_computed. by rewrite Hperm. }
  assert (Hagg : Forall (aggregable (heap w2)) data').
  { eapply Forall_impl; [exact Hall'|]. intros l (d & Hl & Hc).
    by eapply computed_aggregable. }
  rewrite (bind_Done _ _ _ _ _ (aggregrate_by_sector_run w2 data' Hagg)).
  set (m0 := foldl fold_pair [] _). set (m := _ <$> m0).
  assert (Hne : m ≠ []).
  { assert (l0 ∈ data') as Hl0 by (rewrite Hperm; by left).
    assert (aggregable (heap w2) l0) as (c & r & Hc & _)
      by (rewrite Forall_forall in Hagg; auto).
    assert (returns_in (heap w2) c data' ≠ []) as Hrs
      by (apply returns_in_nonempty; eauto).
    destruct (folded_foldl (omap (pair_of (heap w2)) data')) as [_ Hget].
    specialize (Hget c). rewrite (returns_of_pairs _ _ _ Hagg) in Hget.
    fold m0 in Hget. subst m. destruct m0; [|done].
    by destruct (returns_in (heap w2) c data'). }
  assert (Havg : Forall (λ p : string * entry, is_Some (avg_return p.2)) m).
  { apply Forall_forall. intros [c e] ([c0 e0] & [= -> ->] & _)%list_elem_of_fmap.
    by eexists. }
  destruct (print_report_returns (heap w2) data' m Hall' Hne Havg w2 eq_refl)
    as ([] & w3 & Hrep & Hh3 & _).
  rewrite (bind_Done _ _ _ _ _ Hrep).
  assert (files w3 !! report_name w3 = Some Denied
          ∨ files w3 !! report_name w3 ≠ Some Denied) as [Hden|Hok]
    by (destruct (files w3 !! report_name w3) as [[]|]; auto).
  - by rewrite (export_csv_denied w3 data' Hden).
  - assert (∃ ds', Forall2 (λ l d, heap w3 !! l = Some d ∧ computed d) data' ds')
      as [ds' Hds'].
    { rewrite Hh3. clear -Hall'. induction Hall' as [|l ls (d & Hl & Hc) _ [ds' IH]].
      - by exists [].
      - exists (d :: ds'). by constructor. }
    by rewrite (export_csv_saved w3 data' ds' Hok Hds').
Qed.

(** ** Export and reload *)

Lemma DictReader_export ds :
  DictReader (fields :: map export_row ds)
  = map (λ d, zip_row fields (export_row d) ∅) ds.
Proof.
  assert (Hf : filter (λ row : list string, row ≠ []) (map export_row ds)
               = map export_row ds).
  { induction ds as [|d ds IH]; [done|].
    cbn [map]. rewrite filter_cons_True by done. by rewrite IH. }
  unfold DictReader. rewrite Hf. apply map_map.
Qed.

Lemma export_row_computed d name sector ps pe r :
  d !! "Stock" = Some (VStr name) → d !! "Sector" = Some (VStr sector) →
  d !! "PriceStart" = Some (VFloat ps) → d !! "PriceEnd" = Some (VFloat pe) →
  d !! "Return" = Some (VFloat r) →
  export_row d = [name; sector; str_of_float ps; str_of_float pe; str_of_float r].
Proof.
  intros H1 H2 H3 H4 H5. unfold export_row, fields. cbn [map].
  by rewrite H1, H2, H3, H4, H5.
Qed.

Lemma reload_row d0 :
  loaded d0 → prices_reparsable d0 →
  let row := zip_row fields (export_row (with_return d0)) ∅ in
  labelled row ∧ accepted row = Some d0.
Proof.
  intros (name & sector & ps & pe & -> & Hn & Hs & Hps & Hpe) [[Hr1 He1] [Hr2 He2]].
  change (price _ "PriceStart") with ps in Hr1, He1.
  change (price _ "PriceEnd") with pe in Hr2, He2.
  cbn zeta.
  rewrite (export_row_computed _ name sector ps pe (expected_return ps pe)) by done.
  set (row := zip_row fields _ ∅).
  assert (row !! "Stock" = Some (VStr name)) as R1 by done.
  assert (row !! "Sector" = Some (VStr sector)) as R2 by done.
  assert (row !! "PriceStart" = Some (VStr (str_of_float ps))) as R3 by done.
  assert (row !! "PriceEnd" = Some (VStr (str_of_float pe))) as R4 by done.
  clearbody row. split.
  - split; by rewrite ?R1, ?R2.
  - unfold accepted, classify, cell. rewrite R1, R2, R3, R4.
    apply String.eqb_neq in He1 as ->. apply String.eqb_neq in He2 as ->.
    cbn [orb]. rewrite Hr1, Hr2, Hps, Hpe. cbn [andb]. by rewrite Hn, Hs.
Qed.

Lemma reload_rows ds0 :
  Forall loaded ds0 → Forall prices_reparsable ds0 →
  let rows := map (λ d, zip_row fields (export_row d) ∅) (with_return <$> ds0) in
  Forall labelled rows ∧ omap accepted rows = ds0.
Proof.
  intros Hl Hp. cbn zeta. induction Hl as [|d0 ds0 Hd0 _ IH]; [by split|].
  apply Forall_cons in Hp as [Hp0 Hp].
  destruct (IH Hp) as [IH1 IH2], (reload_row d0 Hd0 Hp0) as [Hlab Hacc].
  cbn [fmap list_fmap map]. split; [by constructor|].
  rewrite (omap_cons_Some _ _ _ _ Hacc). by f_equal.
Qed.

Lemma with_return_fields d0 k :
  k ≠ "Return" → with_return d0 !! k = d0 !! k.
Proof. intros Hk. unfold with_return. by rewrite lookup_insert_ne. Qed.

Lemma map_seq_eq {A B} (f : nat → B) (g : A → B) a (xs : list A) :
  (∀ i x, xs !! i = Some x → f (a + i) = g x) →
  map f (seq a (length xs)) = map g xs.
Proof.
  revert a. induction xs as [|x xs IH]; intros a Hfg; [done|].
  cbn [length seq map]. f_equal.
  - rewrite <- (Hfg 0 x) by done. by rewrite Nat.add_0_r.
  - apply IH. intros i y Hy. rewrite <- (Hfg (S i) y) by done.
    by rewrite Nat.add_succ_r.
Qed.

Lemma field_app_r pre ds i k :
  field (pre ++ ds) (length pre + i) k = ds !! i ≫= (.!! k).
Proof. unfold field. by rewrite lookup_app_r, Nat.add_sub' by lia. Qed.

(** C8.  Exporting computed records and loading the exported file again
    yields records with the same name, category and prices, in the same
    order, and computing their returns again gives the returns exported;
    provided the text written for each price reads back as that price. *)
Theorem export_then_load (w : world) (data : list loc) (ds0 : list dict) :
  Forall2 (λ l d0, heap w !! l = Some (with_return d0)) data ds0 →
  Forall loaded ds0 → Forall prices_reparsable ds0 →
  files w !! report_name w ≠ Some Denied →
  ∃ w1 data' w2 w3,
    export_csv data w = (Done tt, w1) ∧
    read_csv_safe (report_name w) w1 = (Done data', w2) ∧
    map (tuple_of (heap w2)) data' = map (tuple_of (heap w)) data ∧
    map_each compute_return data' w2 = (Done data', w3) ∧
    map (λ l, field (heap w3) l "Return") data'
    = map (λ l, field (heap w) l "Return") data.
Proof.
  intros Hdata Hl Hp Hf.
  assert (Hds : Forall2 (λ l d, heap w !! l = Some d ∧ computed d)
                        data (with_return <$> ds0)).
  { clear Hp Hf. induction Hdata as [|l d0 data ds0 Hd _ IH]; [constructor|].
    apply Forall_cons in Hl as [Hl0 Hl]. cbn. constructor; [|by apply IH].
    split; [done|by exists d0]. }
  pose proof (export_csv_saved w data _ Hf Hds) as Hexp.
  set (w1 := World _ _ _ _ _) in Hexp.
  destruct (reload_rows ds0 Hl Hp) as [Hlab Hacc].
  rewrite <- DictReader_export in Hlab, Hacc.
  assert (Hfile : files w1 !! report_name w
                  = Some (Regular (fields :: map export_row (with_return <$> ds0))))
    by apply lookup_insert_eq.
  destruct (for_each_read_row_classify _ [] w1 (DictReader_text _) Hlab)
    as (evs & _ & Hrun).
  rewrite Hacc in Hrun. cbn [app] in Hrun.
  assert (Hread : read_csv_safe (report_name w) w1
                  = (Done (seq (length (heap w1)) (length ds0)),
                     World (heap w1 ++ ds0) (files w1) (console w1 ++ evs)
                           (now w1) (typed w1))).
  { unfold read_csv_safe, try_except, open_read. unfold mbind at 1, M_bind at 1.
    by rewrite Hfile, Hrun. } set (w2 := World _ _ _ _ _) in Hread.
  set (data' := seq (length (heap w1)) (length ds0)) in *.
  pose proof (map_each_compute_return w2 (heap w) ds0 eq_refl Hl) as Hcomp.
  set (w3 := with_heap _ w2) in Hcomp.
  exists w1, data', w2, w3. split_and!; try done.
  - subst data'. cbn [heap w1 w2].
    rewrite <- (Forall2_length _ _ _ Hdata). apply map_seq_eq.
    intros i l Hi.
    destruct (Forall2_lookup_l _ _ _ _ _ Hdata Hi) as (d0 & Hd0 & Hl0).
    unfold tuple_of. rewrite !field_app_r, Hd0. unfold field. rewrite Hl0. cbn.
    by rewrite !with_return_fields.
  - subst data'. cbn [heap w1 w2 w3 with_heap].
    rewrite <- (Forall2_length _ _ _ Hdata). apply map_seq_eq.
    intros i l Hi.
    destruct (Forall2_lookup_l _ _ _ _ _ Hdata Hi) as (d0 & Hd0 & Hl0).
    rewrite field_app_r, list_lookup_fmap, Hd0. unfold field. by rewrite Hl0.
Qed.

(** ** Ownership of records *)

Lemma compute_return_returns_argument stock w a :
  (compute_return stock w).1 = Done a → a = stock.
Proof.
  unfold compute_return, mbind, M_bind, load, lift, store, mret, M_ret.
  intros Hr. repeat (case_match; simplify_eq/=); done.
Qed.

Lemma map_each_snoc_world {A B} (f : A → M B) l x w ys w' :
  map_each f l w = (Done ys, w') → (map_each f (l ++ [x]) w).2 = (f x w').2.
Proof.
  revert w ys. induction l as [|a l IH]; intros w ys.
  - cbn [map_each app]. unfold mret, M_ret. intros [= <- <-].
    unfold mbind, M_bind. by destruct (f x w) as [[]?].
  - cbn [map_each app]. unfold mbind, M_bind.
    destruct (f a w) as [[b|e] w0]; [|done].
    destruct (map_each f l w0) as [[ys'|e] w''] eqn:E; [|done].
    intros [= <- <-]. specialize (IH w0 ys' E).
    by destruct (map_each f (l ++ [x]) w0) as [[]?].
Qed.

Lemma map_each_compute_return_app w pre ds post :
  heap w = pre ++ ds ++ post → Forall loaded ds →
  map_each compute_return (seq (length pre) (length ds)) w
  = (Done (seq (length pre) (length ds)),
     with_heap (pre ++ (with_return <$> ds) ++ post) w).
Proof.
  intros Hh Hds. revert w pre Hh.
  induction Hds as [|d ds Hd _ IH]; intros w pre Hh.
  - cbn in *. unfold mret, M_ret. f_equal. destruct w; cbn in *; by subst.
  - cbn [length seq map_each fmap list_fmap].
    destruct (loaded_lookup _ Hd)
      as (name & sector & ps & pe & H1 & H2 & H3 & H4 & _ & _ & _ & Hps & _).
    assert (Hl : heap w !! length pre = Some d).
    { rewrite Hh. by apply list_lookup_middle. }
    pose proof (compute_return_floats _ _ _ _ _ Hl H3 H4) as Hrun.
    rewrite (positive_nonzero _ Hps) in Hrun.
    rewrite (bind_Done _ _ _ _ _ Hrun).
    set (w1 := with_heap _ w).
    assert (Hh1 : heap w1 = (pre ++ [with_return d]) ++ ds ++ post).
    { subst w1. cbn. rewrite Hh, <- app_assoc. cbn.
      rewrite (insert_app_r_alt pre (d :: ds ++ post) (length pre)) by done.
      rewrite Nat.sub_diag. cbn. unfold with_return, price. by rewrite H3, H4. }
    specialize (IH w1 (pre ++ [with_return d]) Hh1).
    rewrite length_app, Nat.add_1_r in IH. cbn [length] in IH.
    rewrite (bind_Done _ _ _ _ _ IH). unfold mret, M_ret. f_equal.
    subst w1. unfold with_heap; cbn. by rewrite <- app_assoc.
Qed.

(** After [i] steps on the loaded records, the first [i] of them carry their
    return and the others are as loaded. *)
Lemma calculated_steps w pre ds i :
  heap w = pre ++ ds → Forall loaded ds → i ≤ length ds →
  map_each compute_return (take i (seq (length pre) (length ds))) w
  = (Done (take i (seq (length pre) (length ds))),
     with_heap (pre ++ (with_return <$> take i ds) ++ drop i ds) w).
Proof.
  intros Hh Hds Hi. rewrite take_seq, Nat.min_l by done.
  pose proof (map_each_compute_return_app w pre (take i ds) (drop i ds)) as Hm.
  rewrite take_drop, length_take_le in Hm by done.
  apply Hm; [done|by apply Forall_take].
Qed.

Lemma lookup_partly_mapped {A} (f : A → A) (pre l : list A) i j x :
  j ≤ length l → l !! i = Some x →
  (pre ++ (f <$> take j l) ++ drop j l) !! (length pre + i)
  = Some (if decide (i < j) then f x else x).
Proof.
  intros Hj Hx. rewrite lookup_app_r by lia.
  replace (length pre + i - length pre) with i by lia.
  case_decide as Hij.
  - rewrite lookup_app_l by (rewrite length_fmap, length_take_le; lia).
    by rewrite list_lookup_fmap, lookup_take_lt, Hx by done.
  - rewrite lookup_app_r by (rewrite length_fmap, length_take_le; lia).
    rewrite length_fmap, length_take_le, lookup_drop by done.
    by replace (j + (i - j)) with i by lia.
Qed.

Lemma main_heap_after_calculator w data w1 w2 :
  read_csv_safe (strip (typed w))
    (with_console (console w ++ [Prompt "Enter CSV filename: "]) w)
  = (Done data, w1) →
  map_each compute_return data w1 = (Done data, w2) →
  heap (main w).2 = heap w2.
Proof.
  intros Hload Hcomp. unfold main. unfold mbind at 1, M_bind at 1, input at 1.
  unfold mbind at 1, M_bind at 1. rewrite Hload.
  destruct data as [|l0 data0].
  - cbn in Hcomp. unfold mret, M_ret in Hcomp. by injection Hcomp as <-.
  - rewrite (bind_Done _ _ _ _ _ Hcomp). cbv beta.
    match goal with |- heap (?m w2).2 = _ => assert (Hs : heap_stable m) end.
    { apply heap_stable_bind; [apply process_all_heap|]. intros d1.
      apply heap_stable_bind; [apply aggregrate_by_sector_heap|]. intros m.
      apply heap_stable_bind; [apply print_report_heap|]. intros _.
      apply export_csv_heap. }
    apply Hs.
Qed.

(** C7.  In a run in which the Loader returns, it hands out each record
    once; the Calculator's loop starts in the world the Loader left and
    reaches every record as it was loaded, without a return; its step for a
    record returns that record and changes nothing in the world but that
    record, which gets its ["Return"] key; no other step of the loop changes
    that record; and the records at the end of the run are those the
    Calculator left.  In any world
    [compute_return] returns the record it was given and changes nothing but
    the ["Return"] key of that record, the Loader returns distinct records,
    and Ranker, Aggregator, Reporter and Exporter change no record. *)
Theorem records_mutated_by_calculator_only (w : world) (data : list loc) (w1 : world) :
  read_csv_safe (strip (typed w))
    (with_console (console w ++ [Prompt "Enter CSV filename: "]) w)
  = (Done data, w1) →
  NoDup data ∧
  calculated 0 data w1 = w1 ∧
  (∀ i l, data !! i = Some l →
     ∃ d, heap w1 !! l = Some d ∧ d !! "Return" = None ∧
          heap (calculated i data w1) !! l = Some d ∧
          compute_return l (calculated i data w1)
          = (Done l, with_heap (<[l := with_return d]> (heap (calculated i data w1)))
                       (calculated i data w1)) ∧
          calculated (S i) data w1 = (compute_return l (calculated i data w1)).2 ∧
          ∀ j, j < length data → j ≠ i →
               heap (calculated (S j) data w1) !! l = heap (calculated j data w1) !! l) ∧
  map_each compute_return data w1 = (Done data, calculated (length data) data w1) ∧
  heap (main w).2 = heap (calculated (length data) data w1) ∧
  (∀ stock w,
     only_return_changed stock w (compute_return stock w).2 ∧
     ∀ a, (compute_return stock w).1 = Done a → a = stock) ∧
  (∀ filename w data w', read_csv_safe filename w = (Done data, w') → NoDup data) ∧
  (∀ data, heap_stable (process_all data)) ∧
  (∀ data, heap_stable (aggregrate_by_sector data)) ∧
  (∀ data m, heap_stable (print_report data m)) ∧
  (∀ data, heap_stable (export_csv data)).
Proof.
  intros Hload.
  pose proof Hload as (_ & _ & _ & ds & Hds & Hdata & Hh)%read_csv_safe_post.
  set (pre := heap (with_console _ w)) in *.
  assert (Hlen : length data = length ds) by (by rewrite Hdata, length_seq).
  assert (Hrun : ∀ i, i ≤ length ds →
            map_each compute_return (take i data) w1
            = (Done (take i data),
               with_heap (pre ++ (with_return <$> take i ds) ++ drop i ds) w1)).
  { intros i Hi. rewrite Hdata. by apply calculated_steps. }
  assert (Hc : ∀ i, i ≤ length ds →
            calculated i data w1
            = with_heap (pre ++ (with_return <$> take i ds) ++ drop i ds) w1).
  { intros i Hi. unfold calculated. by rewrite Hrun. }
  assert (Hall : map_each compute_return data w1
                 = (Done data, calculated (length data) data w1)).
  { unfold calculated. rewrite take_ge by done.
    pose proof (Hrun (length ds) (le_n _)) as E.
    rewrite take_ge in E by lia. by rewrite E. }
  split_and!.
  - rewrite Hdata. apply NoDup_seq.
  - done.
  - intros i l Hil. pose proof Hil as Hil'.
    rewrite Hdata in Hil'. apply lookup_seq in Hil' as [-> Hi].
    destruct (lookup_lt_is_Some_2 ds i Hi) as [d Hd]. exists d.
    pose proof (proj1 (Forall_lookup _ _) Hds i d Hd) as Hld.
    destruct (loaded_lookup _ Hld)
      as (name & sector & ps & pe & _ & _ & H3 & H4 & H5 & _ & _ & Hps & _).
    assert (Hbefore : heap (calculated i data w1) !! (length pre + i) = Some d).
    { rewrite Hc by lia. cbn [heap with_heap].
      rewrite (lookup_partly_mapped with_return pre ds i i d) by (done || lia).
      by rewrite decide_False by lia. }
    split_and!.
    + rewrite Hh, lookup_app_r by lia.
      by replace (length pre + i - length pre) with i by lia.
    + done.
    + done.
    + rewrite (compute_return_floats _ _ _ _ _ Hbefore H3 H4).
      rewrite (positive_nonzero _ Hps). unfold with_return, price.
      by rewrite H3, H4.
    + unfold calculated at 1. rewrite (take_S_r _ _ _ Hil).
      apply (map_each_snoc_world _ _ _ _ (take i data)).
      unfold calculated. rewrite Hrun by lia. reflexivity.
    + intros j Hj Hne. rewrite !Hc by lia. cbn [heap with_heap].
      rewrite !(lookup_partly_mapped with_return pre ds i _ d) by (done || lia).
      repeat case_decide; (done || lia).
  - done.
  - by apply (main_heap_after_calculator w data w1).
  - intros stock w0. split; [apply compute_return_frame|].
    apply compute_return_returns_argument.
  - intros filename w0 data0 w' (_ & _ & _ & ds0 & _ & -> & _)%read_csv_safe_post.
    apply NoDup_seq.
  - apply process_all_heap.
  - apply aggregrate_by_sector_heap.
  - apply print_report_heap.
  - apply export_csv_heap.
Qed.

(** C9, as amended.  Every record the Loader returns has text for name and
    category, each free of surrounding white space, and two prices above
    zero; the name may be empty. *)
Theorem read_csv_safe_invariant (filename : string) (w : world)
    (data : list loc) (w' : world) :
  read_csv_safe filename w = (Done data, w') →
  Forall (λ l, ∃ d, heap w' !! l = Some d ∧ loaded d) data.
Proof.
  intros (_ & _ & _ & ds & Hds & -> & ->)%read_csv_safe_post.
  apply Forall_forall. intros l [i [-> Hi]%lookup_seq]%list_elem_of_lookup_1.
  destruct (lookup_lt_is_Some_2 ds i Hi) as [d Hd].
  exists d. split.
  - by rewrite lookup_app_r, Nat.add_sub' by lia.
  - rewrite Forall_forall in Hds. apply Hds. by eapply list_elem_of_lookup_2.
Qed.

End Properties.

(** * Further properties of the functions *)

(** ** Floats and worlds *)

Lemma with_heap_with_heap h h' w : with_heap h (with_heap h' w) = with_heap h w.
Proof. done. Qed.

Lemma SFcompare_trans_lt f g h c1 :
  SFcompare f g = Some c1 → c1 ≠ Gt → SFcompare g h = Some Lt →
  SFcompare f h = Some Lt.
Proof.
  intros H1 N1 H2; sf_cases; try done;
    injection H1 as <-; try done; apply (inj Some) in H2; cmp_cases.
Qed.

Lemma leb_ltb_trans x y z :
  (x <=? y)%float = true → (y <? z)%float = true → (x <? z)%float = true.
Proof.
  rewrite FloatAxioms.leb_spec, !FloatAxioms.ltb_spec. unfold SFleb, SFltb.
  intros H1 H2.
  destruct (SFcompare (Prim2SF x) (Prim2SF y)) as [c1|] eqn:E1; [|done].
  destruct (SFcompare (Prim2SF y) (Prim2SF z)) as [[]|] eqn:E2; try done.
  by rewrite (SFcompare_trans_lt _ _ _ c1 E1 ltac:(by destruct c1) E2).
Qed.

(** ** Frames *)

#[local] Instance untouched_preorder : PreOrder untouched.
Proof. split; [done|]. unfold untouched. by intros w1 w2 w3 -> ->. Qed.

#[local] Instance only_records_preorder : PreOrder only_records.
Proof.
  split; [done|]. unfold only_records.
  intros w1 w2 w3 (? & ? & ? & ?) (? & ? & ? & ?). split_and!; congruence.
Qed.

#[local] Instance only_printed_preorder : PreOrder only_printed.
Proof.
  split.
  - intros w. exists []. rewrite app_nil_r. by destruct w.
  - intros w1 w2 w3 [e1 ->] [e2 ->]. exists (e1 ++ e2). cbn.
    by rewrite app_assoc.
Qed.

#[local] Instance only_read_preorder : PreOrder only_read.
Proof.
  split; [done|]. unfold only_read.
  intros w1 w2 w3 (? & ? & ? & ? & ?) (? & ? & ? & ? & ?).
  split_and!; try congruence; by etrans.
Qed.

#[local] Instance only_written_preorder fn : PreOrder (only_written fn).
Proof.
  split; [done|]. unfold only_written.
  intros w1 w2 w3 (? & ? & ? & ? & Hf1) (? & ? & ? & ? & Hf2).
  split_and!; try congruence; [by etrans|].
  intros f Hf. by rewrite Hf2, Hf1.
Qed.

#[local] Instance only_report_written_preorder : PreOrder only_report_written.
Proof.
  split; [done|]. unfold only_report_written, report_name.
  intros w1 w2 w3 (Hn & ? & ? & Hf1) (? & ? & ? & Hf2).
  split_and!; try congruence; [by etrans|].
  intros f Hf. rewrite Hf2, Hf1; [done|done|]. by rewrite Hn.
Qed.

Section Frames.
Context (R : relation world) `{!PreOrder R}.

Lemma preserves_ret {A} (a : A) : preserves R (mret a).
Proof. intros w. reflexivity. Qed.

Lemma preserves_lift {A} (o : outcome A) : preserves R (lift o).
Proof. intros w. reflexivity. Qed.

Lemma preserves_raise {A} e : preserves R (raise (A:=A) e).
Proof. intros w. reflexivity. Qed.

Lemma preserves_bind {A B} (m : M A) (f : A → M B) :
  preserves R m → (∀ a, preserves R (f a)) → preserves R (m ≫= f).
Proof.
  intros Hm Hf w. unfold mbind, M_bind. specialize (Hm w).
  destruct (m w) as [[a|e] w']; cbn in *; [|done]. etrans; [exact Hm|apply Hf].
Qed.

Lemma preserves_try {A} (m : M A) h :
  preserves R m → (∀ e k, h e = Some k → preserves R k) →
  preserves R (try_except m h).
Proof.
  intros Hm Hh w. unfold try_except. specialize (Hm w).
  destruct (m w) as [[a|e] w']; cbn in *; [done|].
  destruct (h e) as [k|] eqn:E; [|done]. etrans; [exact Hm|by eapply Hh].
Qed.

Lemma preserves_for_each {A S} (body : A → S → M S) xs s :
  (∀ x s, preserves R (body x s)) → preserves R (for_each body xs s).
Proof.
  intros Hb. revert s. induction xs as [|x xs IH]; intros s; cbn [for_each].
  - apply preserves_ret.
  - apply preserves_bind; auto.
Qed.

Lemma preserves_for_each_ {A} (body : A → M unit) xs :
  (∀ x, preserves R (body x)) → preserves R (for_each_ body xs).
Proof.
  intros Hb. induction xs as [|x xs IH]; cbn [for_each_].
  - apply preserves_ret.
  - apply preserves_bind; auto.
Qed.

Lemma preserves_map_each {A B} (f : A → M B) xs :
  (∀ x, preserves R (f x)) → preserves R (map_each f xs).
Proof.
  intros Hb. induction xs as [|x xs IH]; cbn [map_each].
  - apply preserves_ret.
  - apply preserves_bind; [auto|]. intros y.
    apply preserves_bind; [auto|]. intros ys. apply preserves_ret.
Qed.

Lemma preserves_load obj key : preserves R (load obj key).
Proof. intros w. unfold load. destruct (heap w !! obj); reflexivity. Qed.

Lemma preserves_deref obj : preserves R (deref obj).
Proof. intros w. unfold deref. destruct (heap w !! obj); reflexivity. Qed.

Lemma preserves_open_read filename : preserves R (open_read filename).
Proof.
  intros w. unfold open_read. destruct (files w !! filename) as [[]|]; reflexivity.
Qed.

End Frames.

Create HintDb frames discriminated.

(** The structural steps of a frame proof; what is left are the primitive
    actions, which the hints of [frames] settle. *)
Ltac frame_steps :=
  repeat first
    [ match goal with |- PreOrder _ => tc_solve end
    | solve [auto with frames]
    | apply preserves_ret
    | apply preserves_lift
    | apply preserves_raise
    | apply preserves_load
    | apply preserves_deref
    | apply preserves_open_read
    | apply preserves_for_each
    | apply preserves_for_each_
    | apply preserves_map_each
    | apply preserves_bind
    | apply preserves_try
    | match goal with
      | |- ∀ e k, _ = Some k → preserves _ k => intros [] ? ?; simplify_eq
      end
    | progress intros
    | match goal with
      | |- preserves _ (match ?x with _ => _ end) => destruct x
      | |- preserves _ (if ?x then _ else _) => destruct x
      end ].

Lemma only_printed_print e : preserves only_printed (print e).
Proof. intros w. by exists [e]. Qed.

Lemma only_read_print e : preserves only_read (print e).
Proof. intros w. split_and!; try done. by apply prefix_app_r. Qed.

Lemma only_read_alloc d : preserves only_read (alloc d).
Proof. intros w. split_and!; try done. by apply prefix_app_r. Qed.

Lemma only_written_print fn e : preserves (only_written fn) (print e).
Proof. intros w. split_and!; try done. by apply prefix_app_r. Qed.

Lemma only_written_open_write fn : preserves (only_written fn) (open_write fn).
Proof.
  intros w. unfold open_write.
  destruct (files w !! fn) as [[]|]; split_and!; try done;
    intros f Hf; cbn; by rewrite lookup_insert_ne.
Qed.

Lemma only_written_write_row fn row : preserves (only_written fn) (write_row fn row).
Proof.
  intros w. unfold write_row.
  destruct (files w !! fn) as [[]|]; split_and!; try done;
    intros f Hf; cbn; by rewrite lookup_insert_ne.
Qed.

Lemma only_records_store obj key v : preserves only_records (store obj key v).
Proof. intros w. unfold store. by destruct (heap w !! obj). Qed.

#[local] Hint Resolve only_printed_print only_read_print only_read_alloc
  only_written_print only_written_open_write only_written_write_row
  only_records_store : frames.

Section Behaviour.
Context `{Builtins}.

(** ** What each function leaves alone *)

Lemma read_row_only_reads row stocks : preserves only_read (read_row row stocks).
Proof. unfold read_row. frame_steps. Qed.

Lemma read_csv_safe_reads filename : preserves only_read (read_csv_safe filename).
Proof.
  unfold read_csv_safe. apply preserves_try; [tc_solve| |frame_steps].
  apply preserves_bind; [tc_solve|apply preserves_open_read; tc_solve|].
  intros rows. apply preserves_for_each; [tc_solve|].
  apply read_row_only_reads.
Qed.

(** X1.  The Loader only reads: whether it returns or raises, no file is
    created or changed, the records that existed are still there at the same
    addresses (new ones are added after them), and the console has only
    gained lines. *)
Theorem read_csv_safe_only_reads (filename : string) (w : world) :
  let w' := (read_csv_safe filename w).2 in
  files w' = files w ∧
  (∀ l d, heap w !! l = Some d → heap w' !! l = Some d) ∧
  console w `prefix_of` console w'.
Proof.
  destruct (read_csv_safe_reads filename w) as (Hf & _ & _ & [k Hh] & Hc).
  cbn zeta. split_and!; [done| |done].
  intros l d Hl. rewrite Hh. by apply lookup_app_l_Some.
Qed.

Lemma process_all_untouched data : preserves untouched (process_all data).
Proof. unfold process_all. frame_steps. Qed.

Lemma aggregrate_by_sector_untouched data :
  preserves untouched (aggregrate_by_sector data).
Proof. unfold aggregrate_by_sector, fold_stock. frame_steps. Qed.

(** X2.  The Ranker and the Aggregator have no effect: whether they return
    or raise, the world (records, files, console) is exactly as before. *)
Theorem ranker_and_aggregator_have_no_effect :
  (∀ data w, (process_all data w).2 = w) ∧
  (∀ data w, (aggregrate_by_sector data w).2 = w).
Proof.
  split; intros data w.
  - apply (process_all_untouched data w).
  - apply (aggregrate_by_sector_untouched data w).
Qed.

Lemma print_report_printed data m : preserves only_printed (print_report data m).
Proof. unfold print_report. frame_steps. Qed.

Lemma compute_return_only_records stock : preserves only_records (compute_return stock).
Proof. unfold compute_return. frame_steps. Qed.

Lemma export_csv_written data w :
  only_written (report_name w) w (export_csv data w).2.
Proof.
  unfold export_csv. unfold mbind at 1, M_bind at 1. cbn beta iota.
  fold (report_name w). generalize (report_name w) as fn. intros fn.
  match goal with
  | |- only_written fn w (?m w).2 =>
      enough (preserves (only_written fn) m) as Hp by apply Hp
  end.
  frame_steps.
Qed.

(** X3.  The Reporter only prints: whether it returns or raises, the world
    it leaves differs from the one it found by lines added to the console,
    and by nothing else. *)
Theorem print_report_only_prints (data : list loc) (m : summary) (w : world) :
  ∃ evs, (print_report data m w).2 = with_console (console w ++ evs) w.
Proof.
  destruct (print_report_printed data m w) as [evs E]. exists evs. exact E.
Qed.

(** X4.  The Exporter writes one file: whether it returns or raises, no file
    other than [stock_report_<timestamp>.csv] is created or changed, no record
    is changed, and the console has only gained lines. *)
Theorem export_csv_only_writes_report (data : list loc) (w : world) :
  let w' := (export_csv data w).2 in
  heap w' = heap w ∧
  console w `prefix_of` console w' ∧
  ∀ f, f ≠ report_name w → files w' !! f = files w !! f.
Proof.
  destruct (export_csv_written data w) as (Hh & _ & _ & Hc & Hf).
  cbn zeta. by split_and!.
Qed.

Lemma weaken_to_report {A} (m : M A) :
  preserves only_read m ∨ preserves only_records m ∨ preserves only_printed m
  ∨ preserves untouched m →
  preserves only_report_written m.
Proof.
  intros [Hm|[Hm|[Hm|Hm]]] w; specialize (Hm w).
  - destruct Hm as (Hf & ? & ? & _ & ?). split_and!; try done.
    intros f _. by rewrite Hf.
  - destruct Hm as (Hf & Hc & ? & ?). split_and!; try done.
    + by rewrite Hc.
    + intros f _. by rewrite Hf.
  - destruct Hm as [evs ->]. split_and!; try done. by apply prefix_app_r.
  - rewrite Hm. reflexivity.
Qed.

Lemma export_csv_report_written data : preserves only_report_written (export_csv data).
Proof.
  intros w. destruct (export_csv_written data w) as (_ & ? & ? & ? & ?).
  by split_and!.
Qed.

Lemma main_report_written : preserves only_report_written main.
Proof.
  assert (Hin : ∀ p, preserves only_report_written (input p)).
  { intros p w. split_and!; try done. by apply prefix_app_r. }
  assert (Hpr : ∀ e, preserves only_report_written (print e)).
  { intros e. apply weaken_to_report. right; right; left. apply only_printed_print. }
  assert (Hld : ∀ f, preserves only_report_written (read_csv_safe f)).
  { intros f. apply weaken_to_report. left. apply read_csv_safe_reads. }
  assert (Hcr : ∀ s, preserves only_report_written (compute_return s)).
  { intros s. apply weaken_to_report. right; left. apply compute_return_only_records. }
  assert (Hpa : ∀ d, preserves only_report_written (process_all d)).
  { intros d. apply weaken_to_report. do 3 right. apply process_all_untouched. }
  assert (Hag : ∀ d, preserves only_report_written (aggregrate_by_sector d)).
  { intros d. apply weaken_to_report. do 3 right. apply aggregrate_by_sector_untouched. }
  assert (Hrp : ∀ d m, preserves only_report_written (print_report d m)).
  { intros d m. apply weaken_to_report. right; right; left. apply print_report_printed. }
  pose proof export_csv_report_written as Hex.
  unfold main. frame_steps.
Qed.

(** X5.  The program writes one file: however a run ends (completion, the
    empty-data exit, an escaped exception), no file other than
    [stock_report_<timestamp>.csv] has been created or changed, so the source
    file is as it was unless it bears that very name, and the console has
    only gained lines. *)
Theorem main_only_writes_report (w : world) :
  let w' := (main w).2 in
  console w `prefix_of` console w' ∧
  ∀ f, f ≠ report_name w → files w' !! f = files w !! f.
Proof.
  destruct (main_report_written w) as (_ & _ & Hc & Hf). cbn zeta. by split.
Qed.

(** ** Record Loader: errors and diagnostics *)

(** X6.  A file that does not exist: the Loader prints the file-not-found
    line, returns the empty list and changes nothing else. *)
Theorem read_csv_safe_missing_file (w : world) (filename : string) :
  files w !! filename = None →
  read_csv_safe filename w
  = (Done [], with_console (console w ++ [FileNotFound filename]) w).
Proof.
  intros Hf. unfold read_csv_safe, try_except, open_read.
  unfold mbind at 1, M_bind at 1. rewrite Hf. reflexivity.
Qed.

(** On a row of text, [read_row] either returns, and the row is not cut
    short, or raises [AttributeError] with the world as it was, and the row
    is cut short. *)
Lemma read_row_cut_short row stocks w :
  text_row row →
  match read_row row stocks w with
  | (Done _, _) => ¬ cut_short row
  | (Raise e, w') => e = AttributeError ∧ w' = w ∧ cut_short row
  end.
Proof.
  intros Ht. unfold cut_short, read_row, try_except, getitem, str_strip, float_.
  unfold mbind, M_bind, lift, print, alloc, mret, M_ret, outcome_bind.
  destruct (row !! "Stock") as [[|name|x]|] eqn:E1; cbn;
    [| |destruct (Ht _ _ E1) as [|[]]; done|]; cycle 2.
  { intros [|[[] _]]; done. }
  { split_and!; auto. }
  destruct (row !! "Sector") as [[|sector|x]|] eqn:E2; cbn;
    [| |destruct (Ht _ _ E2) as [|[]]; done|]; cycle 2.
  { intros [|[_ ?]]; done. }
  { split_and!; eauto. }
  assert (Hn : ¬ (Some (VStr name) = Some VNone
                  ∨ is_Some (Some (VStr name)) ∧ Some (VStr sector) = Some VNone))
    by (intros [|[_ ?]]; done).
  repeat (case_match; simplify_eq/=); try done.
  all: match goal with Hor : _ || _ = false |- _ =>
         apply orb_false_elim in Hor as [? ?] end; done.
Qed.

Lemma for_each_read_row_cut_short rows stocks w :
  Forall text_row rows →
  match for_each read_row rows stocks w with
  | (Done _, _) => ¬ Exists cut_short rows
  | (Raise e, _) => e = AttributeError ∧ Exists cut_short rows
  end.
Proof.
  intros Ht. revert stocks w.
  induction Ht as [|row rows Hrow _ IH]; intros stocks w; cbn [for_each].
  - cbn. by intros ?%Exists_nil.
  - unfold mbind, M_bind. pose proof (read_row_cut_short row stocks w Hrow) as Hr.
    destruct (read_row row stocks w) as [[stocks1|e] w1].
    + specialize (IH stocks1 w1).
      destruct (for_each read_row rows stocks1 w1) as [[st|e] w2].
      * intros [?|?]%Exists_cons; done.
      * destruct IH as [-> IH]. split; [done|]. by right.
    + destruct Hr as (-> & _ & Hr). split; [done|]. by left.
Qed.

(** X7.  When the Loader raises, and only then: the file exists but cannot
    be opened, and the exception is the [OSError] of [open]; or some row of
    the file is cut short before its Stock or Sector cell, and the exception
    is [AttributeError].  Every other defect of a row or of the file is
    handled. *)
Theorem read_csv_safe_raises_iff (w : world) (filename : string) (e : exn) :
  (read_csv_safe filename w).1 = Raise e ↔
  (files w !! filename = Some Denied ∧ e = PermissionError filename) ∨
  (∃ rows, files w !! filename = Some (Regular rows) ∧
           Exists cut_short (DictReader rows) ∧ e = AttributeError).
Proof.
  unfold read_csv_safe, try_except, open_read. unfold mbind at 1, M_bind at 1.
  destruct (files w !! filename) as [[rows|]|] eqn:Ef.
  - pose proof (for_each_read_row_cut_short _ [] w (DictReader_text rows)) as Hr.
    destruct (for_each read_row (DictReader rows) [] w) as [[st|e1] w1].
    + split; [done|]. intros [[? _]|(rows' & [= <-] & Hex & _)]; done.
    + destruct Hr as [-> Hex]. cbn. split.
      * intros [= <-]. right. by exists rows.
      * intros [[? _]|(_ & _ & _ & ->)]; done.
  - cbn. split.
    + intros [= <-]. by left.
    + intros [[_ ->]|(? & ? & _)]; done.
  - cbn. split; [done|]. intros [[? _]|(? & ? & _)]; done.
Qed.

(** The line [read_row] prints for a row of text that has its labels. *)
Lemma read_row_diagnostic row stocks w :
  text_row row → labelled row →
  ∃ stocks' w', read_row row stocks w = (Done stocks', w') ∧
    console w' = console w ++ from_option (λ e, [e]) [] (diagnostic row).
Proof.
  intros Ht [Hn1 Hn2].
  unfold diagnostic, cell, has_column, read_row, try_except, getitem.
  cbn [forallb].
  destruct (row !! "Stock") as [[|name|?]|] eqn:E1;
    [done| |destruct (Ht _ _ E1) as [|[]]; done|]; cycle 1.
  { by eexists _, _. }
  destruct (row !! "Sector") as [[|sector|?]|] eqn:E2;
    [done| |destruct (Ht _ _ E2) as [|[]]; done|]; cycle 1.
  { by eexists _, _. }
  destruct (row !! "PriceStart") as [[|ps|?]|] eqn:E3;
    [| |destruct (Ht _ _ E3) as [|[]]; done|]; cycle 2.
  { by eexists _, _. }
  all: destruct (row !! "PriceEnd") as [[|pe|?]|] eqn:E4;
    [| |destruct (Ht _ _ E4) as [|[]]; done|].
  all: try (by eexists _, _).
  all: cbn -[new_stock]; unfold mbind, M_bind, lift, print, alloc; cbn -[new_stock].
  - destruct (String.eqb ps ""); by eexists _, _.
  - destruct (String.eqb ps ""); cbn -[new_stock]; [by eexists _, _|].
    destruct (String.eqb pe ""); cbn -[new_stock]; [by eexists _, _|].
    destruct (float_of_str ps) as [x|]; cbn -[new_stock]; [|by eexists _, _].
    destruct (float_of_str pe) as [y|]; cbn -[new_stock]; [|by eexists _, _].
    destruct ((0 <? x)%float && (0 <? y)%float); cbn -[new_stock];
      eexists _, _; (split; [done|]); cbn; by rewrite app_nil_r.
Qed.

Lemma for_each_read_row_diagnostic rows stocks w :
  Forall text_row rows → Forall labelled rows →
  ∃ stocks' w', for_each read_row rows stocks w = (Done stocks', w') ∧
    console w' = console w ++ omap diagnostic rows.
Proof.
  intros Ht Hl. revert stocks w.
  induction Ht as [|row rows Hrow Ht IH]; intros stocks w.
  - exists stocks, w. split; [done|]. cbn. by rewrite app_nil_r.
  - apply Forall_cons in Hl as [Hlrow Hl]. specialize (IH Hl).
    destruct (read_row_diagnostic row stocks w Hrow Hlrow)
      as (stocks1 & w1 & Hrun & Hc).
    destruct (IH stocks1 w1) as (stocks2 & w2 & Hrun2 & Hc2).
    exists stocks2, w2. cbn [for_each]. rewrite (bind_Done _ _ _ _ _ Hrun).
    split; [done|]. rewrite Hc2, Hc, <- app_assoc. f_equal.
    destruct (diagnostic row) as [e|] eqn:E.
    + by rewrite (omap_cons_Some _ _ _ _ E).
    + by rewrite (omap_cons_None _ _ _ E).
Qed.

(** X8.  Which line the Loader prints for which row, on a readable source
    none of whose rows is cut short before its Stock or Sector cell: for each
    row in turn, the missing-prices line when the four columns exist and a
    price cell is empty or absent, the invalid-row line when a column does
    not exist or a non-empty price does not read as a number, and no line
    for an accepted row or a row with a non-positive price.  Nothing else
    is printed. *)
Theorem read_csv_safe_diagnostics (w : world) (filename : string) (rows : table) :
  files w !! filename = Some (Regular rows) →
  Forall labelled (DictReader rows) →
  console (read_csv_safe filename w).2
  = console w ++ omap diagnostic (DictReader rows).
Proof.
  intros Hf Hl.
  destruct (for_each_read_row_diagnostic _ [] w (DictReader_text rows) Hl)
    as (stocks & w' & Hrun & Hc).
  unfold read_csv_safe, try_except, open_read. unfold mbind at 1, M_bind at 1.
  by rewrite Hf, Hrun.
Qed.

(** ** Loader, then Calculator *)

(** X9.  The Calculator never fails on what the Loader returns: run over
    the Loader's output it returns the same addresses in the same order, and
    every record then is a loaded record with its return added. In
    particular no division by zero occurs. *)
Theorem calculator_accepts_loader_output (filename : string) (w : world)
    (data : list loc) (w1 : world) :
  read_csv_safe filename w = (Done data, w1) →
  ∃ w2, map_each compute_return data w1 = (Done data, w2) ∧
        all_computed (heap w2) data ∧
        only_records w1 w2.
Proof.
  intros (Hf & Hn & Ht & ds & Hds & -> & Hh)%read_csv_safe_post.
  pose proof (map_each_compute_return w1 (heap w) ds Hh Hds) as Hrun.
  eexists. split; [exact Hrun|]. split; [|done].
  eapply all_computed_Forall2. apply computed_heap. done.
Qed.

(** ** Return Calculator: errors and recomputation *)

(** X10.  A start price equal to zero (0.0 or -0.0) makes the Calculator
    raise [ZeroDivisionError]; nothing is written to the record. *)
Theorem compute_return_zero_start (w : world) (stock : loc) (d : dict)
    (ps pe : float) :
  heap w !! stock = Some d →
  d !! "PriceStart" = Some (VFloat ps) →
  d !! "PriceEnd" = Some (VFloat pe) →
  (ps =? 0)%float = true →
  compute_return stock w = (Raise ZeroDivisionError, w).
Proof.
  intros Hd Hs He Hz.
  rewrite (compute_return_floats w stock d ps pe Hd Hs He).
  by rewrite Hz.
Qed.

(** X11.  A record without a price makes the Calculator raise [KeyError]
    for the first key it misses, ["PriceStart"] before ["PriceEnd"]; nothing
    is written to the record. *)
Theorem compute_return_missing_price (w : world) (stock : loc) (d : dict) :
  heap w !! stock = Some d →
  d !! "PriceStart" = None ∨ d !! "PriceEnd" = None →
  compute_return stock w
  = (Raise (KeyError (match d !! "PriceStart" with
                      | Some _ => "PriceEnd"
                      | None => "PriceStart"
                      end)), w).
Proof.
  intros Hd Hk. unfold compute_return.
  unfold mbind at 1, M_bind at 1, load at 1. rewrite Hd. unfold getitem at 1.
  destruct (d !! "PriceStart") as [ps|]; [|done].
  destruct Hk as [|He]; [done|].
  unfold mbind at 1, M_bind at 1, load at 1. rewrite Hd. unfold getitem at 1.
  by rewrite He.
Qed.

(** X12.  The Calculator fails cleanly: when it raises, the world is exactly
    as it found it (no ["Return"] key has been written), and on a record that
    exists the exception is a [KeyError] for a missing price, a [TypeError]
    for a price that is not a number, or [ZeroDivisionError]. *)
Theorem compute_return_fails_cleanly (w : world) (stock : loc) (e : exn)
    (w' : world) :
  is_Some (heap w !! stock) →
  compute_return stock w = (Raise e, w') →
  w' = w ∧
  (e = KeyError "PriceStart" ∨ e = KeyError "PriceEnd" ∨ e = TypeError
   ∨ e = ZeroDivisionError).
Proof.
  intros [d Hd].
  unfold compute_return, mbind, M_bind, load, lift, store, mret, M_ret, getitem,
    sub, truediv.
  rewrite Hd. intros Hr.
  repeat (case_match; simplify_eq/=); auto 10.
Qed.

(** X13.  Computing a return twice is the same as computing it once: after
    a successful call, a second call on the same record returns the same
    address and leaves the world unchanged. *)
Theorem compute_return_idempotent (w : world) (stock a : loc) (w1 : world) :
  compute_return stock w = (Done a, w1) →
  compute_return stock w1 = (Done a, w1).
Proof.
  intros Hrun.
  assert (a = stock) as -> by (eapply compute_return_returns_argument; by rewrite Hrun).
  destruct (heap w !! stock) as [d|] eqn:Hd; cycle 1.
  { unfold compute_return in Hrun. unfold mbind at 1, M_bind at 1, load at 1 in Hrun.
    by rewrite Hd in Hrun. }
  destruct (d !! "PriceStart") as [[| |ps]|] eqn:Hs;
    destruct (d !! "PriceEnd") as [[| |pe]|] eqn:He;
    try (unfold compute_return, mbind, M_bind, load, lift, getitem in Hrun;
         rewrite Hd, ?Hs, ?He in Hrun; cbn in Hrun;
         rewrite ?Hd, ?He in Hrun; cbn in Hrun; discriminate).
  rewrite (compute_return_floats w stock d ps pe Hd Hs He) in Hrun.
  destruct (ps =? 0)%float eqn:Hz; [done|]. injection Hrun as <-.
  set (d' := <["Return" := VFloat (expected_return ps pe)]> d).
  assert (Hlt : stock < length (heap w)) by (by eapply lookup_lt_Some).
  rewrite (compute_return_floats _ stock d' ps pe).
  - rewrite Hz. f_equal. cbn [heap with_heap]. rewrite with_heap_with_heap.
    f_equal. rewrite list_insert_insert_eq. subst d'. by rewrite insert_insert_eq.
  - cbn. by apply list_lookup_insert_eq.
  - subst d'. by rewrite lookup_insert_ne.
  - subst d'. by rewrite lookup_insert_ne.
Qed.

(** ** Ranker: missing returns, ranking twice *)

Lemma map_each_load_missing w data key :
  Forall (λ l, is_Some (heap w !! l)) data →
  Exists (λ l, field (heap w) l key = None) data →
  map_each (λ x, load x key) data w = (Raise (KeyError key), w).
Proof.
  intros Hd Hex. induction Hd as [|l data [d Hl] _ IH]; [by apply Exists_nil in Hex|].
  cbn [map_each]. unfold mbind at 1, M_bind at 1, load at 1. rewrite Hl.
  unfold getitem. destruct (d !! key) as [v|] eqn:Hv; [|done].
  apply Exists_cons in Hex as [Hex|Hex].
  { unfold field in Hex. rewrite Hl in Hex. cbn in Hex. congruence. }
  unfold mbind, M_bind. by rewrite (IH Hex).
Qed.

(** X14.  Ranking records one of which has no ["Return"] key (the Calculator
    has not run on it) raises [KeyError] for that key and changes nothing. *)
Theorem process_all_needs_return (w : world) (data : list loc) :
  Forall (λ l, is_Some (heap w !! l)) data →
  Exists (λ l, field (heap w) l "Return" = None) data →
  process_all data w = (Raise (KeyError "Return"), w).
Proof.
  intros Hd Hex. unfold process_all. unfold mbind, M_bind.
  by rewrite (map_each_load_missing w data "Return" Hd Hex).
Qed.

(** X15.  Ranking is idempotent: ranking the Ranker's output again returns
    it unchanged. *)
Theorem process_all_idempotent (w : world) (data : list loc) :
  Forall (λ l, is_Some (return_of (heap w) l)) data →
  ∃ out, process_all data w = (Done out, w) ∧ process_all out w = (Done out, w).
Proof.
  intros Hd. exists (ranked (heap w) data). split.
  - by apply process_all_floats.
  - rewrite process_all_floats.
    + by rewrite ranked_ranked.
    + by rewrite ranked_perm.
Qed.

(** ** Sector Aggregator: order of the sectors, records counted *)

Lemma first_occurrences_elem c l : c ∈ first_occurrences l ↔ c ∈ l.
Proof.
  induction l as [|a l IH]; [done|]. cbn [first_occurrences].
  rewrite !elem_of_cons, list_elem_of_filter, IH.
  destruct (decide (c = a)); naive_solver.
Qed.

Lemma first_occurrences_snoc l c :
  first_occurrences (l ++ [c])
  = first_occurrences l ++ (if decide (c ∈ l) then [] else [c]).
Proof.
  induction l as [|a l IH]; [done|].
  cbn [app first_occurrences]. rewrite IH, filter_app. f_equal. f_equal.
  destruct (decide (c = a)) as [->|Hne].
  - rewrite (decide_True (P := a ∈ a :: l)) by (by left).
    destruct (decide (a ∈ l)); [done|]. by rewrite filter_cons_False by (by intros ?).
  - destruct (decide (c ∈ l)) as [Hin|Hn].
    + by rewrite decide_True by (by right).
    + rewrite decide_False by (by intros [?|?]%elem_of_cons).
      by rewrite filter_cons_True.
Qed.

Lemma fold_pair_keys m p :
  (fold_pair m p).*1 = m.*1 ++ (if decide (p.1 ∈ m.*1) then [] else [p.1]).
Proof.
  unfold fold_pair. destruct (od_get p.1 m) as [e|] eqn:E.
  - rewrite E. assert (p.1 ∈ m.*1) as Hin.
    { destruct (decide (p.1 ∈ m.*1)) as [|Hn]; [done|].
      apply od_get_None in Hn. congruence. }
    rewrite od_set_keys, !decide_True by done. by rewrite app_nil_r.
  - rewrite od_get_set_eq. apply od_get_None in E.
    rewrite od_set_keys, decide_True.
    + rewrite od_set_keys. by rewrite !decide_False by done.
    + apply od_set_elem. by left.
Qed.

Lemma foldl_fold_pair_keys ps :
  (foldl fold_pair [] ps).*1 = first_occurrences ps.*1.
Proof.
  induction ps as [|p ps IH] using rev_ind; [done|].
  rewrite foldl_app, fmap_app. cbn [foldl fmap list_fmap].
  rewrite fold_pair_keys, first_occurrences_snoc, IH.
  f_equal. destruct (decide (p.1 ∈ ps.*1)) as [Hin|Hn].
  - by rewrite decide_True by (by apply first_occurrences_elem).
  - by rewrite decide_False by (by rewrite first_occurrences_elem).
Qed.

Lemma pairs_sectors h data :
  Forall (aggregable h) data →
  (omap (pair_of h) data).*1 = omap (sector_of h) data
  ∧ length (omap (pair_of h) data) = length data.
Proof.
  induction 1 as [|l data (c & r & Hc & Hr) _ [IH1 IH2]]; [done|].
  assert (Hp : pair_of h l = Some (c, r))
    by (unfold pair_of; rewrite Hc, Hr; done).
  rewrite (omap_cons_Some _ _ _ _ Hp), (omap_cons_Some _ _ _ _ Hc).
  cbn. by rewrite IH1, IH2.
Qed.

Lemma finalized_keys (m : summary) : (prod_map id finalized <$> m).*1 = m.*1.
Proof.
  rewrite <- list_fmap_compose.
  by replace (fst ∘ prod_map id finalized) with (@fst string entry).
Qed.

(** X16.  The summary lists the sectors in the order in which each first
    occurs in the input. *)
Theorem aggregrate_by_sector_key_order (w : world) (data : list loc) :
  Forall (aggregable (heap w)) data →
  ∃ m, aggregrate_by_sector data w = (Done m, w) ∧
       m.*1 = first_occurrences (omap (sector_of (heap w)) data).
Proof.
  intros Hd. eexists. split; [by apply aggregrate_by_sector_run|].
  rewrite finalized_keys, foldl_fold_pair_keys.
  by destruct (pairs_sectors _ _ Hd) as [-> _].
Qed.

Lemma counted_od_set k e m :
  counted (od_set k e m)
  = (counted m - from_option count 0 (od_get k m) + count e)%Z.
Proof.
  induction m as [|[k' e'] m IH]; cbn [od_set od_get].
  - unfold counted. cbn. lia.
  - destruct (String.eqb k k').
    + unfold counted. cbn. lia.
    + unfold counted in *. cbn [foldr snd]. rewrite IH. lia.
Qed.

Lemma counted_fold_pair m p : counted (fold_pair m p) = (counted m + 1)%Z.
Proof.
  unfold fold_pair. destruct (od_get p.1 m) as [e|] eqn:E.
  - rewrite E, counted_od_set, E. cbn. lia.
  - rewrite od_get_set_eq, !counted_od_set, od_get_set_eq, E. cbn. lia.
Qed.

Lemma counted_foldl m ps :
  counted (foldl fold_pair m ps) = (counted m + Z.of_nat (length ps))%Z.
Proof.
  revert m. induction ps as [|p ps IH]; intros m; cbn [foldl length].
  - lia.
  - rewrite IH, counted_fold_pair. lia.
Qed.

Lemma counted_finalized (m : summary) : counted (prod_map id finalized <$> m) = counted m.
Proof.
  induction m as [|[c e] m IH]; [done|]. unfold counted in *. cbn. by rewrite IH.
Qed.

(** X17.  Every record is counted once: the counts of the summary add up to
    the number of input records. *)
Theorem aggregrate_by_sector_counts_every_record (w : world) (data : list loc) :
  Forall (aggregable (heap w)) data →
  ∃ m, aggregrate_by_sector data w = (Done m, w) ∧
       counted m = Z.of_nat (length data).
Proof.
  intros Hd. eexists. split; [by apply aggregrate_by_sector_run|].
  rewrite counted_finalized, counted_foldl.
  destruct (pairs_sectors _ _ Hd) as [_ ->]. unfold counted. cbn. lia.
Qed.

Lemma for_each_app {A S} (body : A → S → M S) xs ys s w s' w' :
  for_each body xs s w = (Done s', w') →
  for_each body (xs ++ ys) s w = for_each body ys s' w'.
Proof.
  revert s w. induction xs as [|x xs IH]; intros s w; cbn [for_each app].
  - by intros [= -> ->].
  - unfold mbind, M_bind. destruct (body x s w) as [[s1|e] w1]; [|done]. apply IH.
Qed.

(** X18.  Aggregating records one of which has no ["Return"] key raises
    [KeyError] for that key at the first such record, and changes nothing:
    the Aggregator cannot run before the Calculator. *)
Theorem aggregrate_by_sector_needs_return (w : world) (pre post : list loc)
    (l : loc) :
  Forall (aggregable (heap w)) pre →
  is_Some (sector_of (heap w) l) →
  field (heap w) l "Return" = None →
  aggregrate_by_sector (pre ++ l :: post) w = (Raise (KeyError "Return"), w).
Proof.
  intros Hpre [c (d & Hd & Hc)%sector_of_Some] Hr.
  unfold field in Hr. rewrite Hd in Hr. cbn in Hr.
  unfold aggregrate_by_sector. unfold mbind at 1, M_bind at 1.
  rewrite (for_each_app _ _ _ _ _ _ _ (for_each_fold_stock w pre [] Hpre)).
  cbn [for_each]. unfold mbind at 1, M_bind at 1, fold_stock at 1.
  rewrite (bind_Done _ _ _ _ _ (load_Some _ _ _ _ _ Hd Hc)).
  unfold mbind at 1, M_bind at 1, lift at 1, as_sector.
  unfold mbind at 1, M_bind at 1, load at 1. rewrite Hd. unfold getitem.
  by rewrite Hr.
Qed.

(** ** Reporter: the best sector, the lines printed *)

Lemma max_from_first_maximum pre best post items :
  Forall (λ p, ∃ a, avg_return p.2 = Some a ∧ is_nan a = false)
         (best :: post ++ items) →
  Forall (λ p, (avg p <? avg best)%float = true) pre →
  Forall (λ p, (avg p <=? avg best)%float = true) post →
  ∃ pre' best' post',
    pre ++ best :: post ++ items = pre' ++ best' :: post' ∧
    max_from best (avg best) items = Done best' ∧
    Forall (λ p, (avg p <? avg best')%float = true) pre' ∧
    Forall (λ p, (avg p <=? avg best')%float = true) post'.
Proof.
  revert pre best post.
  induction items as [|it items IH]; intros pre best post Hall Hpre Hpost.
  - exists pre, best, post. by rewrite app_nil_r.
  - assert (Hit : ∃ a, avg_return it.2 = Some a ∧ is_nan a = false).
    { rewrite Forall_forall in Hall. apply Hall. right.
      apply elem_of_app. right. by left. }
    assert (Hb : ∃ b, avg_return best.2 = Some b ∧ is_nan b = false).
    { rewrite Forall_forall in Hall. apply Hall. by left. }
    destruct Hit as (a & Ha & Hna), Hb as (b & Hbe & Hnb).
    cbn [max_from]. unfold avg_of. rewrite Ha. cbn [mbind outcome_bind].
    assert (Ea : avg it = a) by (unfold avg; by rewrite Ha).
    assert (Eb : avg best = b) by (unfold avg; by rewrite Hbe).
    rewrite Eb. destruct (b <? a)%float eqn:E.
    + rewrite <- Ea.
      destruct (IH (pre ++ best :: post) it []) as (pre' & best' & post' & Hm & Hr & H1 & H2).
      * cbn. rewrite Forall_forall in Hall |- *. intros p Hp. apply Hall.
        right. apply elem_of_app. by right.
      * rewrite Ea. apply Forall_app. split; [|apply Forall_cons; split].
        -- eapply Forall_impl; [exact Hpre|]. intros p Hp. cbn in Hp.
           rewrite Eb in Hp. eapply leb_ltb_trans; [by apply ltb_leb|done].
        -- by rewrite Eb.
        -- eapply Forall_impl; [exact Hpost|]. intros p Hp. cbn in Hp.
           rewrite Eb in Hp. by eapply leb_ltb_trans.
      * constructor.
      * exists pre', best', post'. split_and!; try done.
        rewrite <- Hm. cbn. by rewrite <- !app_assoc.
    + rewrite <- Eb.
      destruct (IH pre best (post ++ [it])) as (pre' & best' & post' & Hm & Hr & H1 & H2).
      * by rewrite <- app_assoc.
      * done.
      * apply Forall_app. split; [done|]. apply Forall_singleton.
        rewrite Ea, Eb. by apply not_ltb_leb.
      * exists pre', best', post'. split_and!; try done.
        rewrite <- Hm. by rewrite <- !app_assoc.
Qed.

(** X19.  The best sector is the first of those with the greatest average:
    every sector listed before it has a smaller average and none listed
    after it has a greater one (averages being numbers). *)
Theorem max_by_avg_first_maximum (m : summary) :
  m ≠ [] →
  Forall (λ p, ∃ a, avg_return p.2 = Some a ∧ is_nan a = false) m →
  ∃ pre best post,
    m = pre ++ best :: post ∧ max_by_avg m = Done best ∧
    Forall (λ p, (avg p <? avg best)%float = true) pre ∧
    Forall (λ p, (avg p <=? avg best)%float = true) post.
Proof.
  destruct m as [|it m]; [done|]. intros _ Hall.
  pose proof Hall as [(a & Ha & _) _]%Forall_cons.
  destruct (max_from_first_maximum [] it [] m Hall) as (pre & best & post & Hm & Hr & ?);
    [constructor..|].
  exists pre, best, post. split; [done|]. split; [|done].
  cbn [max_by_avg]. unfold avg_of. rewrite Ha. cbn [mbind outcome_bind].
  unfold avg in Hr. by rewrite Ha in Hr.
Qed.

Lemma load_shown w l k :
  (∃ v, field (heap w) l k = Some v ∧ v ≠ VNone) →
  load l k w = (Done (shown (heap w) l k), w)
  ∧ aligned (shown (heap w) l k) = Done (shown (heap w) l k).
Proof.
  intros (v & Hv & Hn). unfold shown. rewrite Hv. cbn [default].
  unfold field in Hv. destruct (heap w !! l) as [d|] eqn:Hd; [|done]. cbn in Hv.
  split; [by apply (load_Some _ _ _ d)|by destruct v].
Qed.

Lemma with_console_twice c c' w : with_console c (with_console c' w) = with_console c w.
Proof. done. Qed.

Lemma report_rows_run w data :
  Forall (printable (heap w)) data →
  for_each_ (λ s,
      c1 ← load s "Stock"; c1 ← lift (aligned c1);
      c2 ← load s "Sector"; c2 ← lift (aligned c2);
      c3 ← load s "PriceStart"; c3 ← lift (aligned c3);
      c4 ← load s "PriceEnd"; c4 ← lift (aligned c4);
      c5 ← load s "Return"; c5 ← lift (aligned c5);
      print (ReportRow [c1; c2; c3; c4; c5])) data w
  = (Done tt, with_console (console w ++ map (report_line (heap w)) data) w).
Proof.
  intros Hd. revert w Hd. induction data as [|l data IH]; intros w Hd.
  - cbn. rewrite app_nil_r. by destruct w.
  - apply Forall_cons in Hd as [Hl Hd]. cbn [for_each_ map].
    destruct (load_shown w l "Stock") as [L1 A1]; [apply Hl; set_solver|].
    destruct (load_shown w l "Sector") as [L2 A2]; [apply Hl; set_solver|].
    destruct (load_shown w l "PriceStart") as [L3 A3]; [apply Hl; set_solver|].
    destruct (load_shown w l "PriceEnd") as [L4 A4]; [apply Hl; set_solver|].
    destruct (load_shown w l "Return") as [L5 A5]; [apply Hl; set_solver|].
    unfold mbind at 1, M_bind at 1.
    rewrite (bind_Done _ _ _ _ _ L1). unfold mbind at 1, M_bind at 1, lift at 1. rewrite A1.
    rewrite (bind_Done _ _ _ _ _ L2). unfold mbind at 1, M_bind at 1, lift at 1. rewrite A2.
    rewrite (bind_Done _ _ _ _ _ L3). unfold mbind at 1, M_bind at 1, lift at 1. rewrite A3.
    rewrite (bind_Done _ _ _ _ _ L4). unfold mbind at 1, M_bind at 1, lift at 1. rewrite A4.
    rewrite (bind_Done _ _ _ _ _ L5). unfold mbind at 1, M_bind at 1, lift at 1. rewrite A5.
    unfold print at 1. rewrite IH by done.
    cbn [heap with_console console]. rewrite with_console_twice, <- app_assoc. done.
Qed.

Lemma top_rows_run w data :
  Forall (printable (heap w)) data →
  for_each_ (λ s,
      c1 ← load s "Stock"; c1 ← lift (aligned c1);
      c2 ← load s "Return";
      print (TopRow c1 c2)) data w
  = (Done tt, with_console (console w ++ map (top_line (heap w)) data) w).
Proof.
  intros Hd. revert w Hd. induction data as [|l data IH]; intros w Hd.
  - cbn. rewrite app_nil_r. by destruct w.
  - apply Forall_cons in Hd as [Hl Hd]. cbn [for_each_ map].
    destruct (load_shown w l "Stock") as [L1 A1]; [apply Hl; set_solver|].
    destruct (load_shown w l "Return") as [L5 _]; [apply Hl; set_solver|].
    unfold mbind at 1, M_bind at 1.
    rewrite (bind_Done _ _ _ _ _ L1). unfold mbind at 1, M_bind at 1, lift at 1. rewrite A1.
    rewrite (bind_Done _ _ _ _ _ L5).
    unfold print at 1. rewrite IH by done.
    cbn [heap with_console console]. rewrite with_console_twice, <- app_assoc. done.
Qed.

Lemma sector_rows_run w (m : summary) :
  Forall (λ p, is_Some (avg_return p.2)) m →
  for_each_ (λ it : string * entry,
      a ← lift (avg_of it.2);
      print (SectorRow it.1 a (count it.2))) m w
  = (Done tt, with_console (console w ++ map sector_line m) w).
Proof.
  intros Hm. revert w. induction Hm as [|it m [a Ha] _ IH]; intros w.
  - cbn. rewrite app_nil_r. by destruct w.
  - cbn [for_each_ map]. unfold mbind at 1, M_bind at 1.
    unfold mbind at 1, M_bind at 1, lift at 1, avg_of at 1. rewrite Ha.
    unfold print at 1. rewrite IH.
    cbn [heap with_console console]. rewrite with_console_twice, <- app_assoc.
    unfold sector_line at 2, avg. by rewrite Ha.
Qed.

(** The Reporter on records it can print: the first two sections and the
    heading of the third are printed, then the summary is handled. *)
Lemma print_report_sections w data (m : summary) :
  Forall (printable (heap w)) data →
  print_report data m w
  = (best ← lift (max_by_avg m);
     for_each_ (λ it : string * entry,
         a ← lift (avg_of it.2);
         print (SectorRow it.1 a (count it.2))) m;;
     a ← lift (avg_of best.2);
     print (BestSector best.1 a))
      (with_console (console w ++ record_sections (heap w) data) w).
Proof.
  intros Hd. unfold print_report.
  do 3 (unfold mbind at 1, M_bind at 1, print at 1).
  unfold mbind at 1, M_bind at 1. rewrite report_rows_run by done.
  do 2 (unfold mbind at 1, M_bind at 1, print at 1).
  unfold mbind at 1, M_bind at 1. rewrite top_rows_run by (by apply Forall_take).
  do 2 (unfold mbind at 1, M_bind at 1, print at 1).
  cbn [heap with_console console]. rewrite !with_console_twice.
  unfold record_sections. by rewrite <- !app_assoc.
Qed.

(** X20.  What the Reporter prints, on records it can print and a finished,
    non-empty summary: the three lines that open the first section, one line
    for each record in order, the two lines that open the second section, one
    line for each of the first five records (all of them when there are
    fewer), the two lines that open the third section, one line for each
    sector in the order of the summary, and the line of the best sector;
    it then returns. *)
Theorem print_report_output (w : world) (data : list loc) (m : summary) :
  Forall (printable (heap w)) data →
  m ≠ [] → Forall (λ p, is_Some (avg_return p.2)) m →
  ∃ best,
    max_by_avg m = Done best ∧
    print_report data m w
    = (Done tt,
       with_console
         (console w ++
          [Heading "All Stock Details"; Rule; Columns] ++
          map (report_line (heap w)) data ++
          [Heading "Top 5 Stocks by Return"; Rule] ++
          map (top_line (heap w)) (take 5 data) ++
          [Heading "Sector Summary"; Rule] ++
          map sector_line m ++ [BestSector best.1 (avg best)]) w).
Proof.
  intros Hd Hne Hm.
  destruct (max_by_avg_returns m Hne Hm) as (best & Hbest & [a Ha]).
  exists best. split; [done|].
  rewrite print_report_sections by done. rewrite Hbest.
  unfold mbind at 1, M_bind at 1, lift at 1.
  unfold mbind at 1, M_bind at 1. rewrite sector_rows_run by done.
  unfold mbind at 1, M_bind at 1, lift at 1, avg_of at 1. rewrite Ha.
  unfold print. cbn [heap with_console console]. rewrite with_console_twice.
  unfold record_sections, avg. rewrite Ha. cbn [default].
  by rewrite <- !app_assoc.
Qed.

(** X21.  With an empty summary the Reporter prints the two record sections
    and the heading of the third, then raises [ValueError]: the best sector
    of no sector does not exist. *)
Theorem print_report_empty_summary (w : world) (data : list loc) :
  Forall (printable (heap w)) data →
  print_report data [] w
  = (Raise ValueError,
     with_console (console w ++ record_sections (heap w) data) w).
Proof.
  intros Hd. rewrite print_report_sections by done. reflexivity.
Qed.

(** ** Exporter: the file written, the failures *)

Lemma dict_to_list_exportable d :
  dict_to_list d = if bool_decide (exportable d) then Done (export_row d)
                   else Raise ValueError.
Proof. reflexivity. Qed.

Lemma for_each__app {A} (body : A → M unit) xs ys w w' :
  for_each_ body xs w = (Done tt, w') →
  for_each_ body (xs ++ ys) w = for_each_ body ys w'.
Proof.
  revert w. induction xs as [|x xs IH]; intros w; cbn [for_each_ app].
  - by intros [= ->].
  - unfold mbind, M_bind. destruct (body x w) as [[[]|e] w1]; [|done]. apply IH.
Qed.

Lemma export_rows_exportable w fn t data ds :
  files w !! fn = Some (Regular t) →
  Forall2 (λ l d, heap w !! l = Some d ∧ exportable d) data ds →
  for_each_ (λ s, d ← deref s; row ← lift (dict_to_list d); write_row fn row) data w
  = (Done tt, with_files (<[fn := Regular (t ++ map export_row ds)]> (files w)) w).
Proof.
  intros Hf Hd. revert w t ds Hf Hd.
  induction data as [|l data IH]; intros w t ds Hf Hd.
  - apply Forall2_nil_inv_l in Hd as ->. cbn. rewrite app_nil_r, insert_id by done.
    unfold mret, M_ret. by destruct w.
  - apply Forall2_cons_inv_l in Hd as (d & ds' & [Hl Hc] & Hd & ->).
    cbn [for_each_ map]. unfold mbind at 1, M_bind at 1.
    unfold mbind at 1, M_bind at 1, deref at 1. rewrite Hl.
    unfold mbind at 1, M_bind at 1, lift at 1.
    rewrite dict_to_list_exportable, bool_decide_eq_true_2 by done.
    unfold write_row at 1. rewrite Hf.
    rewrite (IH _ (t ++ [export_row d]) ds').
    + cbn. rewrite insert_insert_eq, <- app_assoc. done.
    + cbn. by rewrite lookup_insert_eq.
    + done.
Qed.

(** The Exporter on a path that can be written: the file is created or
    emptied, the header is written, and the rows follow. *)
Lemma export_csv_opened w data :
  files w !! report_name w ≠ Some Denied →
  export_csv data w
  = try_except
      (for_each_ (λ s, d ← deref s; row ← lift (dict_to_list d);
                       write_row (report_name w) row) data;;
       print (Saved (report_name w)))
      (λ e, match e with
            | FileNotFoundError _ | PermissionError _ =>
                Some (print (ErrorSaving (report_name w)))
            | _ => None
            end)
      (with_files (<[report_name w := Regular [fields]]> (files w)) w).
Proof.
  intros Hf. unfold export_csv. unfold mbind at 1, M_bind at 1.
  fold (report_name w). set (fn := report_name w) in *.
  unfold try_except.
  unfold mbind at 1, M_bind at 1, open_write at 1.
  set (w1 := with_files (<[fn := Regular []]> (files w)) w).
  assert (Hopen : match files w !! fn with
                  | Some Denied => (Raise (PermissionError fn), w)
                  | _ => (@Done unit tt, w1)
                  end = (Done tt, w1)).
  { destruct (files w !! fn) as [[]|]; done. }
  rewrite Hopen.
  unfold mbind at 1, M_bind at 1, write_row at 1.
  assert (Hf1 : files w1 !! fn = Some (Regular [])) by apply lookup_insert_eq.
  rewrite Hf1. subst w1. cbn [files with_files heap console now typed app].
  rewrite insert_insert_eq. reflexivity.
Qed.

(** X22.  The file the Exporter writes, for records with no key outside the
    five field names and a path that can be written: the header row, then
    one row per record in order, a missing key giving an empty cell; what the
    file held before is gone.  The saved line is printed and nothing else
    changes. *)
Theorem export_csv_writes_report (w : world) (data : list loc) (ds : list dict) :
  files w !! report_name w ≠ Some Denied →
  Forall2 (λ l d, heap w !! l = Some d ∧ exportable d) data ds →
  export_csv data w
  = (Done tt,
     World (heap w)
           (<[report_name w := Regular (fields :: map export_row ds)]> (files w))
           (console w ++ [Saved (report_name w)]) (now w) (typed w)).
Proof.
  intros Hf Hd. rewrite export_csv_opened by done.
  unfold try_except. unfold mbind at 1, M_bind at 1.
  rewrite (export_rows_exportable _ (report_name w) [fields] data ds).
  - cbn. by rewrite insert_insert_eq.
  - cbn. by rewrite lookup_insert_eq.
  - done.
Qed.

(** X23.  A report path that cannot be written: the Exporter prints the
    error line and returns; it does not raise, and nothing else changes. *)
Theorem export_csv_unwritable (w : world) (data : list loc) :
  files w !! report_name w = Some Denied →
  export_csv data w
  = (Done tt, with_console (console w ++ [ErrorSaving (report_name w)]) w).
Proof.
  intros Hf. unfold export_csv. unfold mbind at 1, M_bind at 1.
  fold (report_name w). unfold try_except.
  unfold mbind at 1, M_bind at 1, open_write at 1. by rewrite Hf.
Qed.

(** X24.  A record with a key outside the five field names makes the
    Exporter raise [ValueError], which its handler for [OSError] does not
    catch; the file is left with the header and the rows of the records
    before that one, and no line is printed. *)
Theorem export_csv_rejects_unknown_key (w : world) (pre post : list loc)
    (ds : list dict) (l : loc) (d : dict) :
  files w !! report_name w ≠ Some Denied →
  Forall2 (λ l d, heap w !! l = Some d ∧ exportable d) pre ds →
  heap w !! l = Some d → ¬ exportable d →
  export_csv (pre ++ l :: post) w
  = (Raise ValueError,
     with_files (<[report_name w := Regular (fields :: map export_row ds)]> (files w)) w).
Proof.
  intros Hf Hpre Hl Hd. rewrite export_csv_opened by done.
  unfold try_except. unfold mbind at 1, M_bind at 1.
  set (w1 := with_files (<[report_name w := Regular [fields]]> (files w)) w).
  assert (Hf1 : files w1 !! report_name w = Some (Regular [fields]))
    by apply lookup_insert_eq.
  rewrite (for_each__app _ _ _ _ _
             (export_rows_exportable w1 (report_name w) [fields] pre ds Hf1 Hpre)).
  cbn [for_each_]. unfold mbind at 1, M_bind at 1.
  unfold mbind at 1, M_bind at 1, deref at 1. subst w1.
  cbn [heap with_files]. rewrite Hl.
  unfold mbind at 1, M_bind at 1, lift at 1.
  rewrite dict_to_list_exportable, bool_decide_eq_false_2 by done.
  cbn. by rewrite insert_insert_eq.
Qed.

(** ** The program, end to end *)

(** X25.  Run on the name of a file that does not exist, the program
    prints the prompt, the file-not-found line and the no-data line, and
    exits with status 0; no record and no file is created. *)
Theorem main_missing_file (w : world) :
  files w !! strip (typed w) = None →
  main w
  = (Raise (SystemExit None),
     with_console (console w ++ [Prompt "Enter CSV filename: ";
                                 FileNotFound (strip (typed w)); NoValidData]) w)
  ∧ exit_status (main w).1 = 0%Z.
Proof.
  intros Hf.
  assert (E : main w
    = (Raise (SystemExit None),
       with_console (console w ++ [Prompt "Enter CSV filename: ";
                                   FileNotFound (strip (typed w)); NoValidData]) w)).
  { unfold main. unfold mbind at 1, M_bind at 1, input at 1.
    unfold mbind at 1, M_bind at 1.
    unfold read_csv_safe, try_except, open_read. unfold mbind at 1, M_bind at 1.
    cbn [files with_console]. rewrite Hf. cbn.
    unfold mbind, M_bind, print, raise, mret, M_ret, with_console; cbn.
    by rewrite <- !app_assoc. }
  by rewrite E.
Qed.

(** A run in which the Loader returns at least one record, up to the call of
    the Exporter: the records are the loaded ones with their returns, ranked;
    no file has changed. *)
Lemma main_before_export w data w1 :
  read_csv_safe (strip (typed w))
    (with_console (console w ++ [Prompt "Enter CSV filename: "]) w)
  = (Done data, w1) →
  data ≠ [] →
  ∃ ds w3,
    main w = export_csv (ranked (heap w3) data) w3 ∧
    Forall2 (λ l d, heap w3 !! l = Some d ∧ computed d) (ranked (heap w3) data) ds ∧
    all_computed (heap w3) data ∧
    files w3 = files w ∧ now w3 = now w.
Proof.
  intros Hload Hne. destruct data as [|l0 data0]; [done|]. clear Hne.
  unfold main. unfold mbind at 1, M_bind at 1, input at 1.
  unfold mbind at 1, M_bind at 1. rewrite Hload.
  set (data := l0 :: data0) in *.
  apply read_csv_safe_post in Hload as (Hf & Hn & Ht & ds & Hds & Hdata & Hh).
  set (pre := heap (with_console _ w)) in *.
  pose proof (map_each_compute_return w1 pre ds Hh Hds) as Hcomp.
  rewrite <- Hdata in Hcomp.
  rewrite (bind_Done _ _ _ _ _ Hcomp).
  set (w2 := with_heap _ w1).
  pose proof (computed_heap pre ds Hds) as Hall2. rewrite <- Hdata in Hall2.
  pose proof (all_computed_Forall2 (heap w2) _ _ Hall2) as Hall.
  assert (Hret : Forall (λ l, is_Some (return_of (heap w2) l)) data).
  { eapply Forall_impl; [exact Hall|]. intros l (d & Hl & Hc).
    destruct (computed_aggregable _ _ _ Hl Hc) as (? & r & _ & Hr). by exists r. }
  rewrite (bind_Done _ _ _ _ _ (process_all_floats w2 data Hret)).
  set (data' := ranked (heap w2) data).
  assert (Hperm : data' ≡ₚ data) by apply ranked_perm.
  assert (Hall' : all_computed (heap w2) data').
  { unfold all_computed. by rewrite Hperm. }
  assert (Hagg : Forall (aggregable (heap w2)) data').
  { eapply Forall_impl; [exact Hall'|]. intros l (d & Hl & Hc).
    by eapply computed_aggregable. }
  rewrite (bind_Done _ _ _ _ _ (aggregrate_by_sector_run w2 data' Hagg)).
  set (m0 := foldl fold_pair [] _). set (m := _ <$> m0).
  assert (Hnem : m ≠ []).
  { assert (l0 ∈ data') as Hl0 by (rewrite Hperm; by left).
    assert (aggregable (heap w2) l0) as (c & r & Hc & _)
      by (rewrite Forall_forall in Hagg; auto).
    assert (returns_in (heap w2) c data' ≠ []) as Hrs
      by (apply returns_in_nonempty; eauto).
    destruct (folded_foldl (omap (pair_of (heap w2)) data')) as [_ Hget].
    specialize (Hget c). rewrite (returns_of_pairs _ _ _ Hagg) in Hget.
    fold m0 in Hget. subst m. destruct m0; [|done].
    by destruct (returns_in (heap w2) c data'). }
  assert (Havg : Forall (λ p : string * entry, is_Some (avg_return p.2)) m).
  { apply Forall_forall. intros [c e] ([c0 e0] & [= -> ->] & _)%list_elem_of_fmap.
    by eexists. }
  destruct (print_report_returns (heap w2) data' m Hall' Hnem Havg w2 eq_refl)
    as ([] & w3 & Hrep & Hh3 & _).
  rewrite (bind_Done _ _ _ _ _ Hrep).
  destruct (print_report_printed data' m w2) as [evs Hw3].
  rewrite Hrep in Hw3. cbn [snd] in Hw3.
  assert (∃ ds', Forall2 (λ l d, heap w3 !! l = Some d ∧ computed d) data' ds')
    as [ds' Hds'].
  { rewrite Hh3. clear -Hall'. induction Hall' as [|l ls (d & Hl & Hc) _ [ds' IH]].
    - by exists [].
    - exists (d :: ds'). by constructor. }
  exists ds', w3. rewrite Hh3. fold data'. split_and!; try done.
  - by rewrite <- Hh3.
  - rewrite Hw3. cbn. by rewrite Hf.
  - rewrite Hw3. cbn. by rewrite Hn.
Qed.

(** X26.  A run in which the Loader returns at least one record and the
    report path can be written completes, and the report file then holds the
    header and one row for each loaded record with its return, in rank order
    (greatest return first when the returns are numbers); the last line
    printed is the saved line, and no other file has changed. *)
Theorem main_writes_report (w : world) (data : list loc) (w1 : world) :
  read_csv_safe (strip (typed w))
    (with_console (console w ++ [Prompt "Enter CSV filename: "]) w)
  = (Done data, w1) →
  data ≠ [] →
  files w !! report_name w ≠ Some Denied →
  ∃ out ds w',
    main w = (Done tt, w') ∧
    out ≡ₚ data ∧
    Forall2 (λ l d, heap w' !! l = Some d ∧ computed d) out ds ∧
    files w' = <[report_name w := Regular (fields :: map export_row ds)]> (files w) ∧
    last (console w') = Some (Saved (report_name w)) ∧
    (Forall (λ l, ∃ r, return_of (heap w') l = Some r ∧ is_nan r = false) data →
     StronglySorted (ge_return (heap w')) out).
Proof.
  intros Hload Hne Hfile.
  destruct (main_before_export w data w1 Hload Hne)
    as (ds & w3 & Hmain & Hds & Hall & Hf3 & Hn3).
  assert (Hname : report_name w3 = report_name w) by (unfold report_name; by rewrite Hn3).
  assert (Hok : files w3 !! report_name w3 ≠ Some Denied) by (by rewrite Hname, Hf3).
  pose proof (export_csv_saved w3 _ ds Hok Hds) as Hexp.
  rewrite <- Hmain, Hname, Hf3 in Hexp.
  eexists (ranked (heap w3) data), ds, _. split; [exact Hexp|].
  cbn [heap files console]. split_and!.
  - apply ranked_perm.
  - done.
  - done.
  - by rewrite last_snoc.
  - apply ranked_sorted.
Qed.

(** X27.  A run in which the Loader returns at least one record and the
    report path cannot be written still completes: the last line printed is
    the error line, and no file has changed. *)
Theorem main_report_unwritable (w : world) (data : list loc) (w1 : world) :
  read_csv_safe (strip (typed w))
    (with_console (console w ++ [Prompt "Enter CSV filename: "]) w)
  = (Done data, w1) →
  data ≠ [] →
  files w !! report_name w = Some Denied →
  ∃ w', main w = (Done tt, w') ∧ files w' = files w ∧
        last (console w') = Some (ErrorSaving (report_name w)).
Proof.
  intros Hload Hne Hfile.
  destruct (main_before_export w data w1 Hload Hne)
    as (ds & w3 & Hmain & Hds & Hall & Hf3 & Hn3).
  assert (Hname : report_name w3 = report_name w) by (unfold report_name; by rewrite Hn3).
  assert (Hden : files w3 !! report_name w3 = Some Denied) by (by rewrite Hname, Hf3).
  pose proof (export_csv_denied w3 (ranked (heap w3) data) Hden) as Hexp.
  rewrite <- Hmain, Hname in Hexp.
  eexists. split; [exact Hexp|]. cbn [files console with_console].
  split; [done|]. by rewrite last_snoc.
Qed.

Lemma DictReader_blank rows :
  Forall (λ row, row = []) (tail rows) → DictReader rows = [].
Proof.
  destruct rows as [|fieldnames rows]; [done|]. cbn [tail]. intros Hb.
  unfold DictReader. induction Hb as [|row rows -> _ IH]; [done|].
  by rewrite filter_cons_False by (by intros ?).
Qed.

(** X28.  Run on a source without data rows (an empty file, a header alone,
    or a header followed by blank lines only), the program prints the prompt
    and the no-data line, nothing in between, and exits with status 0. *)
Theorem main_empty_source (w : world) (rows : table) :
  files w !! strip (typed w) = Some (Regular rows) →
  Forall (λ row, row = []) (tail rows) →
  main w
  = (Raise (SystemExit None),
     with_console (console w ++ [Prompt "Enter CSV filename: "; NoValidData]) w)
  ∧ exit_status (main w).1 = 0%Z.
Proof.
  intros Hf Hb.
  assert (E : main w
    = (Raise (SystemExit None),
       with_console (console w ++ [Prompt "Enter CSV filename: "; NoValidData]) w)).
  { unfold main. unfold mbind at 1, M_bind at 1, input at 1.
    unfold mbind at 1, M_bind at 1.
    unfold read_csv_safe, try_except, open_read. unfold mbind at 1, M_bind at 1.
    cbn [files with_console]. rewrite Hf, (DictReader_blank _ Hb). cbn.
    unfold mbind, M_bind, print, raise, mret, M_ret, with_console; cbn.
    by rewrite <- !app_assoc. }
  by rewrite E.
Qed.

Lemma StronglySorted_app_Forall {A} (R : A → A → Prop) l1 l2 :
  StronglySorted R (l1 ++ l2) → Forall (λ a, Forall (R a) l2) l1.
Proof.
  induction l1 as [|a l1 IH]; [constructor|]. cbn [app].
  intros Hs. inversion Hs as [|? ? Hs' Ha]; subst. constructor; [|by apply IH].
  by apply Forall_app in Ha as [_ ?].
Qed.

(** X29.  The Top 5 section shows the records with the greatest returns:
    in the Ranker's output, which the Reporter is given, each of the first
    five records has a return at least as great as that of every record
    after the fifth (returns being numbers). *)
Theorem top_five_have_greatest_returns (w : world) (data : list loc) :
  Forall (λ l, ∃ r, return_of (heap w) l = Some r ∧ is_nan r = false) data →
  ∃ out, process_all data w = (Done out, w) ∧
         Forall (λ a, Forall (ge_return (heap w) a) (drop 5 out)) (take 5 out).
Proof.
  intros Hd. exists (ranked (heap w) data). split.
  - apply process_all_floats. eapply Forall_impl; [exact Hd|].
    intros l (r & Hr & _). by exists r.
  - apply StronglySorted_app_Forall. rewrite take_drop. by apply ranked_sorted.
Qed.

End Behaviour.

(** * The scenarios, run *)

(** Scenario A: two records are loaded, CCC is dropped with a diagnostic;
    the returns are 10.0 and -10.0 and the ranking is AAA, BBB. *)
Example scenario_A_ranking :
  (Scenario.load_and_rank (Scenario.start (Some (Regular Scenario.scenario_A)))).1
  = Done [0; 1]
  ∧ map (return_of (heap (Scenario.computed_world Scenario.scenario_A))) [0; 1]
    = [Some 10%float; Some (-10)%float]
  ∧ map (λ l, field (heap (Scenario.computed_world Scenario.scenario_A)) l "Stock") [0; 1]
    = [Some (VStr "AAA"); Some (VStr "BBB")].
Proof. split_and!; vm_compute; reflexivity. Qed.

(** Scenario A: one entry per sector, each with count 1 and its return as
    average. *)
Example scenario_A_sectors :
  (aggregrate_by_sector (H := Scenario.builtins) [0; 1]
     (Scenario.computed_world Scenario.scenario_A)).1
  = Done [("Tech", Entry 10 1 (Some 10%float));
          ("Health", Entry (-10) 1 (Some (-10)%float))].
Proof. vm_compute; reflexivity. Qed.

(** Scenario A: the whole program completes and writes the report file. *)
Example scenario_A_report :
  (Scenario.run (Scenario.start (Some (Regular Scenario.scenario_A)))).1 = Done tt
  ∧ files (Scenario.run (Scenario.start (Some (Regular Scenario.scenario_A)))).2
      !! "stock_report_20240101_120000.csv"
    = Some (Regular [["Stock"; "Sector"; "PriceStart"; "PriceEnd"; "Return"];
                     ["AAA"; "Tech"; "100.0"; "110.0"; "10.0"];
                     ["BBB"; "Health"; "50.0"; "45.0"; "-10.0"]]).
Proof. split; vm_compute; reflexivity. Qed.

(** Scenario C: a row with a start price of zero is dropped without a
    diagnostic. *)
Example scenario_C_silent :
  Scenario.load (Scenario.start (Some (Regular Scenario.zero_price)))
  = (Done [], Scenario.start (Some (Regular Scenario.zero_price))).
Proof. vm_compute; reflexivity. Qed.

(** C5.  The Loader lets exceptions escape: a row that stops before its
    Sector cell raises [AttributeError] out of [read_csv_safe], and a file
    that exists but cannot be opened raises [PermissionError] out of it. *)
Theorem read_csv_safe_lets_exceptions_escape :
  Scenario.load (Scenario.start (Some (Regular Scenario.short_row)))
  = (Raise AttributeError, Scenario.start (Some (Regular Scenario.short_row)))
  ∧ Scenario.load (Scenario.start (Some Denied))
    = (Raise (PermissionError "in.csv"), Scenario.start (Some Denied)).
Proof. split; vm_compute; reflexivity. Qed.

(** C1 on the first record of scenario A: 100 to 110 is a return of 10.0. *)
Lemma compute_return_correct_witness :
  compute_return (H := Scenario.builtins) 0 Scenario.loaded_A
  = (Done 0,
     with_heap (<[0 := <["Return" := VFloat 10]> Scenario.record_AAA]>
                  (heap Scenario.loaded_A)) Scenario.loaded_A).
Proof.
  apply (compute_return_correct (H := Scenario.builtins)
           Scenario.loaded_A 0 Scenario.record_AAA 100 110);
    vm_compute; reflexivity.
Defined.

(** The rows A (100 to 101), B (inf to inf) and C (100 to 102) are all
    admitted; their returns are 1.0, NaN and 2.0; the Ranker returns them in
    that order, 1.0 ahead of 2.0; and no order of the three is sorted, since
    NaN is neither above nor below a number. *)
Lemma process_all_unsorted_with_nan :
  (Scenario.load_and_rank (Scenario.start (Some (Regular Scenario.infinite_price)))).1
  = Done [0; 1; 2]
  ∧ map (return_of (heap (Scenario.computed_world Scenario.infinite_price))) [0; 1; 2]
    = [Some 1%float; Some nan; Some 2%float]
  ∧ ¬ StronglySorted (ge_return (heap (Scenario.computed_world Scenario.infinite_price)))
        [0; 1; 2]
  ∧ ∀ out, out ≡ₚ [0; 1; 2] →
      ¬ StronglySorted (ge_return (heap (Scenario.computed_world Scenario.infinite_price)))
          out.
Proof.
  split_and!; [vm_compute; reflexivity..| |].
  - intros Hs. inversion Hs as [|? ? _ Hall]; subst.
    apply Forall_cons in Hall as [_ Hall]. apply Forall_cons in Hall as [Hge _].
    destruct Hge as (x & y & Hx & Hy & Hle).
    vm_compute in Hx, Hy. injection Hx as <-. injection Hy as <-.
    vm_compute in Hle. discriminate.
  - intros out Hp Hs.
    assert (0 ∈ out ∧ 1 ∈ out) as [H0 H1]
      by (rewrite Hp; split; repeat constructor).
    destruct (StronglySorted_related _ _ _ _ Hs H0 H1)
      as [?|[(x & y & Hx & Hy & Hle)|(x & y & Hx & Hy & Hle)]]; [done| |];
      vm_compute in Hx, Hy; injection Hx as <-; injection Hy as <-;
      vm_compute in Hle; discriminate.
Qed.

(** C2 on the two records of scenario A. *)
Lemma process_all_sorted_witness :
  ∃ out, process_all [0; 1] (Scenario.computed_world Scenario.scenario_A)
         = (Done out, Scenario.computed_world Scenario.scenario_A) ∧
         out ≡ₚ [0; 1] ∧ length out = 2 ∧ ([0; 1] = [] → out = []) ∧
         (Forall (λ l, ∃ r, return_of (heap (Scenario.computed_world Scenario.scenario_A)) l
                            = Some r ∧ is_nan r = false) [0; 1] →
          StronglySorted (ge_return (heap (Scenario.computed_world Scenario.scenario_A))) out).
Proof.
  apply process_all_sorted.
  repeat (apply Forall_cons; split; [eexists; vm_compute; reflexivity|]).
  apply Forall_nil_2.
Defined.

(** The seven rows of [equal_returns] are all admitted; their returns are
    1.0 four times, NaN, 1.0 and 2.0; the Ranker returns B, E, G, A, C, D, F:
    B comes out ahead of A, which went in before it with the same return. *)
Lemma process_all_unstable_with_nan :
  (Scenario.load_and_rank (Scenario.start (Some (Regular Scenario.equal_returns)))).1
  = Done [1; 4; 6; 0; 2; 3; 5]
  ∧ map (return_of (heap (Scenario.computed_world Scenario.equal_returns)))
        [0; 1; 2; 3; 4; 5; 6]
    = [Some 1%float; Some 1%float; Some 1%float; Some 1%float; Some nan;
       Some 1%float; Some 2%float]
  ∧ process_all [0; 1; 2; 3; 4; 5; 6] (Scenario.computed_world Scenario.equal_returns)
    = (Done [1; 4; 6; 0; 2; 3; 5], Scenario.computed_world Scenario.equal_returns)
  ∧ List.filter (has_return (heap (Scenario.computed_world Scenario.equal_returns)) 1)
                [1; 4; 6; 0; 2; 3; 5]
    = [1; 0; 2; 3; 5]
  ∧ List.filter (has_return (heap (Scenario.computed_world Scenario.equal_returns)) 1)
                [0; 1; 2; 3; 4; 5; 6]
    = [0; 1; 2; 3; 5]
  ∧ ¬ ∃ out,
        process_all [0; 1; 2; 3; 4; 5; 6]
          (Scenario.computed_world Scenario.equal_returns)
        = (Done out, Scenario.computed_world Scenario.equal_returns) ∧
        ∀ v, List.filter
               (has_return (heap (Scenario.computed_world Scenario.equal_returns)) v) out
             = List.filter
                 (has_return (heap (Scenario.computed_world Scenario.equal_returns)) v)
                 [0; 1; 2; 3; 4; 5; 6].
Proof.
  assert (Hrun : process_all [0; 1; 2; 3; 4; 5; 6]
                   (Scenario.computed_world Scenario.equal_returns)
                 = (Done [1; 4; 6; 0; 2; 3; 5],
                    Scenario.computed_world Scenario.equal_returns))
    by (vm_compute; reflexivity).
  split_and!; [vm_compute; reflexivity..|].
  intros (out & Hout & Hv). rewrite Hrun in Hout. injection Hout as <-.
  specialize (Hv 1%float). vm_compute in Hv. discriminate.
Qed.

(** C10 on the two records of scenario A, neither return of which is NaN. *)
Lemma process_all_stable_witness :
  Forall (λ l, ∃ r, return_of (heap (Scenario.computed_world Scenario.scenario_A)) l
                    = Some r ∧ is_nan r = false) [0; 1] ∧
  ∃ out, process_all [0; 1] (Scenario.computed_world Scenario.scenario_A)
         = (Done out, Scenario.computed_world Scenario.scenario_A) ∧
         (Forall (λ l, ∃ r, return_of (heap (Scenario.computed_world Scenario.scenario_A)) l
                            = Some r ∧ is_nan r = false) [0; 1] →
          ∀ v, List.filter (has_return (heap (Scenario.computed_world Scenario.scenario_A)) v) out
               = List.filter (has_return (heap (Scenario.computed_world Scenario.scenario_A)) v)
                   [0; 1]) ∧
         (∀ w', Forall (λ l, return_of (heap w') l
                             = return_of (heap (Scenario.computed_world Scenario.scenario_A)) l)
                  [0; 1] →
                (process_all [0; 1] w').1 = Done out).
Proof.
  split.
  - repeat (apply Forall_cons; split;
            [eexists; split; vm_compute; reflexivity|]).
    apply Forall_nil_2.
  - apply process_all_stable.
    repeat (apply Forall_cons; split; [eexists; vm_compute; reflexivity|]).
    apply Forall_nil_2.
Defined.

(** C3 on the two records of scenario A. *)
Lemma aggregrate_by_sector_correct_witness :
  ∃ m, aggregrate_by_sector (H := Scenario.builtins) [0; 1]
         (Scenario.computed_world Scenario.scenario_A)
       = (Done m, Scenario.computed_world Scenario.scenario_A) ∧
       NoDup m.*1 ∧
       (∀ c, c ∈ m.*1 ↔
             ∃ l, l ∈ [0; 1] ∧
                  sector_of (heap (Scenario.computed_world Scenario.scenario_A)) l = Some c) ∧
       (∀ c e, (c, e) ∈ m →
          let rs := returns_in (heap (Scenario.computed_world Scenario.scenario_A)) c [0; 1] in
          count e = Z.of_nat (length rs) ∧ count e ≠ 0%Z ∧
          total e = sum_returns rs ∧
          avg_return e
          = Some (round_ndigits (Builtins := Scenario.builtins)
                    (total e / float_of_int (count e))%float 2)).
Proof.
  apply (aggregrate_by_sector_correct (H := Scenario.builtins)).
  repeat (apply Forall_cons; split;
          [eexists _, _; split; vm_compute; reflexivity|]).
  apply Forall_nil_2.
Defined.

(** A source without a Stock column: its one data row has two prices that
    are non-empty, read as numbers and are above zero, and it is not in the
    Loader's output. *)
Lemma read_csv_safe_skips_row_without_stock_column :
  (Scenario.load (Scenario.start (Some (Regular Scenario.no_stock_column)))).1
  = Done []
  ∧ ∃ row, DictReader Scenario.no_stock_column = [row] ∧
      cell row "PriceStart" = Some "100" ∧ cell row "PriceEnd" = Some "110" ∧
      float_of_str (Builtins := Scenario.builtins) "100" = Some 100%float ∧
      float_of_str (Builtins := Scenario.builtins) "110" = Some 110%float ∧
      (0 <? 100)%float = true ∧ (0 <? 110)%float = true.
Proof.
  split; [vm_compute; reflexivity|].
  eexists. split; [reflexivity|]. split_and!; vm_compute; reflexivity.
Qed.

(** C4 on scenario A: AAA and BBB are loaded in that order and CCC, whose
    start price is empty, is the one malformed row. *)
Lemma read_csv_safe_rows_witness :
  ∃ evs,
    Forall2 diagnoses
      (List.filter (is_malformed (H := Scenario.builtins))
         (DictReader Scenario.scenario_A)) evs ∧
    Scenario.load (Scenario.start (Some (Regular Scenario.scenario_A)))
    = (Done [0; 1],
       World [Scenario.record_AAA; Scenario.record_BBB]
             {["in.csv" := Regular Scenario.scenario_A]} evs
             "20240101_120000" "in.csv").
Proof.
  apply (read_csv_safe_rows (H := Scenario.builtins)
           (Scenario.start (Some (Regular Scenario.scenario_A))) "in.csv"
           Scenario.scenario_A).
  - vm_compute; reflexivity.
  - repeat (apply Forall_cons; split;
            [split; vm_compute; discriminate|]).
    apply Forall_nil_2.
Defined.

(** C6.  The empty-data exit is not the only way the program ends.  On a
    source with a short row the [AttributeError] that escapes the Loader ends
    it after the prompt, with exit status 1: the line of the empty-data exit
    is not printed and nothing is ranked or written.  A source that cannot be
    opened ends it in the same way with [PermissionError]. *)
Theorem main_stops_on_escaped_exception :
  Scenario.run (Scenario.start (Some (Regular Scenario.short_row)))
  = (Raise AttributeError,
     with_console [Prompt "Enter CSV filename: "]
       (Scenario.start (Some (Regular Scenario.short_row))))
  ∧ exit_status
      (Scenario.run (Scenario.start (Some (Regular Scenario.short_row)))).1
    = 1%Z
  ∧ Scenario.run (Scenario.start (Some Denied))
    = (Raise (PermissionError "in.csv"),
       with_console [Prompt "Enter CSV filename: "] (Scenario.start (Some Denied)))
  ∧ exit_status (Scenario.run (Scenario.start (Some Denied))).1 = 1%Z.
Proof. split_and!; vm_compute; reflexivity. Qed.

(** Scenario B, a file that does not exist: the Loader prints its
    diagnostic and returns no record, and the program exits with status 0. *)
Lemma main_exits_only_on_empty_witness :
  Scenario.run (Scenario.start None)
  = (Raise (SystemExit None),
     World [] ∅ [Prompt "Enter CSV filename: "; FileNotFound "in.csv"; NoValidData]
           "20240101_120000" "in.csv")
  ∧ exit_status (Scenario.run (Scenario.start None)).1 = 0%Z.
Proof.
  apply (main_exits_only_on_empty (H := Scenario.builtins)
           (Scenario.start None) []
           (World [] ∅ [Prompt "Enter CSV filename: "; FileNotFound "in.csv"]
                  "20240101_120000" "in.csv")).
  vm_compute; reflexivity.
Defined.

(** A row whose Stock cell is empty is admitted, with the empty name. *)
Lemma read_csv_safe_admits_empty_name :
  (Scenario.load (Scenario.start (Some (Regular Scenario.unnamed)))).1 = Done [0]
  ∧ field (heap (Scenario.load (Scenario.start (Some (Regular Scenario.unnamed)))).2)
          0 "Stock"
    = Some (VStr "").
Proof. split; vm_compute; reflexivity. Qed.

(** C7 on a run of the program on scenario A. *)
Lemma records_mutated_by_calculator_only_witness :
  NoDup [0; 1] ∧
  calculated (H := Scenario.builtins) 0 [0; 1] Sample.prompted_A = Sample.prompted_A ∧
  (∀ i l, [0; 1] !! i = Some l →
     ∃ d, heap Sample.prompted_A !! l = Some d ∧ d !! "Return" = None ∧
          heap (calculated (H := Scenario.builtins) i [0; 1] Sample.prompted_A) !! l
          = Some d ∧
          compute_return (H := Scenario.builtins) l
            (calculated (H := Scenario.builtins) i [0; 1] Sample.prompted_A)
          = (Done l,
             with_heap
               (<[l := with_return (H := Scenario.builtins) d]>
                  (heap (calculated (H := Scenario.builtins) i [0; 1] Sample.prompted_A)))
               (calculated (H := Scenario.builtins) i [0; 1] Sample.prompted_A)) ∧
          calculated (H := Scenario.builtins) (S i) [0; 1] Sample.prompted_A
          = (compute_return (H := Scenario.builtins) l
               (calculated (H := Scenario.builtins) i [0; 1] Sample.prompted_A)).2 ∧
          ∀ j, j < length [0; 1] → j ≠ i →
               heap (calculated (H := Scenario.builtins) (S j) [0; 1] Sample.prompted_A) !! l
               = heap (calculated (H := Scenario.builtins) j [0; 1] Sample.prompted_A) !! l) ∧
  map_each (compute_return (H := Scenario.builtins)) [0; 1] Sample.prompted_A
  = (Done [0; 1],
     calculated (H := Scenario.builtins) (length [0; 1]) [0; 1] Sample.prompted_A) ∧
  heap (main (H := Scenario.builtins)
          (Scenario.start (Some (Regular Scenario.scenario_A)))).2
  = heap (calculated (H := Scenario.builtins) (length [0; 1]) [0; 1] Sample.prompted_A) ∧
  (∀ stock w,
     only_return_changed stock w (compute_return (H := Scenario.builtins) stock w).2 ∧
     ∀ a, (compute_return (H := Scenario.builtins) stock w).1 = Done a → a = stock) ∧
  (∀ filename w data w',
     read_csv_safe (H := Scenario.builtins) filename w = (Done data, w') → NoDup data) ∧
  (∀ data, heap_stable (process_all data)) ∧
  (∀ data, heap_stable (aggregrate_by_sector (H := Scenario.builtins) data)) ∧
  (∀ data m, heap_stable (print_report data m)) ∧
  (∀ data, heap_stable (export_csv (H := Scenario.builtins) data)).
Proof.
  apply (records_mutated_by_calculator_only (H := Scenario.builtins)
           (Scenario.start (Some (Regular Scenario.scenario_A))) [0; 1]
           Sample.prompted_A).
  vm_compute; reflexivity.
Defined.

(** C9 on scenario A. *)
Lemma read_csv_safe_invariant_witness :
  Forall (λ l, ∃ d, heap Scenario.loaded_A !! l = Some d ∧ loaded d) [0; 1].
Proof.
  apply (read_csv_safe_invariant (H := Scenario.builtins) "in.csv"
           (Scenario.start (Some (Regular Scenario.scenario_A)))).
  vm_compute; reflexivity.
Defined.

(** C8 on the two records of scenario A. *)
Lemma export_then_load_witness :
  ∃ w1 data' w2 w3,
    export_csv (H := Scenario.builtins) [0; 1]
      (Scenario.computed_world Scenario.scenario_A) = (Done tt, w1) ∧
    read_csv_safe (H := Scenario.builtins)
      (report_name (Scenario.computed_world Scenario.scenario_A)) w1
    = (Done data', w2) ∧
    map (tuple_of (heap w2)) data'
    = map (tuple_of (heap (Scenario.computed_world Scenario.scenario_A))) [0; 1] ∧
    map_each (compute_return (H := Scenario.builtins)) data' w2 = (Done data', w3) ∧
    map (λ l, field (heap w3) l "Return") data'
    = map (λ l, field (heap (Scenario.computed_world Scenario.scenario_A)) l "Return")
        [0; 1].
Proof.
  apply (export_then_load (H := Scenario.builtins)
           (Scenario.computed_world Scenario.scenario_A) [0; 1]
           [Scenario.record_AAA; Scenario.record_BBB]).
  - repeat (apply Forall2_cons; split; [vm_compute; reflexivity|]).
    apply Forall2_nil_2.
  - repeat (apply Forall_cons; split;
            [eexists _, _, _, _; split_and!; [reflexivity|vm_compute; reflexivity..]|]).
    apply Forall_nil_2.
  - repeat (apply Forall_cons; split;
            [split; (split; [vm_compute; reflexivity|vm_compute; discriminate])|]).
    apply Forall_nil_2.
  - vm_compute; discriminate.
Defined.

(** * The further properties, run *)

(** X6 on scenario B: no file of that name. *)
Lemma read_csv_safe_missing_file_witness :
  read_csv_safe (H := Scenario.builtins) "in.csv" (Scenario.start None)
  = (Done [], World [] ∅ [FileNotFound "in.csv"] "20240101_120000" "in.csv").
Proof.
  apply (read_csv_safe_missing_file (H := Scenario.builtins)
           (Scenario.start None) "in.csv").
  vm_compute; reflexivity.
Defined.

(** X8 on a source with one row of each kind: the empty price gives the
    missing-prices line, the price that is no number the invalid-row line,
    the accepted row and the row with a zero price no line. *)
Lemma read_csv_safe_diagnostics_witness :
  ∃ r2 r3,
    DictReader Sample.mixed_rows !! 1 = Some r2 ∧
    DictReader Sample.mixed_rows !! 2 = Some r3 ∧
    console (read_csv_safe (H := Scenario.builtins) "in.csv"
               (Scenario.start (Some (Regular Sample.mixed_rows)))).2
    = [SkipMissing r2; SkipInvalid r3].
Proof.
  eexists _, _. split; [reflexivity|]. split; [reflexivity|].
  rewrite (read_csv_safe_diagnostics (H := Scenario.builtins)
             (Scenario.start (Some (Regular Sample.mixed_rows))) "in.csv"
             Sample.mixed_rows).
  - vm_compute; reflexivity.
  - vm_compute; reflexivity.
  - repeat (apply Forall_cons; split; [split; vm_compute; discriminate|]).
    apply Forall_nil_2.
Defined.

(** X9 on scenario A. *)
Lemma calculator_accepts_loader_output_witness :
  ∃ w2, map_each (compute_return (H := Scenario.builtins)) [0; 1] Scenario.loaded_A
        = (Done [0; 1], w2) ∧
        all_computed (H := Scenario.builtins) (heap w2) [0; 1] ∧
        only_records Scenario.loaded_A w2.
Proof.
  apply (calculator_accepts_loader_output (H := Scenario.builtins) "in.csv"
           (Scenario.start (Some (Regular Scenario.scenario_A)))).
  vm_compute; reflexivity.
Defined.

(** X10: a start price of zero. *)
Lemma compute_return_zero_start_witness :
  compute_return (H := Scenario.builtins) 0 (Sample.world_of [Sample.zero_start] ∅)
  = (Raise ZeroDivisionError, Sample.world_of [Sample.zero_start] ∅).
Proof.
  apply (compute_return_zero_start (H := Scenario.builtins)
           (Sample.world_of [Sample.zero_start] ∅) 0 Sample.zero_start 0 50);
    vm_compute; reflexivity.
Defined.

(** X11: a record without an end price. *)
Lemma compute_return_missing_price_witness :
  compute_return (H := Scenario.builtins) 0 (Sample.world_of [Sample.no_end_price] ∅)
  = (Raise (KeyError "PriceEnd"), Sample.world_of [Sample.no_end_price] ∅).
Proof.
  apply (compute_return_missing_price (H := Scenario.builtins)
           (Sample.world_of [Sample.no_end_price] ∅) 0 Sample.no_end_price).
  - vm_compute; reflexivity.
  - right. vm_compute; reflexivity.
Defined.

(** X12 on the record whose start price is zero. *)
Lemma compute_return_fails_cleanly_witness :
  Sample.world_of [Sample.zero_start] ∅ = Sample.world_of [Sample.zero_start] ∅ ∧
  (ZeroDivisionError = KeyError "PriceStart" ∨ ZeroDivisionError = KeyError "PriceEnd"
   ∨ ZeroDivisionError = TypeError ∨ ZeroDivisionError = ZeroDivisionError).
Proof.
  apply (compute_return_fails_cleanly (H := Scenario.builtins)
           (Sample.world_of [Sample.zero_start] ∅) 0).
  - eexists. vm_compute; reflexivity.
  - vm_compute; reflexivity.
Defined.

(** X13 on the first record of scenario A. *)
Lemma compute_return_idempotent_witness :
  compute_return (H := Scenario.builtins) 0
    (compute_return (H := Scenario.builtins) 0 Scenario.loaded_A).2
  = (Done 0, (compute_return (H := Scenario.builtins) 0 Scenario.loaded_A).2).
Proof.
  apply (compute_return_idempotent (H := Scenario.builtins) Scenario.loaded_A 0 0).
  vm_compute; reflexivity.
Defined.

(** X14 on scenario A before the Calculator has run. *)
Lemma process_all_needs_return_witness :
  process_all [0; 1] Scenario.loaded_A = (Raise (KeyError "Return"), Scenario.loaded_A).
Proof.
  apply process_all_needs_return.
  - repeat (apply Forall_cons; split; [eexists; vm_compute; reflexivity|]).
    apply Forall_nil_2.
  - apply Exists_cons_hd. vm_compute; reflexivity.
Defined.

(** X15 on the records of scenario A taken in the opposite order. *)
Lemma process_all_idempotent_witness :
  ∃ out, process_all [1; 0] Sample.computed_A = (Done out, Sample.computed_A) ∧
         process_all out Sample.computed_A = (Done out, Sample.computed_A).
Proof.
  apply process_all_idempotent.
  repeat (apply Forall_cons; split; [eexists; vm_compute; reflexivity|]).
  apply Forall_nil_2.
Defined.

(** X16 on the records of scenario A and the first of them again. *)
Lemma aggregrate_by_sector_key_order_witness :
  ∃ m, aggregrate_by_sector (H := Scenario.builtins) [0; 1; 0] Sample.computed_A
       = (Done m, Sample.computed_A) ∧
       m.*1 = first_occurrences (omap (sector_of (heap Sample.computed_A)) [0; 1; 0]).
Proof.
  apply (aggregrate_by_sector_key_order (H := Scenario.builtins)).
  repeat (apply Forall_cons; split;
          [eexists _, _; split; vm_compute; reflexivity|]).
  apply Forall_nil_2.
Defined.

(** X17 on the same three records. *)
Lemma aggregrate_by_sector_counts_every_record_witness :
  ∃ m, aggregrate_by_sector (H := Scenario.builtins) [0; 1; 0] Sample.computed_A
       = (Done m, Sample.computed_A) ∧
       counted m = 3%Z.
Proof.
  apply (aggregrate_by_sector_counts_every_record (H := Scenario.builtins)
           Sample.computed_A [0; 1; 0]).
  repeat (apply Forall_cons; split;
          [eexists _, _; split; vm_compute; reflexivity|]).
  apply Forall_nil_2.
Defined.

(** X18 on scenario A before the Calculator has run. *)
Lemma aggregrate_by_sector_needs_return_witness :
  aggregrate_by_sector (H := Scenario.builtins) [0; 1] Scenario.loaded_A
  = (Raise (KeyError "Return"), Scenario.loaded_A).
Proof.
  apply (aggregrate_by_sector_needs_return (H := Scenario.builtins)
           Scenario.loaded_A [] [1] 0).
  - apply Forall_nil_2.
  - eexists. vm_compute; reflexivity.
  - vm_compute; reflexivity.
Defined.

(** X19 on the summary of scenario A: Tech, with 10.0, comes first and is
    the best. *)
Lemma max_by_avg_first_maximum_witness :
  ∃ pre best post,
    Sample.summary_A = pre ++ best :: post ∧ max_by_avg Sample.summary_A = Done best ∧
    Forall (λ p, (avg p <? avg best)%float = true) pre ∧
    Forall (λ p, (avg p <=? avg best)%float = true) post.
Proof.
  apply max_by_avg_first_maximum.
  - discriminate.
  - repeat (apply Forall_cons; split; [eexists; split; vm_compute; reflexivity|]).
    apply Forall_nil_2.
Defined.

(** X20 on the two records and the summary of scenario A. *)
Lemma print_report_output_witness :
  ∃ best,
    max_by_avg Sample.summary_A = Done best ∧
    print_report [0; 1] Sample.summary_A Sample.computed_A
    = (Done tt,
       with_console
         (console Sample.computed_A ++
          [Heading "All Stock Details"; Rule; Columns] ++
          map (report_line (heap Sample.computed_A)) [0; 1] ++
          [Heading "Top 5 Stocks by Return"; Rule] ++
          map (top_line (heap Sample.computed_A)) (take 5 [0; 1]) ++
          [Heading "Sector Summary"; Rule] ++
          map sector_line Sample.summary_A ++ [BestSector best.1 (avg best)])
         Sample.computed_A).
Proof.
  apply print_report_output.
  - repeat (apply Forall_cons; split;
            [intros k Hk;
             repeat (apply elem_of_cons in Hk as [->|Hk];
                     [eexists; split; [vm_compute; reflexivity|discriminate]|]);
             by apply elem_of_nil in Hk|]).
    apply Forall_nil_2.
  - discriminate.
  - repeat (apply Forall_cons; split; [eexists; reflexivity|]).
    apply Forall_nil_2.
Defined.

(** X21 on the two records of scenario A and no sector. *)
Lemma print_report_empty_summary_witness :
  print_report [0; 1] [] Sample.computed_A
  = (Raise ValueError,
     with_console (console Sample.computed_A
                   ++ record_sections (heap Sample.computed_A) [0; 1])
       Sample.computed_A).
Proof.
  apply print_report_empty_summary.
  repeat (apply Forall_cons; split;
          [intros k Hk;
           repeat (apply elem_of_cons in Hk as [->|Hk];
                   [eexists; split; [vm_compute; reflexivity|discriminate]|]);
           by apply elem_of_nil in Hk|]).
  apply Forall_nil_2.
Defined.

(** X22 on the two records of scenario A. *)
Lemma export_csv_writes_report_witness :
  export_csv (H := Scenario.builtins) [0; 1] Sample.computed_A
  = (Done tt,
     World (heap Sample.computed_A)
       (<[report_name Sample.computed_A
          := Regular (fields :: map (export_row (H := Scenario.builtins))
                                    [Sample.computed_AAA; Sample.computed_BBB])]>
          (files Sample.computed_A))
       (console Sample.computed_A ++ [Saved (report_name Sample.computed_A)])
       (now Sample.computed_A) (typed Sample.computed_A)).
Proof.
  apply (export_csv_writes_report (H := Scenario.builtins) Sample.computed_A [0; 1]
           [Sample.computed_AAA; Sample.computed_BBB]).
  - vm_compute; discriminate.
  - repeat (apply Forall2_cons; split;
            [split; [vm_compute; reflexivity
                    |unfold exportable; apply (bool_decide_unpack _); vm_compute; exact I]|]).
    apply Forall2_nil_2.
Defined.

(** X23 on the records of scenario A, the report path being unwritable. *)
Lemma export_csv_unwritable_witness :
  export_csv (H := Scenario.builtins) [0; 1]
    (with_files {[Sample.report_file := Denied]} Sample.computed_A)
  = (Done tt,
     with_console (console Sample.computed_A ++ [ErrorSaving Sample.report_file])
       (with_files {[Sample.report_file := Denied]} Sample.computed_A)).
Proof.
  apply (export_csv_unwritable (H := Scenario.builtins)
           (with_files {[Sample.report_file := Denied]} Sample.computed_A) [0; 1]).
  vm_compute; reflexivity.
Defined.

(** X24: the second of two records has a key named Note. *)
Lemma export_csv_rejects_unknown_key_witness :
  export_csv (H := Scenario.builtins) [0; 1]
    (Sample.world_of [Sample.computed_AAA; Sample.annotated] ∅)
  = (Raise ValueError,
     Sample.world_of [Sample.computed_AAA; Sample.annotated]
       {[Sample.report_file
         := Regular [fields; export_row (H := Scenario.builtins) Sample.computed_AAA]]}).
Proof.
  apply (export_csv_rejects_unknown_key (H := Scenario.builtins)
           (Sample.world_of [Sample.computed_AAA; Sample.annotated] ∅)
           [0] [] [Sample.computed_AAA] 1 Sample.annotated).
  - vm_compute; discriminate.
  - apply Forall2_cons; split; [|apply Forall2_nil_2].
    split; [vm_compute; reflexivity|unfold exportable; apply (bool_decide_unpack _); vm_compute; exact I].
  - vm_compute; reflexivity.
  - unfold exportable. apply (proj1 (bool_decide_eq_false _)). vm_compute; reflexivity.
Defined.

(** X25 on scenario B. *)
Lemma main_missing_file_witness :
  main (H := Scenario.builtins) (Scenario.start None)
  = (Raise (SystemExit None),
     World [] ∅ [Prompt "Enter CSV filename: "; FileNotFound "in.csv"; NoValidData]
           "20240101_120000" "in.csv")
  ∧ exit_status (main (H := Scenario.builtins) (Scenario.start None)).1 = 0%Z.
Proof.
  apply (main_missing_file (H := Scenario.builtins) (Scenario.start None)).
  vm_compute; reflexivity.
Defined.

(** X26 on scenario A. *)
Lemma main_writes_report_witness :
  ∃ out ds w',
    main (H := Scenario.builtins) (Scenario.start (Some (Regular Scenario.scenario_A)))
    = (Done tt, w') ∧
    out ≡ₚ [0; 1] ∧
    Forall2 (λ l d, heap w' !! l = Some d ∧ computed (H := Scenario.builtins) d) out ds ∧
    files w'
    = <[Sample.report_file
        := Regular (fields :: map (export_row (H := Scenario.builtins)) ds)]>
        {["in.csv" := Regular Scenario.scenario_A]} ∧
    last (console w') = Some (Saved Sample.report_file) ∧
    (Forall (λ l, ∃ r, return_of (heap w') l = Some r ∧ is_nan r = false) [0; 1] →
     StronglySorted (ge_return (heap w')) out).
Proof.
  apply (main_writes_report (H := Scenario.builtins)
           (Scenario.start (Some (Regular Scenario.scenario_A))) [0; 1]
           (read_csv_safe (H := Scenario.builtins) "in.csv"
              (with_console [Prompt "Enter CSV filename: "]
                 (Scenario.start (Some (Regular Scenario.scenario_A))))).2).
  - vm_compute; reflexivity.
  - discriminate.
  - vm_compute; discriminate.
Defined.

(** X27 on scenario A, the report path being unwritable. *)
Lemma main_report_unwritable_witness :
  ∃ w', main (H := Scenario.builtins) Sample.start_unwritable = (Done tt, w') ∧
        files w' = files Sample.start_unwritable ∧
        last (console w') = Some (ErrorSaving Sample.report_file).
Proof.
  apply (main_report_unwritable (H := Scenario.builtins) Sample.start_unwritable [0; 1]
           (read_csv_safe (H := Scenario.builtins) "in.csv"
              (with_console [Prompt "Enter CSV filename: "] Sample.start_unwritable)).2).
  - vm_compute; reflexivity.
  - discriminate.
  - vm_compute; reflexivity.
Defined.

(** X28 on a source with a header and a blank line. *)
Lemma main_empty_source_witness :
  main (H := Scenario.builtins) (Scenario.start (Some (Regular Sample.header_only)))
  = (Raise (SystemExit None),
     World [] {["in.csv" := Regular Sample.header_only]}
           [Prompt "Enter CSV filename: "; NoValidData] "20240101_120000" "in.csv")
  ∧ exit_status
      (main (H := Scenario.builtins)
         (Scenario.start (Some (Regular Sample.header_only)))).1 = 0%Z.
Proof.
  apply (main_empty_source (H := Scenario.builtins)
           (Scenario.start (Some (Regular Sample.header_only))) Sample.header_only).
  - vm_compute; reflexivity.
  - apply Forall_cons; split; [reflexivity|apply Forall_nil_2].
Defined.

(** X29 on a list of seven, the two records of scenario A taken in turn. *)
Lemma top_five_have_greatest_returns_witness :
  ∃ out, process_all [1; 0; 1; 0; 1; 0; 1] Sample.computed_A
         = (Done out, Sample.computed_A) ∧
         Forall (λ a, Forall (ge_return (heap Sample.computed_A) a) (drop 5 out))
                (take 5 out).
Proof.
  apply top_five_have_greatest_returns.
  repeat (apply Forall_cons; split; [eexists; split; vm_compute; reflexivity|]).
  apply Forall_nil_2.
Defined.
